(** * InvokeAI image invocations (invokeai/app/invocations/image.py)

    A shallow embedding of the invocation catalog: the PIL image objects the
    invocations work on, the numpy float32 arithmetic of the lerp nodes, the
    image storage collaborator, and every [invoke] method as a computation in
    a state-and-exception monad over the interpreter's image objects. *)

From Stdlib Require Import ZArith QArith Qround Lia List String Bool.
From stdpp Require Import base option list.
Import ListNotations.

Local Open Scope Z_scope.

(** ** IEEE 754 binary floating point, as far as the invocations use it

    numpy computes the lerp nodes in float32 and Python computes the scale
    node in float64.  A finite float is represented by the rational it
    denotes; every operation is the exact operation followed by rounding to
    nearest, ties to even, at the format's precision.  For float32 the
    exponent range is not modelled: from samples of at most 32 bits and
    bounds in [0, 255] the lerp nodes only form values between 2^-9 and
    2^40.  The scale node multiplies by a factor of any magnitude: its
    binary64 product has the format's exponent range ([round64],
    [mul64]).  Zeros are unsigned: the only divisor that can be zero here
    is [float(max - min)], which is +0.0. *)
Module Float.

Inductive t : Type :=
| Fin (q : Q)
| Inf (neg : bool)
| NaN.

Definition binary32 : Z := 24.
Definition binary64 : Z := 53.

(** [a / b] rounded to the nearest integer, ties to even ([0 < b]). *)
Definition round_half_even (a b : Z) : Z :=
  let f := a / b in
  match (2 * (a mod b)) ?= b with
  | Lt => f
  | Gt => f + 1
  | Eq => if Z.even f then f else f + 1
  end.

(** The exponent [e] with [2^e <= n/d < 2^(e+1)]. *)
Definition ilog2 (n d : positive) : Z :=
  let e := Z.log2 (Zpos n) - Z.log2 (Zpos d) in
  let below :=
    if 0 <=? e then Zpos n <? 2 ^ e * Zpos d
    else Zpos n * 2 ^ (- e) <? Zpos d in
  if below then e - 1 else e.

Definition round_pos (prec : Z) (n d : positive) : Q :=
  let s := prec - 1 - ilog2 n d in
  if 0 <=? s
  then Qred (Qmake (round_half_even (Zpos n * 2 ^ s) (Zpos d)) (Z.to_pos (2 ^ s)))
  else inject_Z (round_half_even (Zpos n) (Zpos d * 2 ^ (- s)) * 2 ^ (- s)).

Definition round (prec : Z) (q : Q) : Q :=
  match Qnum q with
  | Z0 => 0%Q
  | Zpos n => round_pos prec n (Qden q)
  | Zneg n => Qopp (round_pos prec n (Qden q))
  end.

Definition of_Z (z : Z) : t := Fin (inject_Z z).

Definition is_zero (q : Q) : bool := Qnum q =? 0.
Definition is_neg (q : Q) : bool := Qnum q <? 0.

Definition add (prec : Z) (x y : t) : t :=
  match x, y with
  | NaN, _ | _, NaN => NaN
  | Fin a, Fin b => Fin (round prec (a + b))
  | Inf s, Fin _ | Fin _, Inf s => Inf s
  | Inf s, Inf s' => if Bool.eqb s s' then Inf s else NaN
  end.

Definition opp (x : t) : t :=
  match x with
  | Fin a => Fin (Qred (Qopp a))
  | Inf s => Inf (negb s)
  | NaN => NaN
  end.

Definition sub (prec : Z) (x y : t) : t := add prec x (opp y).

Definition mul (prec : Z) (x y : t) : t :=
  match x, y with
  | NaN, _ | _, NaN => NaN
  | Fin a, Fin b => Fin (round prec (a * b))
  | Inf s, Fin a | Fin a, Inf s =>
      if is_zero a then NaN else Inf (xorb s (is_neg a))
  | Inf s, Inf s' => Inf (xorb s s')
  end.

Definition div (prec : Z) (x y : t) : t :=
  match x, y with
  | NaN, _ | _, NaN => NaN
  | Fin a, Fin b =>
      if is_zero b
      then (if is_zero a then NaN else Inf (is_neg a))
      else Fin (round prec (a / b))
  | Fin _, Inf _ => Fin 0
  | Inf s, Fin b => Inf (xorb s (is_neg b))
  | Inf _, Inf _ => NaN
  end.

Definition ltb (x y : t) : bool :=
  match x, y with
  | NaN, _ | _, NaN => false
  | Fin a, Fin b => negb (Qle_bool b a)
  | Fin _, Inf s => negb s
  | Inf s, Fin _ => s
  | Inf s, Inf s' => s && negb s'
  end.

(** [numpy.maximum] and [numpy.minimum]: a NaN operand propagates. *)
Definition maximum (x y : t) : t :=
  match x, y with
  | NaN, _ | _, NaN => NaN
  | _, _ => if ltb x y then y else x
  end.

Definition minimum (x y : t) : t :=
  match x, y with
  | NaN, _ | _, NaN => NaN
  | _, _ => if ltb y x then y else x
  end.

(** Truncation toward zero of a finite value. *)
Definition trunc (q : Q) : Z := Z.quot (Qnum q) (Zpos (Qden q)).

(** *** binary64 with its exponent range

    Python's float: 53 digits, no unit in the last place below 2^-1074
    (the subnormal numbers have fewer digits), and an infinity for a
    result that rounds to 2^1024 or more. *)
Definition round_pos64 (n d : positive) : Q :=
  let s := Z.min (binary64 - 1 - ilog2 n d) 1074 in
  if 0 <=? s
  then Qred (Qmake (round_half_even (Zpos n * 2 ^ s) (Zpos d)) (Z.to_pos (2 ^ s)))
  else inject_Z (round_half_even (Zpos n) (Zpos d * 2 ^ (- s)) * 2 ^ (- s)).

Definition overflows64 (q : Q) : bool :=
  2 ^ 1024 * Zpos (Qden q) <=? Z.abs (Qnum q).

Definition round64 (q : Q) : t :=
  let r :=
    match Qnum q with
    | Z0 => 0%Q
    | Zpos n => round_pos64 n (Qden q)
    | Zneg n => Qopp (round_pos64 n (Qden q))
    end in
  if overflows64 r then Inf (is_neg r) else Fin r.

Definition mul64 (x y : t) : t :=
  match x, y with
  | NaN, _ | _, NaN => NaN
  | Fin a, Fin b => round64 (a * b)
  | Inf s, Fin a | Fin a, Inf s =>
      if is_zero a then NaN else Inf (xorb s (is_neg a))
  | Inf s, Inf s' => Inf (xorb s s')
  end.

(** The rationals that are binary64 numbers. *)
Definition is_binary64 (q : Q) : bool :=
  match round64 q with
  | Fin r => Qeq_bool r q
  | _ => false
  end.

End Float.

(** ** numpy

    The floating-point error state: with numpy's default [seterr] a
    division whose divisor is zero does not raise, it yields inf or nan and
    reports a RuntimeWarning ("divide by zero encountered" for [x / 0],
    "invalid value encountered" for [0 / 0]). *)
Inductive fp_warning : Type :=
| DivideByZero
| InvalidValue.

Definition divide_warnings (x y : Float.t) : list fp_warning :=
  match x, y with
  | Float.Fin a, Float.Fin b =>
      if Float.is_zero b
      then (if Float.is_zero a then [InvalidValue] else [DivideByZero])
      else []
  | Float.Inf _, Float.Fin b => if Float.is_zero b then [DivideByZero] else []
  | Float.Inf _, Float.Inf _ => [InvalidValue]
  | _, _ => []
  end.

(** [numpy.uint8(a)] on a float32 array is the C conversion to an unsigned
    char.  For a value in [0, 256) that is truncation.  Outside that range
    C leaves the result undefined; the value given here is the one of the
    x86-64 builds of numpy (conversion through a 32-bit integer, low byte
    kept; 0 for inf and nan). *)
Definition uint8 (x : Float.t) : Z :=
  match x with
  | Float.Fin q => Float.trunc q mod 256
  | _ => 0
  end.

Definition f32 := Float.binary32.

(** ** The pixel transforms of the two interpolation nodes

    A sample and a bound enter the arithmetic as the float of their value,
    which float32 has for every integer below 2^24: for the samples of the
    8-bit modes and for bounds within [0, 255] always. *)

(** ImageLerpInvocation.invoke:
      image_arr = numpy.asarray(image, dtype=numpy.float32) / 255
      image_arr = image_arr * (self.max - self.min) + self.max *)
Definition lerp_value (min max v : Z) : Float.t :=
  let image_arr := Float.div f32 (Float.of_Z v) (Float.of_Z 255) in
  Float.add f32 (Float.mul f32 image_arr (Float.of_Z (max - min))) (Float.of_Z max).

Definition lerp_pixel (min max v : Z) : Z := uint8 (lerp_value min max v).

(** ImageInverseLerpInvocation.invoke:
      image_arr = numpy.asarray(image, dtype=numpy.float32)
      image_arr = numpy.minimum(
          numpy.maximum(image_arr - self.min, 0) / float(self.max - self.min), 1
      ) * 255 *)
Definition ilerp_numerator (min v : Z) : Float.t :=
  Float.maximum (Float.sub f32 (Float.of_Z v) (Float.of_Z min)) (Float.of_Z 0).

Definition ilerp_divisor (min max : Z) : Float.t := Float.of_Z (max - min).

Definition ilerp_value (min max v : Z) : Float.t :=
  Float.mul f32
    (Float.minimum
       (Float.div f32 (ilerp_numerator min v) (ilerp_divisor min max))
       (Float.of_Z 1))
    (Float.of_Z 255).

Definition ilerp_pixel (min max v : Z) : Z := uint8 (ilerp_value min max v).

(** The warnings numpy reports while it transforms one sample. *)
Definition ilerp_warnings (min max v : Z) : list fp_warning :=
  divide_warnings (ilerp_numerator min v) (ilerp_divisor min max).

(** ** Python exceptions and the result of a call *)
Inductive exn : Type :=
| AttributeError
| TypeError
| ValueError
| OverflowError
| MemoryError
| RuntimeError
| OSError
| NotImplementedError
| cv2_error
| ImageFileNotFound.

Inductive result (A : Type) : Type :=
| Ok (a : A)
| Raise (e : exn).
Arguments Ok {A} a.
Arguments Raise {A} e.

(** ** PIL images *)

(** The modes this file can meet: the targets of [IMAGE_MODES], what the
    PNG decoder of the storage service yields, and the premultiplied modes
    that [Image.resize] goes through. *)
Inductive pil_mode : Type :=
| Mode1 | ModeL | ModeP | ModeRGB | ModeRGBA | ModeCMYK | ModeYCbCr
| ModeLAB | ModeHSV | ModeI | ModeF | ModeLA | ModePA | ModeRGBX
| ModeRGBa | ModeLa.

Definition pil_mode_eqb (a b : pil_mode) : bool :=
  match a, b with
  | Mode1, Mode1 | ModeL, ModeL | ModeP, ModeP | ModeRGB, ModeRGB
  | ModeRGBA, ModeRGBA | ModeCMYK, ModeCMYK | ModeYCbCr, ModeYCbCr
  | ModeLAB, ModeLAB | ModeHSV, ModeHSV | ModeI, ModeI | ModeF, ModeF
  | ModeLA, ModeLA | ModePA, ModePA | ModeRGBX, ModeRGBX
  | ModeRGBa, ModeRGBa | ModeLa, ModeLa => true
  | _, _ => false
  end.

(** [Image.getbands]. *)
Definition getbands (m : pil_mode) : list string :=
  match m with
  | Mode1 => ["1"] | ModeL => ["L"] | ModeP => ["P"]
  | ModeI => ["I"] | ModeF => ["F"]
  | ModeRGB => ["R"; "G"; "B"]
  | ModeRGBA => ["R"; "G"; "B"; "A"]
  | ModeRGBX => ["R"; "G"; "B"; "X"]
  | ModeRGBa => ["R"; "G"; "B"; "a"]
  | ModeCMYK => ["C"; "M"; "Y"; "K"]
  | ModeYCbCr => ["Y"; "Cb"; "Cr"]
  | ModeLAB => ["L"; "A"; "B"]
  | ModeHSV => ["H"; "S"; "V"]
  | ModeLA => ["L"; "A"]
  | ModePA => ["P"; "A"]
  | ModeLa => ["L"; "a"]
  end%string.

(** A pixel is the list of its samples, one per band; an image is its
    mode, its size and its pixels in row-major order.  The samples of the
    8-bit modes are integers in [0, 255]; those of an "I" image are 32-bit
    integers; the float samples of an "F" image have no counterpart here. *)
Definition pixel : Type := list Z.

Record image : Type := mkImage {
  mode : pil_mode;
  width : Z;
  height : Z;
  pixels : list pixel
}.

Definition size (im : image) : Z * Z := (width im, height im).

Definition inside (w h x y : Z) : bool :=
  (0 <=? x) && (x <? w) && (0 <=? y) && (y <? h).

(** [Image.getpixel((x, y))]; PIL raises IndexError outside the image. *)
Definition getpixel (im : image) (x y : Z) : option pixel :=
  if inside (width im) (height im) x y
  then pixels im !! Z.to_nat (y * width im + x)
  else None.

(** The C core takes sizes and box coordinates as C ints: its argument
    parser refuses a Python int outside their range with OverflowError. *)
Definition INT_MAX : Z := 2147483647.

Definition c_int (z : Z) : bool := (- INT_MAX - 1 <=? z) && (z <=? INT_MAX).

(** *** Band operations *)

(** [im.getband(i)] of the C core: band [i] as an "L" image. *)
Definition getband (im : image) (i : nat) : image :=
  mkImage ModeL (width im) (height im)
    (map (fun p => [nth i p 0]) (pixels im)).

(** [Image.split]: a single-band image yields a copy of itself, any other
    one "L" image per band. *)
Definition split (im : image) : list image :=
  match getbands (mode im) with
  | [_] => [im]
  | bands => map (getband im) (seq 0 (length bands))
  end.

Fixpoint index_of (s : string) (l : list string) : option nat :=
  match l with
  | [] => None
  | x :: r => if String.eqb s x then Some 0%nat else option_map S (index_of s r)
  end.

(** [Image.getchannel(channel)] with a band name. *)
Definition getchannel (im : image) (channel : string) : result image :=
  match index_of channel (getbands (mode im)) with
  | Some i => Ok (getband im i)
  | None => Raise ValueError
  end.

(** [sequence[-1]]. *)
Definition last_item {A : Type} (l : list A) : option A := last l.

(** [ImageOps.invert]: the lookup table [255 - i] through [Image.point],
    for the modes [ImageOps._lut] accepts. *)
Definition invert_lut : list Z := map (fun i => 255 - Z.of_nat i) (seq 0 256).

Definition point (lut : list Z) (im : image) : image :=
  mkImage (mode im) (width im) (height im)
    (map (map (fun v => nth (Z.to_nat v) lut 0)) (pixels im)).

Definition ImageOps_invert (im : image) : result image :=
  match mode im with
  | Mode1 | ModeL | ModeRGB => Ok (point invert_lut im)
  | ModeP => Raise NotImplementedError
  | _ => Raise OSError
  end.

(** *** Pasting (Image.paste over the C core's ImagingPaste) *)

(** DIV255 of ImagingUtils.h: a rounded division by 255. *)
Definition div255 (a : Z) : Z :=
  let tmp := a + 128 in Z.shiftr (Z.shiftr tmp 8 + tmp) 8.

(** BLEND and PREBLEND of Paste.c. *)
Definition BLEND (mask in1 in2 : Z) : Z := div255 (in1 * (255 - mask) + in2 * mask).
Definition PREBLEND (mask in1 in2 : Z) : Z := (div255 (in1 * (255 - mask)) + in2) mod 256.

Fixpoint blend_samples (f : Z -> Z -> Z) (out inp : pixel) : pixel :=
  match out, inp with
  | o :: out', i :: inp' => f o i :: blend_samples f out' inp'
  | _, _ => out
  end.

(** How one pixel of the mask combines the old pixel with the pasted one;
    [None] for a mask mode ImagingPaste refuses. *)
Definition mask_pixel (mask_mode : pil_mode) (m out inp : pixel) : option pixel :=
  match mask_mode with
  | Mode1 => Some (if nth 0 m 0 =? 0 then out else inp)
  | ModeL => Some (blend_samples (BLEND (nth 0 m 0)) out inp)
  | ModeLA | ModeRGBA => Some (blend_samples (BLEND (List.last m 0)) out inp)
  | ModeRGBa => Some (blend_samples (PREBLEND (List.last m 0)) out inp)
  | _ => None
  end.

Definition mask_mode_ok (m : pil_mode) : bool :=
  match m with
  | Mode1 | ModeL | ModeLA | ModeRGBA | ModeRGBa => true
  | _ => false
  end.

(** The pixel of the destination at [(i, j)] after a paste of [src] (already
    in the destination's mode) with its upper left corner at [(ox, oy)]:
    the region is clipped to the destination, positions outside it keep the
    old pixel. *)
Definition pasted_pixel (src : image) (mask : option image) (ox oy : Z)
    (i j : Z) (old : pixel) : pixel :=
  match getpixel src (i - ox) (j - oy) with
  | None => old
  | Some inp =>
      match mask with
      | None => inp
      | Some m =>
          match getpixel m (i - ox) (j - oy) with
          | None => old
          | Some mp => default old (mask_pixel (mode m) mp old inp)
          end
      end
  end.

Definition paste_core (dst src : image) (mask : option image) (box : Z * Z)
    : result image :=
  let '(ox, oy) := box in
  let mask_fits :=
    match mask with
    | None => true
    | Some m => (width m =? width src) && (height m =? height src)
    end in
  let mask_known :=
    match mask with None => true | Some m => mask_mode_ok (mode m) end in
  if negb mask_fits then Raise ValueError
  else if negb mask_known then Raise ValueError
  else Ok (mkImage (mode dst) (width dst) (height dst)
             (imap (fun k old =>
                      pasted_pixel src mask ox oy
                        (Z.of_nat k mod width dst) (Z.of_nat k / width dst) old)
                   (pixels dst))).

(** ** The libraries behind the invocations

    What PIL's C core, the watermark codec and the safety checker compute
    is not part of this repository; the invocations only rely on the shape
    of their results.  Each is a field of [library]; the wrappers below
    add what PIL's Python layer and the C core's argument parser do around
    them. *)
Inductive Resampling : Type :=
| NEAREST | BOX | BILINEAR | HAMMING | BICUBIC | LANCZOS.

(** A uint8 numpy array of two or three axes, as OpenCV and the watermark
    codec take and return it: its shape [(rows, cols)] or
    [(rows, cols, channels)] and its elements in row-major order, those of
    a position together. *)
Record ndarray : Type := mkArray {
  rows : Z;
  cols : Z;
  channels : option nat;
  elements : list pixel
}.

Inductive blur_kernel : Type :=
| GaussianBlur (radius : Q)
| BoxBlur (radius : Q).

Record library : Type := mkLibrary {
  (** the pixels of [im.convert(mode)] for a mode other than [im]'s *)
  convert_pixels : pil_mode -> image -> result (list pixel);
  (** the pixels of [im.filter(kernel)] *)
  filter_pixels : blur_kernel -> image -> result (list pixel);
  (** the C core's storage for a new image of a size within a C int:
      MemoryError when the lines are too long or the memory is not there *)
  core_new : pil_mode -> Z * Z -> result unit;
  (** the pixels of the C core's resize to a size of at least 1 x 1 and
      within a C int: MemoryError as for [core_new] *)
  resample_pixels : Resampling -> image -> Z * Z -> result (list pixel);
  (** [ImageChops.multiply] *)
  chop_multiply : image -> image -> result image;
  (** [WatermarkEncoder.encode(bgr, 'dwtDct')] after [set_watermark]: the
      codec refuses an array of fewer than 256 * 256 positions *)
  watermark_encode : string -> ndarray -> result ndarray;
  (** loading the safety checker and its feature extractor from a path *)
  from_pretrained : string -> result unit;
  (** [has_nsfw_concept[0]] of the safety checker's call *)
  has_nsfw_concept : image -> result bool;
  (** [Image.open] of invokeai/assets/web/caution.png *)
  open_caution_png : result image
}.

Section PIL.

Variable lib : library.

(** [Image.new(mode, size, color)]: the Python layer refuses a negative
    size, the C core's parser a size outside a C int. *)
Definition Image_new (m : pil_mode) (sz : Z * Z) (color : pixel) : result image :=
  let '(w, h) := sz in
  if (w <? 0) || (h <? 0) then Raise ValueError
  else if negb (c_int w && c_int h) then Raise OverflowError
  else match core_new lib m (w, h) with
       | Ok _ => Ok (mkImage m w h (replicate (Z.to_nat (w * h)) color))
       | Raise e => Raise e
       end.

(** [Image.convert(mode)]: a copy when the mode is the image's own. *)
Definition convert (im : image) (m : pil_mode) : result image :=
  if pil_mode_eqb m (mode im) then Ok im
  else match convert_pixels lib m im with
       | Ok px => Ok (mkImage m (width im) (height im) px)
       | Raise e => Raise e
       end.

(** [Image.filter]. *)
Definition filter (im : image) (k : blur_kernel) : result image :=
  match mode im with
  | ModeP => Raise ValueError
  | _ => match filter_pixels lib k im with
         | Ok px => Ok (mkImage (mode im) (width im) (height im) px)
         | Raise e => Raise e
         end
  end.

(** [Image.resize(size, resample)]: a copy when the size is the image's
    own; the C core's parser refuses a size outside a C int, the core a
    size below 1 x 1; "1" and "P" images are resampled with NEAREST.  (The
    detour of "LA" and "RGBA" images through their premultiplied modes is
    part of [resample_pixels].) *)
Definition resample_filter (im : image) (resample : Resampling) : Resampling :=
  match mode im with Mode1 | ModeP => NEAREST | _ => resample end.

Definition resize (im : image) (sz : Z * Z) (resample : Resampling) : result image :=
  let '(w, h) := sz in
  if (w =? width im) && (h =? height im) then Ok im
  else if negb (c_int w && c_int h) then Raise OverflowError
  else if (w <? 1) || (h <? 1) then Raise ValueError
  else
    match resample_pixels lib (resample_filter im resample) im (w, h) with
    | Ok px => Ok (mkImage (mode im) w h px)
    | Raise e => Raise e
    end.

(** [Image.paste(im, box, mask)]: the source is converted to the
    destination's mode first, except that an "RGB" destination takes the
    first three stored bytes of an "LA", "RGBA" or "RGBa" source as they
    are ("LA" is stored as L, L, L, A). *)
Definition raw_rgb (im : image) : image :=
  mkImage ModeRGB (width im) (height im)
    (map (fun p => match mode im with
                   | ModeLA => [nth 0 p 0; nth 0 p 0; nth 0 p 0]
                   | _ => take 3 p
                   end) (pixels im)).

Definition paste_source (dst src : image) : result image :=
  if pil_mode_eqb (mode dst) (mode src) then Ok src
  else match mode dst, mode src with
       | ModeRGB, (ModeLA | ModeRGBA | ModeRGBa) => Ok (raw_rgb src)
       | _, _ => convert src (mode dst)
       end.

(** The box the C core is given: the upper left corner and, from the size
    of the pasted image, the lower right one, each as a C int. *)
Definition box_ok (box : Z * Z) (src : image) : bool :=
  let '(ox, oy) := box in
  c_int ox && c_int oy && c_int (ox + width src) && c_int (oy + height src).

Definition paste (dst src : image) (box : Z * Z) (mask : option image)
    : result image :=
  match paste_source dst src with
  | Ok src' =>
      if box_ok box src then paste_core dst src' mask box
      else Raise OverflowError
  | Raise e => Raise e
  end.

End PIL.

(** ** The interpreter state and the collaborators of [context.services] *)

Inductive ResourceOrigin : Type := INTERNAL | EXTERNAL.
Inductive ImageCategory : Type := GENERAL | MASK | CONTROL | USER | OTHER.

(** [CoreMetadata.dict()]. *)
Definition metadata_dict : Type := list (string * string).

(** An image name is an opaque identifier; here a number. *)
Record ImageField : Type := mkImageField { image_name : nat }.

(** Modelled from the spec: the image storage collaborator, which is not
    among the sources.  [create(image, origin, category, node_id,
    session_id, is_intermediate, metadata?)] files the image under a name
    no stored image has and answers with the name and the stored image's
    size; [get_pil_image(name)] hands out the image filed under the name.
    The service keeps the very image object it was given, so a change made
    in place to a fetched image would show in the store. *)
Record image_record : Type := mkRecord {
  record_name : nat;
  record_object : nat;
  record_origin : ResourceOrigin;
  record_category : ImageCategory;
  record_node_id : string;
  record_session_id : string;
  record_is_intermediate : bool;
  record_metadata : option metadata_dict
}.

Record image_dto : Type := mkDto {
  dto_image_name : nat;
  dto_width : Z;
  dto_height : Z
}.

(** The image objects of the interpreter (an object is named by its
    position), the records of the storage service in the order they were
    written, and the lines given to the logger. *)
Record state : Type := mkState {
  heap : list image;
  images : list image_record;
  logged : list string
}.

Definition M (A : Type) : Type := state -> result (A * state).

Definition ret {A : Type} (a : A) : M A := fun s => Ok (a, s).

Definition bind {A B : Type} (c : M A) (k : A -> M B) : M B :=
  fun s => match c s with
           | Ok (a, s') => k a s'
           | Raise e => Raise e
           end.

Definition raise {A : Type} (e : exn) : M A := fun _ => Raise e.

Definition lift {A : Type} (r : result A) : M A :=
  fun s => match r with Ok a => Ok (a, s) | Raise e => Raise e end.

Declare Scope monad_scope.
Delimit Scope monad_scope with monad.
Notation "'let*' x ':=' c 'in' k" := (bind c (fun x => k))
  (at level 10, x pattern, c at level 100, k at level 200) : monad_scope.
Notation "c ';;' k" := (bind c (fun _ => k))
  (at level 100, k at level 200, right associativity) : monad_scope.
Local Open Scope monad_scope.

(** A new image object. *)
Definition alloc (im : image) : M nat :=
  fun s => Ok (length (heap s), mkState (heap s ++ [im]) (images s) (logged s)).

(** Reading an object, and changing it in place. *)
Definition deref (o : nat) : M image :=
  fun s => match heap s !! o with
           | Some im => Ok (im, s)
           | None => Raise AttributeError
           end.

Definition assign (o : nat) (im : image) : M unit :=
  fun s => Ok (tt, mkState (<[o := im]> (heap s)) (images s) (logged s)).

Definition logger_info (line : string) : M unit :=
  fun s => Ok (tt, mkState (heap s) (images s) (logged s ++ [line])).

Definition find_record (name : nat) (rs : list image_record) : option image_record :=
  List.find (fun r => Nat.eqb (record_name r) name) rs.

(** Modelled from the spec: [get_pil_image(name) -> image] of the image
    storage collaborator. *)
Definition get_pil_image (name : nat) : M nat :=
  fun s => match find_record name (images s) with
           | Some r => Ok (record_object r, s)
           | None => Raise ImageFileNotFound
           end.

(** Modelled from the spec: the name of a new stored image, one above
    every name in use. *)
Definition new_name (rs : list image_record) : nat :=
  S (list_max (map record_name rs)).

(** Modelled from the spec: [create(image, origin, category, node_id,
    session_id, is_intermediate, metadata?) -> record{name, width, height}]
    of the image storage collaborator; the width and height are read back
    from the stored image. *)
Definition create (image : nat) (origin : ResourceOrigin)
    (category : ImageCategory) (node session : string) (intermediate : bool)
    (meta : option metadata_dict) : M image_dto :=
  fun s =>
    match heap s !! image with
    | None => Raise AttributeError
    | Some im =>
        let name := new_name (images s) in
        let r := mkRecord name image origin category node session intermediate meta in
        Ok (mkDto name (width im) (height im),
            mkState (heap s) (images s ++ [r]) (logged s))
    end.

(** The image a name stands for in a state. *)
Definition stored_image (s : state) (name : nat) : option image :=
  match find_record name (images s) with
  | Some r => heap s !! record_object r
  | None => None
  end.

(** ** The invocations *)

(** The fields every invocation has from BaseInvocation. *)
Record BaseInvocation : Type := mkBase {
  id : string;
  is_intermediate : bool
}.

Record InvocationContext : Type := mkContext {
  graph_execution_state_id : string;
  (** [context.services.configuration.models_path] *)
  models_path : string
}.

Inductive IMAGE_CHANNELS : Type := chan_A | chan_R | chan_G | chan_B.

Definition channel_name (c : IMAGE_CHANNELS) : string :=
  match c with
  | chan_A => "A" | chan_R => "R" | chan_G => "G" | chan_B => "B"
  end%string.

Inductive IMAGE_MODES : Type :=
| to_L | to_RGB | to_RGBA | to_CMYK | to_YCbCr | to_LAB | to_HSV | to_I | to_F.

Definition image_mode (m : IMAGE_MODES) : pil_mode :=
  match m with
  | to_L => ModeL | to_RGB => ModeRGB | to_RGBA => ModeRGBA
  | to_CMYK => ModeCMYK | to_YCbCr => ModeYCbCr | to_LAB => ModeLAB
  | to_HSV => ModeHSV | to_I => ModeI | to_F => ModeF
  end.

Inductive PIL_RESAMPLING_MODES : Type :=
| nearest | box | bilinear | hamming | bicubic | lanczos.

Definition PIL_RESAMPLING_MAP (m : PIL_RESAMPLING_MODES) : Resampling :=
  match m with
  | nearest => NEAREST | box => BOX | bilinear => BILINEAR
  | hamming => HAMMING | bicubic => BICUBIC | lanczos => LANCZOS
  end.

Inductive blur_type : Type := gaussian | box_blur.

(** One constructor per invocation class, with its input fields in the
    order of the class body. *)
Inductive invocation : Type :=
| LoadImageInvocation (self : BaseInvocation) (image : option ImageField)
| ShowImageInvocation (self : BaseInvocation) (image : option ImageField)
| ImageCropInvocation (self : BaseInvocation) (image : option ImageField)
    (x y width height : Z)
| ImagePasteInvocation (self : BaseInvocation)
    (base_image image mask : option ImageField) (x y : Z)
| MaskFromAlphaInvocation (self : BaseInvocation) (image : option ImageField)
    (invert : bool)
| ImageMultiplyInvocation (self : BaseInvocation)
    (image1 image2 : option ImageField)
| ImageChannelInvocation (self : BaseInvocation) (image : option ImageField)
    (channel : IMAGE_CHANNELS)
| ImageConvertInvocation (self : BaseInvocation) (image : option ImageField)
    (mode : IMAGE_MODES)
| ImageBlurInvocation (self : BaseInvocation) (image : option ImageField)
    (radius : Q) (blur : blur_type)
| ImageResizeInvocation (self : BaseInvocation) (image : option ImageField)
    (width height : option Z) (resample_mode : PIL_RESAMPLING_MODES)
| ImageScaleInvocation (self : BaseInvocation) (image : option ImageField)
    (scale_factor : option Float.t) (resample_mode : PIL_RESAMPLING_MODES)
| ImageLerpInvocation (self : BaseInvocation) (image : option ImageField)
    (min max : Z)
| ImageInverseLerpInvocation (self : BaseInvocation) (image : option ImageField)
    (min max : Z)
| ImageNSFWBlurInvocation (self : BaseInvocation) (image : option ImageField)
    (enabled : bool) (metadata : option metadata_dict)
| ImageWatermarkInvocation (self : BaseInvocation) (image : option ImageField)
    (text : string) (enabled : bool) (metadata : option metadata_dict).

Inductive output : Type :=
| ImageOutput (image : ImageField) (width height : Z)
| MaskOutput (mask : ImageField) (width height : Z).

Definition output_field (o : output) : ImageField :=
  match o with ImageOutput f _ _ | MaskOutput f _ _ => f end.
Definition output_width (o : output) : Z :=
  match o with ImageOutput _ w _ | MaskOutput _ w _ => w end.
Definition output_height (o : output) : Z :=
  match o with ImageOutput _ _ h | MaskOutput _ _ h => h end.

(** [self.image.image_name]: an unset field is None. *)
Definition field_image_name (f : option ImageField) : M nat :=
  match f with
  | Some i => ret (image_name i)
  | None => raise AttributeError
  end.

(** *** numpy arrays of an image *)

(** [numpy.asarray(image)]: one number per sample (a "1" image reads as
    booleans); the array has two axes for a single-band image and three
    otherwise. *)
Definition asarray (im : image) : list pixel :=
  match mode im with
  | Mode1 => map (map (fun v => if v =? 0 then 0 else 1)) (pixels im)
  | _ => pixels im
  end.

Definition array_ndim (im : image) : nat :=
  match getbands (mode im) with [_] => 2 | _ => 3 end.

(** The length of the array's last axis, when it has three. *)
Definition array_channels (im : image) : option nat :=
  match getbands (mode im) with
  | [_] => None
  | bands => Some (length bands)
  end.

(** [Image.fromarray] of a uint8 array: the mode follows the shape. *)
Definition fromarray (channels : option nat) (w h : Z) (a : list pixel) : result image :=
  match channels with
  | None => Ok (mkImage ModeL w h a)
  | Some 2%nat => Ok (mkImage ModeLA w h a)
  | Some 3%nat => Ok (mkImage ModeRGB w h a)
  | Some 4%nat => Ok (mkImage ModeRGBA w h a)
  | Some _ => Raise TypeError
  end.

Definition lerp_image (min max : Z) (im : image) : result image :=
  fromarray (array_channels im) (width im) (height im)
    (map (map (lerp_pixel min max)) (asarray im)).

Definition ilerp_image (min max : Z) (im : image) : result image :=
  fromarray (array_channels im) (width im) (height im)
    (map (map (ilerp_pixel min max)) (asarray im)).

(** [numpy.array(image)]: an image of height [h] and width [w] reads as an
    array of [h] rows and [w] columns. *)
Definition numpy_array (im : image) : ndarray :=
  mkArray (height im) (width im) (array_channels im) (asarray im).

(** [Image.fromarray] takes the size and the mode from the array's shape. *)
Definition Image_fromarray (a : ndarray) : result image :=
  fromarray (channels a) (cols a) (rows a) (elements a).

(** [int(x)] of a Python float. *)
Definition py_int (x : Float.t) : result Z :=
  match x with
  | Float.Fin q => Ok (Float.trunc q)
  | Float.Inf _ => Raise OverflowError
  | Float.NaN => Raise ValueError
  end.

(** [float(n)], as a product converts its int operand: the nearest float;
    OverflowError for an int too large for one. *)
Definition float_of_int (n : Z) : result Float.t :=
  match Float.round64 (inject_Z n) with
  | Float.Inf _ => Raise OverflowError
  | x => Ok x
  end.

(** [n * x] for an int and a float: the int is converted, the product is
    the binary64 one. *)
Definition int_times_float (n : Z) (x : Float.t) : result Float.t :=
  match float_of_int n with
  | Ok a => Ok (Float.mul64 a x)
  | Raise e => Raise e
  end.

(** [cv2.cvtColor] with COLOR_RGB2BGR or COLOR_BGR2RGB: the first three
    channels in reverse order, of an array that is not empty and has three
    or four channels. *)
Definition cvtColor_swap (a : ndarray) : result ndarray :=
  if (rows a <? 1) || (cols a <? 1) then Raise cv2_error
  else match channels a with
       | Some 3%nat | Some 4%nat =>
           Ok (mkArray (rows a) (cols a) (Some 3%nat)
                 (map (fun p => rev (take 3 p)) (elements a)))
       | _ => Raise cv2_error
       end.

Section Invocations.

Variable lib : library.
Variable context : InvocationContext.

(** A PIL call that returns a new image of one or two images it only reads. *)
Definition call1 (f : image -> result image) (o : nat) : M nat :=
  let* im := deref o in
  let* r := lift (f im) in
  alloc r.

Definition call2 (f : image -> image -> result image) (o1 o2 : nat) : M nat :=
  let* im1 := deref o1 in
  let* im2 := deref o2 in
  let* r := lift (f im1 im2) in
  alloc r.

(** [dst.paste(src, box, mask)]: the one PIL call here that changes its
    receiver in place. *)
Definition paste_in_place (dst src : nat) (box : Z * Z) (mask : option nat) : M unit :=
  let* d := deref dst in
  let* s := deref src in
  let* m := match mask with
            | None => ret None
            | Some o => let* mi := deref o in ret (Some mi)
            end in
  let* r := lift (paste lib d s box m) in
  assign dst r.

(** The tail every deriving invocation shares: file the image, answer with
    the new name and the stored size. *)
Definition create_general (self : BaseInvocation) (image : nat)
    (category : ImageCategory) (meta : option metadata_dict) : M image_dto :=
  create image INTERNAL category (id self)
    (graph_execution_state_id context) (is_intermediate self) meta.

Definition image_output (image_dto : image_dto) : output :=
  ImageOutput (mkImageField (dto_image_name image_dto))
    (dto_width image_dto) (dto_height image_dto).

Definition LoadImage_invoke (self : BaseInvocation) (image : option ImageField)
    : M output :=
  let* name := field_image_name image in
  let* image := get_pil_image name in
  let* im := deref image in
  ret (ImageOutput (mkImageField name) (width im) (height im)).

(** [image.show()] opens a viewer and changes nothing here. *)
Definition ShowImage_invoke (self : BaseInvocation) (image : option ImageField)
    : M output :=
  let* name := field_image_name image in
  let* image := get_pil_image name in
  let* im := deref image in
  ret (ImageOutput (mkImageField name) (width im) (height im)).

Definition ImageCrop_invoke (self : BaseInvocation) (image : option ImageField)
    (x y width height : Z) : M output :=
  let* name := field_image_name image in
  let* image := get_pil_image name in
  let* image_crop :=
    (let* im := lift (Image_new lib ModeRGBA (width, height) [0; 0; 0; 0]) in alloc im) in
  paste_in_place image_crop image (- x, - y) None ;;
  let* image_dto := create_general self image_crop GENERAL None in
  ret (image_output image_dto).

Definition ImagePaste_invoke (self : BaseInvocation)
    (base_image image mask : option ImageField) (x y : Z) : M output :=
  let* base_name := field_image_name base_image in
  let* base_image := get_pil_image base_name in
  let* name := field_image_name image in
  let* image := get_pil_image name in
  let* mask :=
    match mask with
    | None => ret None
    | Some f =>
        let* m := get_pil_image (image_name f) in
        let* inverted := call1 ImageOps_invert m in
        ret (Some inverted)
    end in
  let* b := deref base_image in
  let* i := deref image in
  let min_x := Z.min 0 x in
  let min_y := Z.min 0 y in
  let max_x := Z.max (width b) (width i + x) in
  let max_y := Z.max (height b) (height i + y) in
  let* new_image :=
    (let* im := lift (Image_new lib ModeRGBA (max_x - min_x, max_y - min_y) [0; 0; 0; 0]) in
     alloc im) in
  paste_in_place new_image base_image (Z.abs min_x, Z.abs min_y) None ;;
  paste_in_place new_image image (Z.max 0 x, Z.max 0 y) mask ;;
  let* image_dto := create_general self new_image GENERAL None in
  ret (image_output image_dto).

(** [image.split()[-1]]. *)
Definition last_band (im : image) : result image :=
  match last_item (split im) with
  | Some b => Ok b
  | None => Raise AttributeError
  end.

Definition MaskFromAlpha_invoke (self : BaseInvocation) (image : option ImageField)
    (invert : bool) : M output :=
  let* name := field_image_name image in
  let* image := get_pil_image name in
  let* image_mask := call1 last_band image in
  let* image_mask :=
    if invert then call1 ImageOps_invert image_mask else ret image_mask in
  let* image_dto := create_general self image_mask MASK None in
  ret (MaskOutput (mkImageField (dto_image_name image_dto))
         (dto_width image_dto) (dto_height image_dto)).

Definition ImageMultiply_invoke (self : BaseInvocation)
    (image1 image2 : option ImageField) : M output :=
  let* name1 := field_image_name image1 in
  let* image1 := get_pil_image name1 in
  let* name2 := field_image_name image2 in
  let* image2 := get_pil_image name2 in
  let* multiply_image := call2 (chop_multiply lib) image1 image2 in
  let* image_dto := create_general self multiply_image GENERAL None in
  ret (image_output image_dto).

Definition ImageChannel_invoke (self : BaseInvocation) (image : option ImageField)
    (channel : IMAGE_CHANNELS) : M output :=
  let* name := field_image_name image in
  let* image := get_pil_image name in
  let* channel_image := call1 (fun im => getchannel im (channel_name channel)) image in
  let* image_dto := create_general self channel_image GENERAL None in
  ret (image_output image_dto).

Definition ImageConvert_invoke (self : BaseInvocation) (image : option ImageField)
    (mode : IMAGE_MODES) : M output :=
  let* name := field_image_name image in
  let* image := get_pil_image name in
  let* converted_image := call1 (fun im => convert lib im (image_mode mode)) image in
  let* image_dto := create_general self converted_image GENERAL None in
  ret (image_output image_dto).

Definition ImageBlur_invoke (self : BaseInvocation) (image : option ImageField)
    (radius : Q) (blur_type : blur_type) : M output :=
  let* name := field_image_name image in
  let* image := get_pil_image name in
  let blur :=
    match blur_type with
    | gaussian => GaussianBlur radius
    | box_blur => BoxBlur radius
    end in
  let* blur_image := call1 (fun im => filter lib im blur) image in
  let* image_dto := create_general self blur_image GENERAL None in
  ret (image_output image_dto).

(** [self.width] and [self.height] are [Union[int, None]]: PIL cannot make
    a size of None. *)
Definition requested_size (width height : option Z) : result (Z * Z) :=
  match width, height with
  | Some w, Some h => Ok (w, h)
  | _, _ => Raise TypeError
  end.

Definition ImageResize_invoke (self : BaseInvocation) (image : option ImageField)
    (width height : option Z) (resample_mode : PIL_RESAMPLING_MODES) : M output :=
  let* name := field_image_name image in
  let* image := get_pil_image name in
  let resample_mode := PIL_RESAMPLING_MAP resample_mode in
  let* resize_image :=
    call1 (fun im =>
             match requested_size width height with
             | Ok sz => resize lib im sz resample_mode
             | Raise e => Raise e
             end) image in
  let* image_dto := create_general self resize_image GENERAL None in
  ret (image_output image_dto).

(** [int(image.width * self.scale_factor)]; the factor is an
    [Optional[float]]. *)
Definition scaled (n : Z) (scale_factor : option Float.t) : result Z :=
  match scale_factor with
  | Some f =>
      match int_times_float n f with
      | Ok p => py_int p
      | Raise e => Raise e
      end
  | None => Raise TypeError
  end.

Definition ImageScale_invoke (self : BaseInvocation) (image : option ImageField)
    (scale_factor : option Float.t) (resample_mode : PIL_RESAMPLING_MODES) : M output :=
  let* name := field_image_name image in
  let* image := get_pil_image name in
  let resample_mode := PIL_RESAMPLING_MAP resample_mode in
  let* im := deref image in
  let* width := lift (scaled (width im) scale_factor) in
  let* height := lift (scaled (height im) scale_factor) in
  let* resize_image := call1 (fun im => resize lib im (width, height) resample_mode) image in
  let* image_dto := create_general self resize_image GENERAL None in
  ret (image_output image_dto).

Definition ImageLerp_invoke (self : BaseInvocation) (image : option ImageField)
    (min max : Z) : M output :=
  let* name := field_image_name image in
  let* image := get_pil_image name in
  let* lerp_image := call1 (lerp_image min max) image in
  let* image_dto := create_general self lerp_image GENERAL None in
  ret (image_output image_dto).

Definition ImageInverseLerp_invoke (self : BaseInvocation) (image : option ImageField)
    (min max : Z) : M output :=
  let* name := field_image_name image in
  let* image := get_pil_image name in
  let* ilerp_image := call1 (ilerp_image min max) image in
  let* image_dto := create_general self ilerp_image GENERAL None in
  ret (image_output image_dto).

(** [_get_caution_img]: the asset at half its size ([resize] with its
    default filter, BICUBIC). *)
Definition _get_caution_img : M nat :=
  let* caution := (let* im := lift (open_caution_png lib) in alloc im) in
  call1 (fun c => resize lib c (width c / 2, height c / 2) BICUBIC) caution.

(** [x_image[None].transpose(0, 3, 1, 2)] needs an array of three axes. *)
Definition transpose_0312 (im : image) : result unit :=
  match array_ndim im with
  | 3%nat => Ok tt
  | _ => Raise ValueError
  end.

Definition nsfw_line (b : bool) : string :=
  if b then "NSFW scan result: True" else "NSFW scan result: False".

Definition ImageNSFWBlur_invoke (self : BaseInvocation) (image : option ImageField)
    (enabled : bool) (metadata : option metadata_dict) : M output :=
  let* name := field_image_name image in
  let* image := get_pil_image name in
  let* image :=
    if enabled then
      logger_info "Running NSFW checker" ;;
      lift (from_pretrained lib (models_path context)) ;;
      let* im := deref image in
      lift (transpose_0312 im) ;;
      let* has_nsfw := lift (has_nsfw_concept lib im) in
      logger_info (nsfw_line has_nsfw) ;;
      if has_nsfw then
        let* blurry_image := call1 (fun im => filter lib im (GaussianBlur 32)) image in
        let* caution := _get_caution_img in
        paste_in_place blurry_image caution (0, 0) (Some caution) ;;
        ret blurry_image
      else ret image
    else ret image in
  let* image_dto := create_general self image GENERAL metadata in
  ret (image_output image_dto).

(** [bgr = cv2.cvtColor(numpy.array(image.convert("RGB")), COLOR_RGB2BGR)],
    [bgr_encoded = encoder.encode(bgr, 'dwtDct')] and
    [Image.fromarray(cv2.cvtColor(bgr_encoded, COLOR_BGR2RGB)).convert("RGBA")]:
    the new image has the shape of the array the codec returned. *)
Definition watermarked (text : string) (im : image) : result image :=
  match convert lib im ModeRGB with
  | Raise e => Raise e
  | Ok rgb =>
      match cvtColor_swap (numpy_array rgb) with
      | Raise e => Raise e
      | Ok bgr =>
          match watermark_encode lib text bgr with
          | Raise e => Raise e
          | Ok bgr_encoded =>
              match cvtColor_swap bgr_encoded with
              | Raise e => Raise e
              | Ok rgb_encoded =>
                  match Image_fromarray rgb_encoded with
                  | Raise e => Raise e
                  | Ok new_image => convert lib new_image ModeRGBA
                  end
              end
          end
      end
  end.

Definition ImageWatermark_invoke (self : BaseInvocation) (image : option ImageField)
    (text : string) (enabled : bool) (metadata : option metadata_dict) : M output :=
  let* name := field_image_name image in
  let* image := get_pil_image name in
  let* image :=
    if enabled then
      logger_info "Running invisible watermarker" ;;
      call1 (watermarked text) image
    else ret image in
  let* image_dto := create_general self image GENERAL metadata in
  ret (image_output image_dto).

Definition invoke (inv : invocation) : M output :=
  match inv with
  | LoadImageInvocation self image => LoadImage_invoke self image
  | ShowImageInvocation self image => ShowImage_invoke self image
  | ImageCropInvocation self image x y w h => ImageCrop_invoke self image x y w h
  | ImagePasteInvocation self b i m x y => ImagePaste_invoke self b i m x y
  | MaskFromAlphaInvocation self image inv => MaskFromAlpha_invoke self image inv
  | ImageMultiplyInvocation self i1 i2 => ImageMultiply_invoke self i1 i2
  | ImageChannelInvocation self image c => ImageChannel_invoke self image c
  | ImageConvertInvocation self image m => ImageConvert_invoke self image m
  | ImageBlurInvocation self image r b => ImageBlur_invoke self image r b
  | ImageResizeInvocation self image w h r => ImageResize_invoke self image w h r
  | ImageScaleInvocation self image f r => ImageScale_invoke self image f r
  | ImageLerpInvocation self image mn mx => ImageLerp_invoke self image mn mx
  | ImageInverseLerpInvocation self image mn mx => ImageInverseLerp_invoke self image mn mx
  | ImageNSFWBlurInvocation self image e m => ImageNSFWBlur_invoke self image e m
  | ImageWatermarkInvocation self image t e m => ImageWatermark_invoke self image t e m
  end.

End Invocations.

(** ** A library instance and a store to run the invocations on

    The conversions among "L", "RGB" and "RGBA" are PIL's; resampling is
    nearest neighbour; a blur is only given where it cannot depend on the
    kernel, on an image of a single colour, which it leaves as it is; the
    C core has storage for lines of up to [INT_MAX / 4 - 1] pixels; the
    watermark codec refuses what the real one refuses and embeds
    nothing. *)
Definition example_convert (m : pil_mode) (im : image) : result (list pixel) :=
  match mode im, m with
  | ModeL, ModeRGBA =>
      Ok (map (fun p => [nth 0 p 0; nth 0 p 0; nth 0 p 0; 255]) (pixels im))
  | ModeL, ModeRGB =>
      Ok (map (fun p => [nth 0 p 0; nth 0 p 0; nth 0 p 0]) (pixels im))
  | ModeRGB, ModeRGBA => Ok (map (fun p => p ++ [255]) (pixels im))
  | ModeRGBA, ModeRGB => Ok (map (take 3) (pixels im))
  | _, _ => Raise ValueError
  end.

Definition pixel_eqb (p q : pixel) : bool :=
  (length p =? length q)%nat && forallb (fun '(a, b) => a =? b) (combine p q).

Definition example_filter (k : blur_kernel) (im : image) : result (list pixel) :=
  match pixels im with
  | [] => Ok []
  | p :: rest =>
      if forallb (pixel_eqb p) rest then Ok (pixels im)
      else Raise NotImplementedError
  end.

Definition nearest_pixels (im : image) (sz : Z * Z) : list pixel :=
  let '(w, h) := sz in
  map (fun k =>
         let i := Z.of_nat k mod w in
         let j := Z.of_nat k / w in
         default [] (getpixel im (((2 * i + 1) * width im) / (2 * w))
                                 (((2 * j + 1) * height im) / (2 * h))))
      (seq 0 (Z.to_nat (w * h))).

Definition example_multiply (a b : image) : result image :=
  if pil_mode_eqb (mode a) (mode b)
  then Ok (mkImage (mode a) (Z.min (width a) (width b)) (Z.min (height a) (height b))
             (map (fun k =>
                     let i := Z.of_nat k mod Z.min (width a) (width b) in
                     let j := Z.of_nat k / Z.min (width a) (width b) in
                     match getpixel a i j, getpixel b i j with
                     | Some p, Some q => blend_samples (fun u v => u * v / 255) p q
                     | _, _ => []
                     end)
                  (seq 0 (Z.to_nat (Z.min (width a) (width b) * Z.min (height a) (height b))))))
  else Raise ValueError.

(** The caution sign of the examples: two by two, opaque amber. *)
Definition amber : pixel := [255; 191; 0; 255].

Definition example_caution : image :=
  mkImage ModeRGBA 2 2 [amber; amber; amber; amber].

Definition example_core_new (m : pil_mode) (sz : Z * Z) : result unit :=
  if INT_MAX / 4 - 1 <? fst sz then Raise MemoryError else Ok tt.

Definition example_encode (text : string) (bgr : ndarray) : result ndarray :=
  if rows bgr * cols bgr <? 256 * 256 then Raise RuntimeError else Ok bgr.

Definition example_library : library :=
  mkLibrary example_convert example_filter example_core_new
    (fun _ im sz => Ok (nearest_pixels im sz))
    example_multiply example_encode (fun _ => Ok tt) (fun _ => Ok true)
    (Ok example_caution).

(** The same library with a safety checker that finds nothing. *)
Definition calm_library : library :=
  mkLibrary example_convert example_filter example_core_new
    (fun _ im sz => Ok (nearest_pixels im sz))
    example_multiply example_encode (fun _ => Ok tt) (fun _ => Ok false)
    (Ok example_caution).

Definition example_context : InvocationContext := mkContext "session-1" "models".

Definition example_self : BaseInvocation := mkBase "node-1" true.

(** A store holding one image, under the name 7. *)
Definition example_state (im : image) : state :=
  mkState [im] [mkRecord 7 0 EXTERNAL USER "upload" "session-0" false None] [].

Definition example_field : option ImageField := Some (mkImageField 7).

Definition gray_2x2 : image := mkImage ModeL 2 2 [[10]; [20]; [30]; [40]].
Definition rgb_2x1 : image := mkImage ModeRGB 2 1 [[1; 2; 3]; [4; 5; 6]].
Definition rgba_1x1 (p : pixel) : image := mkImage ModeRGBA 1 1 [p].

(** ** What a deriving invocation may do to the state *)

Definition derives (inv : invocation) : bool :=
  match inv with
  | LoadImageInvocation _ _ | ShowImageInvocation _ _ => false
  | _ => true
  end.

Definition base_fields (inv : invocation) : BaseInvocation :=
  match inv with
  | LoadImageInvocation self _ | ShowImageInvocation self _
  | ImageCropInvocation self _ _ _ _ _ | ImagePasteInvocation self _ _ _ _ _
  | MaskFromAlphaInvocation self _ _ | ImageMultiplyInvocation self _ _
  | ImageChannelInvocation self _ _ | ImageConvertInvocation self _ _
  | ImageBlurInvocation self _ _ _ | ImageResizeInvocation self _ _ _ _
  | ImageScaleInvocation self _ _ _ | ImageLerpInvocation self _ _ _
  | ImageInverseLerpInvocation self _ _ _ | ImageNSFWBlurInvocation self _ _ _
  | ImageWatermarkInvocation self _ _ _ _ => self
  end.

Definition unchanged (s s' : state) : Prop :=
  forall o im, heap s !! o = Some im -> heap s' !! o = Some im.

Definition quiet (s s' : state) : Prop :=
  images s' = images s /\ unchanged s s'.

Definition wrote_once (self : BaseInvocation) (s : state) (out : output) (s' : state) : Prop :=
  exists r,
    images s' = images s ++ [r] /\
    record_is_intermediate r = is_intermediate self /\
    image_name (output_field out) = record_name r /\
    ~ In (record_name r) (map record_name (images s)) /\
    unchanged s s'.


(** Relative to the state [s0] an invocation starts in: an object is fresh
    when it did not exist then; a computation reads when it leaves the
    records and every object of [s0] as they were; it writes when it ends
    with the one new record. *)
Definition fresh (s0 : state) (o : nat) : Prop := heap s0 !! o = None.

Definition reads {A : Type} (s0 : state) (c : M A) (post : A -> Prop) : Prop :=
  forall s a s', quiet s0 s -> c s = Ok (a, s') -> quiet s0 s' /\ post a.

Definition writes (s0 : state) (self : BaseInvocation) (c : M output) : Prop :=
  forall s out s', quiet s0 s -> c s = Ok (out, s') -> wrote_once self s0 out s'.

(** The mask MaskFromAlphaInvocation stores, from the band it extracted. *)
Definition inverted_or_not (invert : bool) (m : image) : result image :=
  if invert then ImageOps_invert m else Ok m.

(** The shape most [invoke] methods have: fetch one image, store one
    function [f] of it.  [after_create] is the state such a call ends in. *)
Definition derived_from (context : InvocationContext) (self : BaseInvocation)
    (f : image -> result image) (category : ImageCategory)
    (meta : option metadata_dict) (field : option ImageField) : M output :=
  let* name := field_image_name field in
  let* image := get_pil_image name in
  let* new_image := call1 f image in
  let* image_dto := create_general context self new_image category meta in
  ret (image_output image_dto).

Definition after_create (context : InvocationContext) (self : BaseInvocation)
    (category : ImageCategory) (meta : option metadata_dict)
    (s : state) (res : image) : state :=
  mkState (heap s ++ [res])
    (images s ++ [mkRecord (new_name (images s)) (length (heap s)) INTERNAL category
                    (id self) (graph_execution_state_id context)
                    (is_intermediate self) meta])
    (logged s).

Definition gray_10x10 : image := mkImage ModeL 10 10 (replicate 100 [128]).
Definition black_1x1 : image := mkImage ModeL 1 1 [[0]].
Definition gray_256x256 : image :=
  mkImage ModeL 256 256 (replicate (Z.to_nat (256 * 256)) [128]).

(** The nearest binary64 number to 0.7. *)
Definition seven_tenths : Q := 3152519739159347 # 4503599627370496.

(** The 256 values of an 8-bit sample. *)
Definition samples : list Z := map Z.of_nat (seq 0 256).

(** An image of 8-bit samples. *)
Definition samples_ok (im : image) : Prop :=
  Forall (Forall (fun v => 0 <= v <= 255)) (pixels im).

(** ** What the extra properties speak of *)

(** The category and the metadata an invocation hands to [create]. *)
Definition category_of (inv : invocation) : ImageCategory :=
  match inv with
  | MaskFromAlphaInvocation _ _ _ => MASK
  | _ => GENERAL
  end.

Definition metadata_of (inv : invocation) : option metadata_dict :=
  match inv with
  | ImageNSFWBlurInvocation _ _ _ m | ImageWatermarkInvocation _ _ _ _ m => m
  | _ => None
  end.

Definition is_mask_output (o : output) : bool :=
  match o with MaskOutput _ _ _ => true | ImageOutput _ _ _ => false end.

(** The one record a deriving invocation leaves, in full, and what its
    output says of it. *)
Definition filed (context : InvocationContext) (self : BaseInvocation)
    (category : ImageCategory) (meta : option metadata_dict)
    (s : state) (out : output) (s' : state) : Prop :=
  exists obj im,
    images s' = images s ++
      [mkRecord (new_name (images s)) obj INTERNAL category (id self)
         (graph_execution_state_id context) (is_intermediate self) meta] /\
    heap s' !! obj = Some im /\
    output_field out = mkImageField (new_name (images s)) /\
    output_width out = width im /\ output_height out = height im /\
    is_mask_output out = match category with MASK => true | _ => false end.

Definition files (s0 : state) (context : InvocationContext) (self : BaseInvocation)
    (category : ImageCategory) (meta : option metadata_dict) (c : M output) : Prop :=
  forall s out s', quiet s0 s -> c s = Ok (out, s') ->
    filed context self category meta s0 out s'.

(** The image fields of an invocation, in the order [invoke] reads them. *)
Definition input_fields (inv : invocation) : list (option ImageField) :=
  match inv with
  | LoadImageInvocation _ i | ShowImageInvocation _ i
  | ImageCropInvocation _ i _ _ _ _ | MaskFromAlphaInvocation _ i _
  | ImageChannelInvocation _ i _ | ImageConvertInvocation _ i _
  | ImageBlurInvocation _ i _ _ | ImageResizeInvocation _ i _ _ _
  | ImageScaleInvocation _ i _ _ | ImageLerpInvocation _ i _ _
  | ImageInverseLerpInvocation _ i _ _ | ImageNSFWBlurInvocation _ i _ _
  | ImageWatermarkInvocation _ i _ _ _ => [i]
  | ImagePasteInvocation _ b i m _ _ => [b; i]
  | ImageMultiplyInvocation _ i1 i2 => [i1; i2]
  end.

(** An "RGBA" image whose every pixel has four 8-bit samples. *)
Definition rgba_ok (im : image) : Prop :=
  Forall (fun p => length p = 4%nat /\ Forall (fun v => 0 <= v <= 255) p) (pixels im).

(** What lies under the pasted image at [(u, v)] of the canvas: the base,
    or nothing. *)
Definition under (b' : image) (x y u v : Z) : pixel :=
  default [0; 0; 0; 0] (getpixel b' (u - Z.abs (Z.min 0 x)) (v - Z.abs (Z.min 0 y))).

Definition white_2x2 : image := mkImage ModeL 2 2 [[255]; [255]; [0]; [0]].

(** A store of two images: [im] under the name 7, [m] under the name 8. *)
Definition example_state2 (im m : image) : state :=
  mkState [im; m]
    [mkRecord 7 0 EXTERNAL USER "upload" "session-0" false None;
     mkRecord 8 1 EXTERNAL USER "upload" "session-0" false None] [].

(** The mode [Image.fromarray] gives the uint8 array of an image of mode
    [m]: it goes by the number of bands alone. *)
Definition array_mode (m : pil_mode) : pil_mode :=
  match length (getbands m) with
  | 1%nat => ModeL
  | 2%nat => ModeLA
  | 3%nat => ModeRGB
  | _ => ModeRGBA
  end.

Definition cmyk_1x1 : image := mkImage ModeCMYK 1 1 [[0; 0; 0; 255]].

(** The inverse lerp of a sample as a function of what the code divides:
    the clamped difference [n = max(v - min, 0)] and [d = max - min]. *)
Definition ilerp_from (n d : Z) : Float.t :=
  Float.mul f32
    (Float.minimum (Float.div f32 (Float.of_Z n) (Float.of_Z d)) (Float.of_Z 1))
    (Float.of_Z 255).

Definition float_eqb (x y : Float.t) : bool :=
  match x, y with
  | Float.Fin a, Float.Fin b => (Qnum a =? Qnum b) && Pos.eqb (Qden a) (Qden b)
  | Float.Inf s, Float.Inf s' => Bool.eqb s s'
  | Float.NaN, Float.NaN => true
  | _, _ => false
  end.

(** What is checked of [ilerp_from n d] for each [0 <= n < d <= 255]: the
    value is finite, not negative, and truncates to the integer quotient
    of [255 * n] by [d]. *)
Definition ilerp_checked (n d : Z) : bool :=
  match ilerp_from n d with
  | Float.Fin q => (0 <=? Qnum q) && (Float.trunc q =? 255 * n / d)
  | _ => false
  end.

(** * Properties *)

(** ** Interpolation *)

Lemma samples_spec (v : Z) : 0 <= v <= 255 -> In v samples.
Proof.
  intros Hv. unfold samples. apply in_map_iff.
  exists (Z.to_nat v). split; [lia|]. apply in_seq. lia.
Qed.

Lemma forall_samples (f : Z -> bool) :
  forallb f samples = true -> forall v, 0 <= v <= 255 -> f v = true.
Proof.
  intros Hall v Hv. rewrite forallb_forall in Hall.
  apply Hall, samples_spec, Hv.
Qed.

Lemma ilerp_numerator_finite (mn v : Z) : exists q, ilerp_numerator mn v = Float.Fin q.
Proof.
  unfold ilerp_numerator, Float.sub, Float.of_Z. cbn [Float.opp Float.add].
  unfold Float.maximum.
  destruct (Float.ltb _ _); eauto.
Qed.

(** C2, as the code has it: the inverse lerp node divides every sample by
    [float(max - min)] with no guard, so the division is by zero exactly
    when [min = max]; numpy then reports a divide warning for the sample,
    and for any other pair of bounds it reports none. *)
Theorem ilerp_divides_by_zero_iff (mn mx v : Z) :
  ilerp_warnings mn mx v <> [] <-> mn = mx.
Proof.
  unfold ilerp_warnings, ilerp_divisor, Float.of_Z.
  destruct (ilerp_numerator_finite mn v) as [q ->].
  cbn [divide_warnings]. unfold Float.is_zero at 1. cbn [Qnum inject_Z].
  destruct (Z.eqb_spec (mx - mn) 0) as [E|E].
  - split; [lia|]. intros _. destruct (Float.is_zero q); discriminate.
  - split; [intros H; now contradiction H | lia].
Qed.

(** C2, the claim as stated fails: with [min = max = 0] the sample 10 is
    divided by [float(0)], which numpy reports, and the sample 0 is the
    invalid [0 / 0]. *)
Lemma ilerp_unguarded :
  ilerp_divisor 0 0 = Float.of_Z 0 /\
  ilerp_warnings 0 0 10 = [DivideByZero] /\
  ilerp_warnings 0 0 0 = [InvalidValue] /\
  ilerp_value 0 0 0 = Float.NaN.
Proof.
  split; [vm_compute; reflexivity|].
  split; [vm_compute; reflexivity|].
  split; vm_compute; reflexivity.
Qed.

(** C1, on the code: with [min = 0] and [max = 255] the lerp node adds
    [max] where its field descriptions promise an output between [min] and
    [max]: no sample comes out below 255 before the cast to uint8, a black
    sample comes back white from either round trip, and so does a black
    image sent through the two invocations. *)
Theorem lerp_offsets_by_max :
  (forall v, 0 <= v <= 255 ->
     Float.ltb (lerp_value 0 255 v) (Float.of_Z 255) = false) /\
  lerp_pixel 0 255 0 = 255 /\
  ilerp_pixel 0 255 (lerp_pixel 0 255 0) = 255 /\
  lerp_pixel 0 255 (ilerp_pixel 0 255 0) = 255 /\
  exists out1 s1 out2 s2,
    invoke example_library example_context
      (ImageLerpInvocation example_self example_field 0 255)
      (example_state black_1x1) = Ok (out1, s1) /\
    invoke example_library example_context
      (ImageInverseLerpInvocation example_self (Some (output_field out1)) 0 255)
      s1 = Ok (out2, s2) /\
    stored_image s2 (image_name (output_field out2)) = Some (mkImage ModeL 1 1 [[255]]).
Proof.
  split.
  - intros v Hv.
    apply (forall_samples
             (fun v => negb (Float.ltb (lerp_value 0 255 v) (Float.of_Z 255)))) in Hv.
    + now apply negb_true_iff in Hv.
    + vm_compute. reflexivity.
  - split; [vm_compute; reflexivity|].
    split; [vm_compute; reflexivity|].
    split; [vm_compute; reflexivity|].
    eexists _, _, _, _.
    split; [vm_compute; reflexivity|].
    split; vm_compute; reflexivity.
Qed.

(** ** Running a computation *)

Lemma bind_inv {A B : Type} (c : M A) (k : A -> M B) s b s' :
  bind c k s = Ok (b, s') ->
  exists a s1, c s = Ok (a, s1) /\ k a s1 = Ok (b, s').
Proof.
  unfold bind. destruct (c s) as [[a s1]|e]; [eauto|discriminate].
Qed.

Lemma bind_run {A B : Type} (c : M A) (k : A -> M B) s a s1 :
  c s = Ok (a, s1) -> bind c k s = k a s1.
Proof. unfold bind. now intros ->. Qed.

Lemma ret_inv {A : Type} (a b : A) s s' : ret a s = Ok (b, s') -> b = a /\ s' = s.
Proof. unfold ret. now intros [= <- <-]. Qed.

Lemma lift_inv {A : Type} (r : result A) s a s' :
  lift r s = Ok (a, s') -> r = Ok a /\ s' = s.
Proof. unfold lift. destruct r; [now intros [= <- <-]|discriminate]. Qed.

Lemma field_image_name_inv f s n s' :
  field_image_name f s = Ok (n, s') ->
  f = Some (mkImageField n) /\ s' = s.
Proof.
  destruct f as [[m]|]; cbn; [|discriminate].
  unfold ret. now intros [= <- <-].
Qed.

Lemma deref_inv o s im s' :
  deref o s = Ok (im, s') -> heap s !! o = Some im /\ s' = s.
Proof.
  unfold deref. destruct (heap s !! o); [now intros [= <- <-]|discriminate].
Qed.

Lemma get_pil_image_inv n s o s' :
  get_pil_image n s = Ok (o, s') ->
  s' = s /\ exists r, find_record n (images s) = Some r /\ o = record_object r.
Proof.
  unfold get_pil_image. destruct (find_record n (images s)) as [r|]; [|discriminate].
  intros [= <- <-]. eauto.
Qed.

Lemma alloc_inv im s o s' :
  alloc im s = Ok (o, s') ->
  o = length (heap s) /\ s' = mkState (heap s ++ [im]) (images s) (logged s).
Proof. unfold alloc. now intros [= <- <-]. Qed.

Lemma call1_inv f o s o' s' :
  call1 f o s = Ok (o', s') ->
  exists im r, heap s !! o = Some im /\ f im = Ok r /\
    o' = length (heap s) /\ s' = mkState (heap s ++ [r]) (images s) (logged s).
Proof.
  unfold call1. intros H.
  apply bind_inv in H as (im & s1 & H1 & H). apply deref_inv in H1 as [H1 ->].
  apply bind_inv in H as (r & s2 & H2 & H). apply lift_inv in H2 as [H2 ->].
  apply alloc_inv in H as [-> ->]. eauto 6.
Qed.

Lemma call2_inv f o1 o2 s o' s' :
  call2 f o1 o2 s = Ok (o', s') ->
  exists im1 im2 r, heap s !! o1 = Some im1 /\ heap s !! o2 = Some im2 /\
    f im1 im2 = Ok r /\
    o' = length (heap s) /\ s' = mkState (heap s ++ [r]) (images s) (logged s).
Proof.
  unfold call2. intros H.
  apply bind_inv in H as (im1 & s1 & H1 & H). apply deref_inv in H1 as [H1 ->].
  apply bind_inv in H as (im2 & s2 & H2 & H). apply deref_inv in H2 as [H2 ->].
  apply bind_inv in H as (r & s3 & H3 & H). apply lift_inv in H3 as [H3 ->].
  apply alloc_inv in H as [-> ->]. eauto 8.
Qed.

Lemma paste_in_place_inv lib dst src box mask s u s' :
  paste_in_place lib dst src box mask s = Ok (u, s') ->
  exists d i m r,
    heap s !! dst = Some d /\ heap s !! src = Some i /\
    match mask with
    | None => m = None
    | Some o => exists mi, heap s !! o = Some mi /\ m = Some mi
    end /\
    paste lib d i box m = Ok r /\
    s' = mkState (<[dst := r]> (heap s)) (images s) (logged s).
Proof.
  unfold paste_in_place. intros H.
  apply bind_inv in H as (d & s1 & H1 & H). apply deref_inv in H1 as [H1 ->].
  apply bind_inv in H as (i & s2 & H2 & H). apply deref_inv in H2 as [H2 ->].
  apply bind_inv in H as (m & s3 & H3 & H).
  apply bind_inv in H as (r & s4 & H4 & H). apply lift_inv in H4 as [H4 ->].
  unfold assign in H. injection H as _ <-.
  exists d, i, m, r. destruct mask as [o|].
  - apply bind_inv in H3 as (mi & s5 & H5 & H3). apply deref_inv in H5 as [H5 ->].
    apply ret_inv in H3 as [-> ->]. eauto 10.
  - apply ret_inv in H3 as [-> ->]. eauto 10.
Qed.

Lemma create_inv image origin category node session intermediate meta s dto s' :
  create image origin category node session intermediate meta s = Ok (dto, s') ->
  exists im,
    heap s !! image = Some im /\
    dto = mkDto (new_name (images s)) (width im) (height im) /\
    s' = mkState (heap s)
           (images s ++ [mkRecord (new_name (images s)) image origin category
                           node session intermediate meta])
           (logged s).
Proof.
  unfold create. destruct (heap s !! image) as [im|]; [|discriminate].
  intros [= <- <-]. eauto.
Qed.

Lemma logger_info_inv line s u s' :
  logger_info line s = Ok (u, s') ->
  s' = mkState (heap s) (images s) (logged s ++ [line]).
Proof. unfold logger_info. now intros [= <-]. Qed.

(** *** Names *)

Lemma list_max_ge (l : list nat) (n : nat) : In n l -> (n <= list_max l)%nat.
Proof.
  intros Hin.
  pose proof (proj1 (list_max_le l (list_max l)) (le_n _)) as Hall.
  rewrite List.Forall_forall in Hall. now apply Hall.
Qed.

Lemma new_name_fresh (rs : list image_record) :
  ~ In (new_name rs) (map record_name rs).
Proof.
  intros H. apply list_max_ge in H. unfold new_name in H. lia.
Qed.

Lemma find_record_In n rs r :
  find_record n rs = Some r -> In n (map record_name rs).
Proof.
  unfold find_record. intros H. apply find_some in H as [Hin Hn].
  apply Nat.eqb_eq in Hn. subst n. now apply in_map.
Qed.

Lemma find_record_not_In n rs :
  ~ In n (map record_name rs) -> find_record n rs = None.
Proof.
  intros H. destruct (find_record n rs) as [r|] eqn:E; [|reflexivity].
  apply find_record_In in E. contradiction.
Qed.

Lemma find_record_app n rs rs' :
  find_record n (rs ++ rs') =
  match find_record n rs with Some r => Some r | None => find_record n rs' end.
Proof.
  unfold find_record. induction rs as [|a rs IH]; cbn; [reflexivity|].
  destruct (Nat.eqb (record_name a) n); [reflexivity|apply IH].
Qed.

Lemma find_record_new rs r :
  record_name r = new_name rs -> find_record (new_name rs) (rs ++ [r]) = Some r.
Proof.
  intros Hr. rewrite find_record_app, (find_record_not_In _ _ (new_name_fresh rs)).
  unfold find_record. cbn. now rewrite Hr, Nat.eqb_refl.
Qed.

Lemma find_record_old n rs r0 r :
  find_record n rs = Some r0 -> find_record n (rs ++ [r]) = Some r0.
Proof. intros H. now rewrite find_record_app, H. Qed.

(** ** Pixels of a new and of a pasted image *)

Lemma paste_source_rgba lib dst src :
  mode dst = ModeRGBA -> paste_source lib dst src = convert lib src ModeRGBA.
Proof.
  intros Hd. unfold paste_source, convert. rewrite Hd.
  destruct (mode src) eqn:E; cbn; rewrite ?E; reflexivity.
Qed.

Lemma inside_index w h i j :
  inside w h i j = true ->
  Z.of_nat (Z.to_nat (j * w + i)) mod w = i /\
  Z.of_nat (Z.to_nat (j * w + i)) / w = j /\
  (Z.to_nat (j * w + i) < Z.to_nat (w * h))%nat.
Proof.
  unfold inside. intros H.
  apply andb_true_iff in H as [H Hj2]. apply andb_true_iff in H as [H Hj1].
  apply andb_true_iff in H as [Hi1 Hi2].
  apply Z.leb_le in Hi1, Hj1. apply Z.ltb_lt in Hi2, Hj2.
  rewrite Z2Nat.id by nia.
  repeat split.
  - rewrite Z.add_comm, Z.mod_add by lia. apply Z.mod_small. lia.
  - rewrite Z.add_comm, Z.div_add by lia. rewrite Z.div_small; lia.
  - apply Z2Nat.inj_lt; nia.
Qed.

Lemma getpixel_paste_core dst src mask ox oy r i j :
  paste_core dst src mask (ox, oy) = Ok r ->
  getpixel r i j = pasted_pixel src mask ox oy i j <$> getpixel dst i j.
Proof.
  unfold paste_core. destruct (negb _); [discriminate|].
  destruct (negb _); [discriminate|]. intros [= <-].
  unfold getpixel. cbn [width height pixels].
  destruct (inside (width dst) (height dst) i j) eqn:Hin; [|reflexivity].
  apply inside_index in Hin as (Hi & Hj & _).
  rewrite list_lookup_imap, Hi, Hj. reflexivity.
Qed.

Lemma getpixel_Image_new lib m w h color im i j :
  Image_new lib m (w, h) color = Ok im ->
  inside w h i j = true ->
  getpixel im i j = Some color.
Proof.
  unfold Image_new. destruct (_ || _); [discriminate|].
  destruct (negb _); [discriminate|].
  destruct (core_new _ _ _); [|discriminate]. intros [= <-] Hin.
  unfold getpixel. cbn [width height pixels]. rewrite Hin.
  apply inside_index in Hin as (_ & _ & Hlt).
  now apply lookup_replicate_2.
Qed.

Lemma lookup_snoc_new {A} (l : list A) (x : A) : (l ++ [x]) !! length l = Some x.
Proof. now rewrite list_lookup_middle. Qed.

Lemma lookup_snoc_old {A} (l : list A) (x y : A) o :
  l !! o = Some y -> (l ++ [x]) !! o = Some y.
Proof. intros H. now apply lookup_app_l_Some. Qed.

Lemma Image_new_shape lib m w h c im :
  Image_new lib m (w, h) c = Ok im ->
  mode im = m /\ width im = w /\ height im = h /\ 0 <= w /\ 0 <= h.
Proof.
  unfold Image_new.
  destruct (Z.ltb_spec w 0); [discriminate|].
  destruct (Z.ltb_spec h 0); [discriminate|].
  cbn [orb]. destruct (negb _); [discriminate|].
  destruct (core_new _ _ _); [|discriminate].
  intros [= <-]. cbn. auto.
Qed.

Lemma c_int_spec z : c_int z = true <-> - INT_MAX - 1 <= z <= INT_MAX.
Proof. unfold c_int. rewrite andb_true_iff, !Z.leb_le. tauto. Qed.

Lemma c_int_nonneg z : 0 <= z -> z <= INT_MAX -> c_int z = true.
Proof. intros H0 H1. apply c_int_spec. unfold INT_MAX in *. lia. Qed.

Lemma Image_new_ok lib m w h c :
  0 <= w -> 0 <= h -> w <= INT_MAX -> h <= INT_MAX ->
  core_new lib m (w, h) = Ok tt ->
  exists im, Image_new lib m (w, h) c = Ok im.
Proof.
  intros Hw Hh Hw' Hh' Hcore. unfold Image_new.
  destruct (Z.ltb_spec w 0); [lia|]. destruct (Z.ltb_spec h 0); [lia|].
  cbn [orb]. rewrite !c_int_nonneg by assumption. cbn [andb negb].
  rewrite Hcore. eauto.
Qed.

Lemma box_ok_spec ox oy src :
  box_ok (ox, oy) src = true <->
  c_int ox = true /\ c_int oy = true /\
  c_int (ox + width src) = true /\ c_int (oy + height src) = true.
Proof. unfold box_ok. rewrite !andb_true_iff. tauto. Qed.

(** ** Crop *)

(** C3: for a stored source that PIL can bring to "RGBA" and a crop
    rectangle of positive size, ImageCropInvocation stores an "RGBA" image
    of exactly the requested size; its pixel at [(i, j)] is the source's
    pixel at [(i - (-x), j - (-y))], that is the source placed at offset
    [(-x, -y)], and every pixel outside the placed source is the transparent
    [(0, 0, 0, 0)].  The size and the box of the placed source are ones the
    C core takes: C ints, and a canvas it has storage for. *)
Theorem crop_canvas lib ctx self name x y w h s r src src' :
  0 < w -> 0 < h ->
  find_record name (images s) = Some r ->
  heap s !! record_object r = Some src ->
  convert lib src ModeRGBA = Ok src' ->
  w <= INT_MAX -> h <= INT_MAX ->
  core_new lib ModeRGBA (w, h) = Ok tt ->
  box_ok (- x, - y) src = true ->
  exists out s' canvas,
    invoke lib ctx (ImageCropInvocation self (Some (mkImageField name)) x y w h) s
      = Ok (out, s') /\
    stored_image s' (image_name (output_field out)) = Some canvas /\
    output_width out = w /\ output_height out = h /\
    mode canvas = ModeRGBA /\ width canvas = w /\ height canvas = h /\
    (forall i j, 0 <= i < w -> 0 <= j < h ->
       getpixel canvas i j =
         Some (default [0; 0; 0; 0] (getpixel src' (i - (- x)) (j - (- y))))) /\
    (forall i j, 0 <= i < w -> 0 <= j < h ->
       inside (width src') (height src') (i - (- x)) (j - (- y)) = false ->
       getpixel canvas i j = Some [0; 0; 0; 0]).
Proof.
  intros Hw Hh Hf Hs Hc Hwmax Hhmax Hcore Hbox.
  destruct (Image_new_ok lib ModeRGBA w h [0; 0; 0; 0]) as [blank Hnew];
    [lia | lia | assumption | assumption | assumption |].
  pose proof (Image_new_shape _ _ _ _ _ _ Hnew) as (Hbm & Hbw & Hbh & _).
  destruct (paste_core blank src' None (- x, - y)) as [canvas|e] eqn:Hp;
    [|discriminate].
  assert (Hpaste : paste lib blank src (- x, - y) None = Ok canvas).
  { unfold paste. now rewrite (paste_source_rgba lib blank src Hbm), Hc, Hbox. }
  assert (Hcv : mode canvas = ModeRGBA /\ width canvas = w /\ height canvas = h).
  { cbn in Hp. injection Hp as <-. cbn. auto. }
  destruct Hcv as (Hcm & Hcw & Hch).
  eexists _, _, canvas. split.
  { unfold invoke, ImageCrop_invoke.
    cbn [field_image_name image_name]. unfold ret at 1. unfold bind at 1.
    erewrite bind_run by (unfold get_pil_image; rewrite Hf; reflexivity).
    erewrite bind_run.
    2:{ erewrite bind_run by (unfold lift; rewrite Hnew; reflexivity). reflexivity. }
    erewrite bind_run.
    2:{ unfold paste_in_place.
        erewrite bind_run by (unfold deref; cbn [heap]; rewrite lookup_snoc_new; reflexivity).
        erewrite bind_run.
        2:{ unfold deref; cbn [heap]. rewrite (lookup_snoc_old _ _ _ _ Hs). reflexivity. }
        unfold ret at 1. unfold bind at 1.
        erewrite bind_run by (unfold lift; rewrite Hpaste; reflexivity).
        reflexivity. }
    erewrite bind_run.
    2:{ unfold create_general, create. cbn [heap images logged].
        rewrite list_lookup_insert_eq by (rewrite length_app; cbn; lia).
        reflexivity. }
    reflexivity. }
  unfold stored_image. cbn [image_output output_field image_name dto_image_name images heap
                           output_width output_height dto_width dto_height].
  rewrite find_record_new by reflexivity. cbn [record_object].
  rewrite list_lookup_insert_eq by (rewrite length_app; cbn; lia).
  repeat split; try assumption.
  - intros i j Hi Hj.
    rewrite (getpixel_paste_core _ _ _ _ _ _ i j Hp).
    rewrite (getpixel_Image_new _ _ _ _ _ _ i j Hnew).
    2:{ unfold inside. apply andb_true_iff; split; [apply andb_true_iff; split;
          [apply andb_true_iff; split|]|]; first [apply Z.leb_le|apply Z.ltb_lt]; lia. }
    cbn. unfold pasted_pixel. destruct (getpixel src' _ _); reflexivity.
  - intros i j Hi Hj Hout.
    rewrite (getpixel_paste_core _ _ _ _ _ _ i j Hp).
    rewrite (getpixel_Image_new _ _ _ _ _ _ i j Hnew).
    2:{ unfold inside. apply andb_true_iff; split; [apply andb_true_iff; split;
          [apply andb_true_iff; split|]|]; first [apply Z.leb_le|apply Z.ltb_lt]; lia. }
    cbn. unfold pasted_pixel, getpixel. now rewrite Hout.
Qed.

(** The crop of the 2 x 2 gray image at [x = -1], three wide. *)
Lemma crop_canvas_witness :
  exists out s' canvas,
    invoke example_library example_context
      (ImageCropInvocation example_self example_field (-1) 0 3 2)
      (example_state gray_2x2) = Ok (out, s') /\
    stored_image s' (image_name (output_field out)) = Some canvas /\
    output_width out = 3 /\ output_height out = 2 /\
    getpixel canvas 0 0 = Some [0; 0; 0; 0] /\
    getpixel canvas 1 0 = Some [10; 10; 10; 255] /\
    getpixel canvas 2 1 = Some [40; 40; 40; 255].
Proof.
  destruct (crop_canvas example_library example_context example_self 7 (-1) 0 3 2
              (example_state gray_2x2)
              (mkRecord 7 0 EXTERNAL USER "upload" "session-0" false None)
              gray_2x2
              (mkImage ModeRGBA 2 2
                 [[10; 10; 10; 255]; [20; 20; 20; 255];
                  [30; 30; 30; 255]; [40; 40; 40; 255]]))
    as (out & s' & canvas & Hrun & Hst & Hw & Hh & _ & _ & _ & Hpx & _);
    [lia | lia | reflexivity | reflexivity | reflexivity
     | vm_compute; discriminate | vm_compute; discriminate
     | reflexivity | reflexivity |].
  exists out, s', canvas.
  repeat split; try assumption.
  - rewrite (Hpx 0 0); [reflexivity | lia | lia].
  - rewrite (Hpx 1 0); [reflexivity | lia | lia].
  - rewrite (Hpx 2 1); [reflexivity | lia | lia].
Defined.

(** ** Paste *)

Lemma paste_shape lib d i box m r :
  paste lib d i box m = Ok r ->
  mode r = mode d /\ width r = width d /\ height r = height d.
Proof.
  unfold paste. destruct (paste_source lib d i) as [i'|e]; [|discriminate].
  destruct (box_ok box i); [|discriminate].
  unfold paste_core. destruct box as [ox oy].
  destruct (negb _); [discriminate|]. destruct (negb _); [discriminate|].
  intros [= <-]. cbn. auto.
Qed.

Ltac invert_bind H a s1 H1 :=
  apply bind_inv in H as (a & s1 & H1 & H).

Lemma paste_bounds_of_run lib ctx self bname name mask x y s rb r b i :
  find_record bname (images s) = Some rb ->
  heap s !! record_object rb = Some b ->
  find_record name (images s) = Some r ->
  heap s !! record_object r = Some i ->
  (forall out s',
     invoke lib ctx
       (ImagePasteInvocation self (Some (mkImageField bname))
          (Some (mkImageField name)) mask x y) s = Ok (out, s') ->
     exists canvas,
       stored_image s' (image_name (output_field out)) = Some canvas /\
       width canvas = Z.max (width b) (width i + x) - Z.min 0 x /\
       height canvas = Z.max (height b) (height i + y) - Z.min 0 y /\
       output_width out = width canvas /\
       output_height out = height canvas).
Proof.
  intros Hfb Hb Hf Hi out s' H.
  unfold invoke, ImagePaste_invoke in H.
  invert_bind H n0 s0 H0. apply field_image_name_inv in H0 as [[= <-] ->].
  invert_bind H ob s1 H1. apply get_pil_image_inv in H1 as [-> (rb' & Hfb' & ->)].
  rewrite Hfb in Hfb'. injection Hfb' as <-.
  invert_bind H n2 s2 H2. apply field_image_name_inv in H2 as [[= <-] ->].
  invert_bind H oi s3 H3. apply get_pil_image_inv in H3 as [-> (r' & Hf' & ->)].
  rewrite Hf in Hf'. injection Hf' as <-.
  invert_bind H om s4 H4.
  assert (Hs4 : images s4 = images s /\
                forall o im, heap s !! o = Some im -> heap s4 !! o = Some im).
  { destruct mask as [f|].
    - invert_bind H4 m s5 H5. apply get_pil_image_inv in H5 as [-> _].
      invert_bind H4 inv s6 H6. apply call1_inv in H6 as (im & ri & _ & _ & _ & ->).
      apply ret_inv in H4 as [_ ->]. cbn. split; [reflexivity|].
      intros o im0 Ho. now apply lookup_snoc_old.
    - apply ret_inv in H4 as [_ ->]. auto. }
  destruct Hs4 as [Himg Hheap].
  invert_bind H b' s5 H5. apply deref_inv in H5 as [H5 ->].
  rewrite (Hheap _ _ Hb) in H5. injection H5 as <-.
  invert_bind H i' s6 H6. apply deref_inv in H6 as [H6 ->].
  rewrite (Hheap _ _ Hi) in H6. injection H6 as <-.
  invert_bind H oc s7 H7.
  invert_bind H7 blank s8 H8. apply lift_inv in H8 as [Hnew ->].
  apply alloc_inv in H7 as [-> ->].
  apply Image_new_shape in Hnew as (_ & Hbw & Hbh & _).
  invert_bind H u1 s9 H9.
  apply paste_in_place_inv in H9 as (d1 & i1 & m1 & r1 & Hd1 & _ & _ & Hp1 & ->).
  cbn [heap] in Hd1. rewrite lookup_snoc_new in Hd1. injection Hd1 as <-.
  apply paste_shape in Hp1 as (_ & Hw1 & Hh1).
  invert_bind H u2 s10 H10.
  apply paste_in_place_inv in H10 as (d2 & i2 & m2 & r2 & Hd2 & _ & _ & Hp2 & ->).
  cbn [heap] in Hd2.
  rewrite list_lookup_insert_eq in Hd2 by (rewrite length_app; cbn; lia).
  injection Hd2 as <-.
  apply paste_shape in Hp2 as (_ & Hw2 & Hh2).
  invert_bind H dto s11 H11. unfold create_general in H11.
  apply create_inv in H11 as (im & Him & -> & ->).
  cbn [heap images logged] in *.
  rewrite list_lookup_insert_eq in Him
    by (rewrite length_insert, length_app; cbn; lia).
  injection Him as <-.
  apply ret_inv in H as [-> ->].
  exists r2. unfold stored_image.
  cbn [image_output output_field image_name dto_image_name images heap
       output_width output_height dto_width dto_height].
  rewrite find_record_new by reflexivity. cbn [record_object].
  rewrite list_lookup_insert_eq by (rewrite length_insert, length_app; cbn; lia).
  repeat split; congruence.
Qed.

Lemma lookup_lt_heap {A} (l : list A) o x : l !! o = Some x -> (o < length l)%nat.
Proof. intros H. apply lookup_lt_is_Some. eauto. Qed.

Lemma paste_no_mask_ok lib d src src' box :
  mode d = ModeRGBA -> convert lib src ModeRGBA = Ok src' ->
  box_ok box src = true ->
  exists r, paste lib d src box None = Ok r /\ mode r = ModeRGBA.
Proof.
  intros Hd Hc Hbox. unfold paste. rewrite (paste_source_rgba lib d src Hd), Hc, Hbox.
  destruct box as [ox oy]. cbn. eexists. split; [reflexivity|]. exact Hd.
Qed.

Lemma paste_returns lib ctx self bname name x y s rb r b i b' i' :
  find_record bname (images s) = Some rb ->
  heap s !! record_object rb = Some b ->
  find_record name (images s) = Some r ->
  heap s !! record_object r = Some i ->
  0 <= width b -> 0 <= height b ->
  0 <= width i -> 0 <= height i ->
  convert lib b ModeRGBA = Ok b' ->
  convert lib i ModeRGBA = Ok i' ->
  Z.max (width b) (width i + x) - Z.min 0 x <= INT_MAX ->
  Z.max (height b) (height i + y) - Z.min 0 y <= INT_MAX ->
  core_new lib ModeRGBA
    (Z.max (width b) (width i + x) - Z.min 0 x,
     Z.max (height b) (height i + y) - Z.min 0 y) = Ok tt ->
  exists out s',
    invoke lib ctx
      (ImagePasteInvocation self (Some (mkImageField bname))
         (Some (mkImageField name)) None x y) s = Ok (out, s').
Proof.
  intros Hfb Hb Hf Hi Hw Hh Hwi Hhi Hcb Hci Hwmax Hhmax Hcore.
  destruct (Image_new_ok lib ModeRGBA
              (Z.max (width b) (width i + x) - Z.min 0 x)
              (Z.max (height b) (height i + y) - Z.min 0 y) [0; 0; 0; 0])
    as [blank Hnew]; [lia | lia | assumption | assumption | assumption |].
  pose proof (Image_new_shape _ _ _ _ _ _ Hnew) as (Hbm & _).
  destruct (paste_no_mask_ok lib blank b b' (Z.abs (Z.min 0 x), Z.abs (Z.min 0 y))
              Hbm Hcb) as (r1 & Hp1 & Hm1).
  { apply box_ok_spec. repeat split; apply c_int_nonneg; lia. }
  destruct (paste_no_mask_ok lib r1 i i' (Z.max 0 x, Z.max 0 y) Hm1 Hci)
    as (r2 & Hp2 & Hm2).
  { apply box_ok_spec. repeat split; apply c_int_nonneg; lia. }
  pose proof (lookup_lt_heap _ _ _ Hb) as Hltb.
  pose proof (lookup_lt_heap _ _ _ Hi) as Hlti.
  eexists _, _.
  unfold invoke, ImagePaste_invoke.
  cbn [field_image_name image_name]. unfold ret at 1. unfold bind at 1.
  erewrite bind_run by (unfold get_pil_image; rewrite Hfb; reflexivity).
  unfold ret at 1. unfold bind at 1.
  erewrite bind_run by (unfold get_pil_image; rewrite Hf; reflexivity).
  unfold ret at 1. unfold bind at 1.
  erewrite bind_run by (unfold deref; rewrite Hb; reflexivity).
  erewrite bind_run by (unfold deref; rewrite Hi; reflexivity).
  erewrite bind_run.
  2:{ erewrite bind_run by (unfold lift; rewrite Hnew; reflexivity). reflexivity. }
  erewrite bind_run.
  2:{ unfold paste_in_place.
      erewrite bind_run by (unfold deref; cbn [heap]; rewrite lookup_snoc_new; reflexivity).
      erewrite bind_run.
      2:{ unfold deref; cbn [heap]. rewrite (lookup_snoc_old _ _ _ _ Hb). reflexivity. }
      unfold ret at 1. unfold bind at 1.
      erewrite bind_run by (unfold lift; rewrite Hp1; reflexivity).
      reflexivity. }
  erewrite bind_run.
  2:{ unfold paste_in_place.
      erewrite bind_run.
      2:{ unfold deref; cbn [heap].
          rewrite list_lookup_insert_eq by (rewrite length_app; cbn; lia).
          reflexivity. }
      erewrite bind_run.
      2:{ unfold deref; cbn [heap].
          rewrite list_lookup_insert_ne by lia.
          rewrite (lookup_snoc_old _ _ _ _ Hi). reflexivity. }
      unfold ret at 1. unfold bind at 1.
      erewrite bind_run by (unfold lift; rewrite Hp2; reflexivity).
      reflexivity. }
  erewrite bind_run.
  2:{ unfold create_general, create. cbn [heap images logged].
      rewrite list_lookup_insert_eq by (rewrite length_insert, length_app; cbn; lia).
      reflexivity. }
  reflexivity.
Qed.

(** C4: the canvas ImagePasteInvocation stores spans the union of the base
    image's box at the origin and the pasted image's box at [(x, y)]: it is
    [max(base.width, image.width + x) - min(0, x)] wide and
    [max(base.height, image.height + y) - min(0, y)] high, with or without
    a mask, and those are the sizes the output reports; without a mask the
    invocation returns for every pair of images PIL can bring to "RGBA"
    whose canvas the C core takes: a size within a C int that it has
    storage for. *)
Theorem paste_canvas_bounds lib ctx self bname name x y s rb r b i :
  find_record bname (images s) = Some rb ->
  heap s !! record_object rb = Some b ->
  find_record name (images s) = Some r ->
  heap s !! record_object r = Some i ->
  (forall mask out s',
     invoke lib ctx
       (ImagePasteInvocation self (Some (mkImageField bname))
          (Some (mkImageField name)) mask x y) s = Ok (out, s') ->
     exists canvas,
       stored_image s' (image_name (output_field out)) = Some canvas /\
       width canvas = Z.max (width b) (width i + x) - Z.min 0 x /\
       height canvas = Z.max (height b) (height i + y) - Z.min 0 y /\
       output_width out = width canvas /\
       output_height out = height canvas) /\
  (forall b' i',
     0 <= width b -> 0 <= height b ->
     0 <= width i -> 0 <= height i ->
     convert lib b ModeRGBA = Ok b' ->
     convert lib i ModeRGBA = Ok i' ->
     Z.max (width b) (width i + x) - Z.min 0 x <= INT_MAX ->
     Z.max (height b) (height i + y) - Z.min 0 y <= INT_MAX ->
     core_new lib ModeRGBA
       (Z.max (width b) (width i + x) - Z.min 0 x,
        Z.max (height b) (height i + y) - Z.min 0 y) = Ok tt ->
     exists out s',
       invoke lib ctx
         (ImagePasteInvocation self (Some (mkImageField bname))
            (Some (mkImageField name)) None x y) s = Ok (out, s')).
Proof.
  intros Hfb Hb Hf Hi. split.
  - intros mask. now apply (paste_bounds_of_run lib ctx self bname name mask x y s rb r b i).
  - intros b' i' Hw Hh Hwi Hhi Hcb Hci Hwmax Hhmax Hcore.
    now apply (paste_returns lib ctx self bname name x y s rb r b i b' i').
Qed.

(** The 2 x 2 gray image pasted onto itself at [(-1, 1)] gives a 3 x 3
    canvas. *)
Lemma paste_canvas_bounds_witness :
  exists out s',
    invoke example_library example_context
      (ImagePasteInvocation example_self example_field example_field None (-1) 1)
      (example_state gray_2x2) = Ok (out, s') /\
    output_width out = 3 /\ output_height out = 3.
Proof.
  destruct (paste_canvas_bounds example_library example_context example_self
              7 7 (-1) 1 (example_state gray_2x2)
              (mkRecord 7 0 EXTERNAL USER "upload" "session-0" false None)
              (mkRecord 7 0 EXTERNAL USER "upload" "session-0" false None)
              gray_2x2 gray_2x2)
    as [Hbounds Hreturns]; try reflexivity.
  destruct (Hreturns
              (mkImage ModeRGBA 2 2
                 [[10; 10; 10; 255]; [20; 20; 20; 255];
                  [30; 30; 30; 255]; [40; 40; 40; 255]])
              (mkImage ModeRGBA 2 2
                 [[10; 10; 10; 255]; [20; 20; 20; 255];
                  [30; 30; 30; 255]; [40; 40; 40; 255]]))
    as (out & s' & Hrun);
    [cbn; lia | cbn; lia | cbn; lia | cbn; lia | reflexivity | reflexivity
     | vm_compute; discriminate | vm_compute; discriminate | reflexivity |].
  exists out, s'. split; [exact Hrun|].
  destruct (Hbounds None out s' Hrun) as (canvas & _ & Hw & Hh & How & Hoh).
  rewrite How, Hoh, Hw, Hh. split; reflexivity.
Defined.

(** ** Mask from alpha *)

Lemma mask_from_alpha_inv lib ctx self name invert s r im out s' :
  find_record name (images s) = Some r ->
  heap s !! record_object r = Some im ->
  invoke lib ctx (MaskFromAlphaInvocation self (Some (mkImageField name)) invert) s
    = Ok (out, s') ->
  exists m m',
    last_band im = Ok m /\ inverted_or_not invert m = Ok m' /\
    stored_image s' (image_name (output_field out)) = Some m' /\
    out = MaskOutput (mkImageField (new_name (images s))) (width m') (height m').
Proof.
  intros Hf Him H. unfold invoke, MaskFromAlpha_invoke in H.
  invert_bind H n0 s0 H0. apply field_image_name_inv in H0 as [[= <-] ->].
  invert_bind H o s1 H1. apply get_pil_image_inv in H1 as [-> (r' & Hf' & ->)].
  rewrite Hf in Hf'. injection Hf' as <-.
  invert_bind H om s2 H2. apply call1_inv in H2 as (im' & m & Him' & Hm & -> & ->).
  rewrite Him in Him'. injection Him' as <-.
  invert_bind H om' s3 H3.
  assert (Hm' : exists m', inverted_or_not invert m = Ok m' /\
                  heap s3 !! om' = Some m' /\ images s3 = images s).
  { destruct invert; cbn [inverted_or_not].
    - apply call1_inv in H3 as (m0 & m' & Hm0 & Hinv & -> & ->).
      cbn [heap] in Hm0. rewrite lookup_snoc_new in Hm0. injection Hm0 as <-.
      exists m'. cbn. now rewrite lookup_snoc_new.
    - apply ret_inv in H3 as [-> ->]. exists m. cbn. now rewrite lookup_snoc_new. }
  destruct Hm' as (m' & Hinv & Hom' & Himg).
  invert_bind H dto s4 H4. unfold create_general in H4.
  apply create_inv in H4 as (im0 & Him0 & -> & ->).
  rewrite Hom' in Him0. injection Him0 as <-.
  apply ret_inv in H as [-> ->].
  exists m, m'. repeat split; try assumption.
  - unfold stored_image. cbn [output_field image_name dto_image_name images heap].
    rewrite find_record_new by reflexivity. cbn [record_object]. exact Hom'.
  - cbn. now rewrite Himg.
Qed.

Lemma mask_from_alpha_run lib ctx self name invert s r im m m' :
  find_record name (images s) = Some r ->
  heap s !! record_object r = Some im ->
  last_band im = Ok m -> inverted_or_not invert m = Ok m' ->
  exists out s',
    invoke lib ctx (MaskFromAlphaInvocation self (Some (mkImageField name)) invert) s
      = Ok (out, s').
Proof.
  intros Hf Him Hm Hinv.
  destruct invert; cbn [inverted_or_not] in Hinv; eexists _, _;
    unfold invoke, MaskFromAlpha_invoke;
    cbn [field_image_name image_name]; unfold ret at 1; unfold bind at 1;
    (erewrite bind_run by (unfold get_pil_image; rewrite Hf; reflexivity));
    (erewrite bind_run;
     [|unfold call1;
       erewrite bind_run by (unfold deref; rewrite Him; reflexivity);
       erewrite bind_run by (unfold lift; rewrite Hm; reflexivity);
       reflexivity]).
  - erewrite bind_run.
    2:{ unfold call1.
        erewrite bind_run by (unfold deref; cbn [heap]; rewrite lookup_snoc_new; reflexivity).
        erewrite bind_run by (unfold lift; rewrite Hinv; reflexivity).
        reflexivity. }
    erewrite bind_run.
    2:{ unfold create_general, create. cbn [heap images logged length].
        rewrite length_app. cbn [length].
        replace (length (heap s) + 1)%nat with (length (heap s ++ [m]))
          by (rewrite length_app; reflexivity).
        rewrite lookup_snoc_new. reflexivity. }
    reflexivity.
  - erewrite bind_run by reflexivity.
    erewrite bind_run.
    2:{ unfold create_general, create. cbn [heap images logged].
        rewrite lookup_snoc_new. reflexivity. }
    reflexivity.
Qed.

(** ** One new stored image per invocation *)

Section Frame.

Variable lib : library.
Variable context : InvocationContext.
Variable s0 : state.

Lemma reads_bind {A B : Type} (c : M A) (k : A -> M B) (P : A -> Prop) (P' : B -> Prop) :
  reads s0 c P -> (forall a, P a -> reads s0 (k a) P') -> reads s0 (bind c k) P'.
Proof.
  intros Hc Hk s b s' Hq H.
  apply bind_inv in H as (a & s1 & H1 & H).
  destruct (Hc s a s1 Hq H1) as [Hq1 Ha].
  exact (Hk a Ha s1 b s' Hq1 H).
Qed.

Lemma writes_bind {A : Type} self (c : M A) (k : A -> M output) (P : A -> Prop) :
  reads s0 c P -> (forall a, P a -> writes s0 self (k a)) -> writes s0 self (bind c k).
Proof.
  intros Hc Hk s b s' Hq H.
  apply bind_inv in H as (a & s1 & H1 & H).
  destruct (Hc s a s1 Hq H1) as [Hq1 Ha].
  exact (Hk a Ha s1 b s' Hq1 H).
Qed.

Lemma reads_weaken {A : Type} (c : M A) (P P' : A -> Prop) :
  reads s0 c P -> (forall a, P a -> P' a) -> reads s0 c P'.
Proof. intros Hc HP s a s' Hq H. destruct (Hc s a s' Hq H). auto. Qed.

Lemma reads_ret {A : Type} (a : A) (P : A -> Prop) : P a -> reads s0 (ret a) P.
Proof. intros Ha s b s' Hq H. apply ret_inv in H as [-> ->]. auto. Qed.

Lemma reads_field f : reads s0 (field_image_name f) (fun _ => True).
Proof. intros s a s' Hq H. apply field_image_name_inv in H as [_ ->]. auto. Qed.

Lemma reads_get n : reads s0 (get_pil_image n) (fun _ => True).
Proof. intros s a s' Hq H. apply get_pil_image_inv in H as [-> _]. auto. Qed.

Lemma reads_deref o : reads s0 (deref o) (fun _ => True).
Proof. intros s a s' Hq H. apply deref_inv in H as [_ ->]. auto. Qed.

Lemma reads_lift {A : Type} (r : result A) : reads s0 (lift r) (fun _ => True).
Proof. intros s a s' Hq H. apply lift_inv in H as [_ ->]. auto. Qed.

Lemma reads_logger line : reads s0 (logger_info line) (fun _ => True).
Proof.
  intros s a s' [Hi Hh] H. apply logger_info_inv in H as ->.
  split; [split|]; auto.
Qed.

Lemma quiet_snoc s im :
  quiet s0 s ->
  quiet s0 (mkState (heap s ++ [im]) (images s) (logged s)) /\ fresh s0 (length (heap s)).
Proof.
  intros [Hi Hh]. split; [split|]; cbn.
  - exact Hi.
  - intros o x Ho. apply lookup_snoc_old. now apply Hh.
  - unfold fresh. destruct (heap s0 !! length (heap s)) as [x|] eqn:E; [|reflexivity].
    apply Hh, lookup_lt_heap in E. lia.
Qed.

Lemma reads_alloc im : reads s0 (alloc im) (fresh s0).
Proof. intros s o s' Hq H. apply alloc_inv in H as [-> ->]. now apply quiet_snoc. Qed.

Lemma reads_call1 f o : reads s0 (call1 f o) (fresh s0).
Proof.
  intros s o' s' Hq H. apply call1_inv in H as (im & r & _ & _ & -> & ->).
  now apply quiet_snoc.
Qed.

Lemma reads_call2 f o1 o2 : reads s0 (call2 f o1 o2) (fresh s0).
Proof.
  intros s o' s' Hq H. apply call2_inv in H as (im1 & im2 & r & _ & _ & _ & -> & ->).
  now apply quiet_snoc.
Qed.

(** A paste into an object made during the call leaves every object that
    existed before the call as it was. *)
Lemma reads_paste dst src box mask :
  fresh s0 dst -> reads s0 (paste_in_place lib dst src box mask) (fun _ => True).
Proof.
  intros Hd s u s' [Hi Hh] H.
  apply paste_in_place_inv in H as (d & i & m & r & _ & _ & _ & _ & ->).
  split; [split|]; cbn; auto.
  intros o x Ho. cbn. rewrite list_lookup_insert_ne.
  - now apply Hh.
  - intros <-. unfold fresh in Hd. congruence.
Qed.

Lemma writes_create self o category meta (wrap : image_dto -> output) :
  (forall dto, image_name (output_field (wrap dto)) = dto_image_name dto) ->
  writes s0 self (let* image_dto := create_general context self o category meta in
               ret (wrap image_dto)).
Proof.
  intros Hwrap s out s' [Hi Hh] H.
  apply bind_inv in H as (dto & s1 & H1 & H). unfold create_general in H1.
  apply create_inv in H1 as (im & _ & -> & ->).
  apply ret_inv in H as [-> ->].
  eexists. cbn [images heap]. rewrite Hi. split; [reflexivity|].
  cbn. rewrite Hwrap. cbn. repeat split; auto.
  apply new_name_fresh.
Qed.

End Frame.

Lemma quiet_refl s : quiet s s.
Proof. split; [reflexivity|]. intros o im H. exact H. Qed.

Lemma reads_any {A : Type} s0 (c : M A) (P : A -> Prop) :
  reads s0 c P -> reads s0 c (fun _ => True).
Proof. intros H. apply (reads_weaken s0 c P); auto. Qed.

Ltac frame_prim :=
  first
    [ apply reads_field | apply reads_get | apply reads_deref
    | apply reads_lift | apply reads_logger
    | apply reads_alloc | apply reads_call1 | apply reads_call2
    | apply reads_paste; assumption
    | apply reads_ret; exact I ].

Ltac frame_step :=
  first
    [ eapply writes_create; intros; reflexivity
    | frame_prim
    | eapply writes_bind; [|intros ? ?]
    | eapply reads_bind; [|intros ? ?] ].

Ltac frame := repeat frame_step.

(** A branch of the source: each arm is taken up on its own, and what the
    branch returns is only ever handed to [create] or used as a mask. *)
Ltac frame_case :=
  try instantiate (1 := fun _ => True);
  match goal with
  | |- reads _ (match ?m with _ => _ end) _ => destruct m
  end.


(** ** Invocations that store one function of one image *)

Section Derived.

Variable context : InvocationContext.
Variable self : BaseInvocation.
Variable f : image -> result image.
Variable category : ImageCategory.
Variable meta : option metadata_dict.

Lemma derived_run name s r im res :
  find_record name (images s) = Some r ->
  heap s !! record_object r = Some im ->
  f im = Ok res ->
  derived_from context self f category meta (Some (mkImageField name)) s
  = Ok (ImageOutput (mkImageField (new_name (images s))) (width res) (height res),
        after_create context self category meta s res).
Proof.
  intros Hf Him Hres. unfold derived_from.
  cbn [field_image_name image_name]. unfold ret at 1. unfold bind at 1.
  erewrite bind_run by (unfold get_pil_image; rewrite Hf; reflexivity).
  erewrite bind_run.
  2:{ unfold call1.
      erewrite bind_run by (unfold deref; rewrite Him; reflexivity).
      erewrite bind_run by (unfold lift; rewrite Hres; reflexivity).
      reflexivity. }
  erewrite bind_run.
  2:{ unfold create_general, create. cbn [heap images logged].
      rewrite lookup_snoc_new. reflexivity. }
  reflexivity.
Qed.

Lemma derived_inv name s r im out s' :
  find_record name (images s) = Some r ->
  heap s !! record_object r = Some im ->
  derived_from context self f category meta (Some (mkImageField name)) s = Ok (out, s') ->
  exists res,
    f im = Ok res /\
    out = ImageOutput (mkImageField (new_name (images s))) (width res) (height res) /\
    s' = after_create context self category meta s res.
Proof.
  intros Hf Him H. destruct (f im) as [res|e] eqn:Hres.
  - rewrite (derived_run name s r im res Hf Him Hres) in H.
    injection H as <- <-. eauto.
  - exfalso. unfold derived_from in H.
    invert_bind H n0 s0 H0. apply field_image_name_inv in H0 as [[= <-] ->].
    invert_bind H o s1 H1. apply get_pil_image_inv in H1 as [-> (r' & Hf' & ->)].
    rewrite Hf in Hf'. injection Hf' as <-.
    invert_bind H o' s2 H2. apply call1_inv in H2 as (im' & res & Him' & Hres' & _).
    congruence.
Qed.

Lemma stored_after_new s res :
  stored_image (after_create context self category meta s res) (new_name (images s))
  = Some res.
Proof.
  unfold stored_image, after_create. cbn [images heap].
  rewrite find_record_new by reflexivity. cbn [record_object].
  apply lookup_snoc_new.
Qed.

Lemma stored_after_old s res name r im :
  find_record name (images s) = Some r ->
  heap s !! record_object r = Some im ->
  stored_image (after_create context self category meta s res) name = Some im.
Proof.
  intros Hf Him. unfold stored_image, after_create. cbn [images heap].
  rewrite (find_record_old _ _ _ _ Hf). now apply lookup_snoc_old.
Qed.

End Derived.

(** ** Channel *)

Lemma index_of_spec (c : string) (l : list string) :
  In c l -> exists i, index_of c l = Some i /\ l !! i = Some c.
Proof.
  induction l as [|x l IH]; cbn; [tauto|].
  intros Hin. destruct (String.eqb_spec c x) as [->|Hne].
  - exists 0%nat. auto.
  - destruct Hin as [->|Hin]; [congruence|].
    destruct (IH Hin) as (i & -> & Hi). exists (S i). auto.
Qed.

Lemma getpixel_getband im i x y :
  getpixel (getband im i) x y = (fun p => [nth i p 0]) <$> getpixel im x y.
Proof.
  unfold getpixel, getband. cbn [width height pixels].
  destruct (inside _ _ _ _); [|reflexivity].
  now rewrite list_lookup_fmap.
Qed.

(** C9: when the source's mode has the requested band, the image
    ImageChannelInvocation stores is single-band ("L"), of the source's
    size, and each of its pixels is the sample the source's pixel has in
    the band of that name. *)
Theorem channel_image_is_named_band lib ctx self name channel s r im :
  find_record name (images s) = Some r ->
  heap s !! record_object r = Some im ->
  In (channel_name channel) (getbands (mode im)) ->
  exists out s' c i,
    invoke lib ctx (ImageChannelInvocation self (Some (mkImageField name)) channel) s
      = Ok (out, s') /\
    stored_image s' (image_name (output_field out)) = Some c /\
    getbands (mode im) !! i = Some (channel_name channel) /\
    getbands (mode c) = ["L"%string] /\
    width c = width im /\ height c = height im /\
    pixels c = map (fun p => [nth i p 0]) (pixels im) /\
    (forall x y, getpixel c x y = (fun p => [nth i p 0]) <$> getpixel im x y).
Proof.
  intros Hf Him Hin.
  destruct (index_of_spec _ _ Hin) as (i & Hidx & Hband).
  assert (Hch : getchannel im (channel_name channel) = Ok (getband im i))
    by (unfold getchannel; now rewrite Hidx).
  exists (ImageOutput (mkImageField (new_name (images s)))
            (width (getband im i)) (height (getband im i))),
         (after_create ctx self GENERAL None s (getband im i)),
         (getband im i), i.
  split.
  { exact (derived_run ctx self (fun im => getchannel im (channel_name channel))
             GENERAL None name s r im _ Hf Him Hch). }
  split; [apply stored_after_new|].
  repeat split; try assumption.
  intros x y. apply getpixel_getband.
Qed.

(** The green channel of a two-pixel "RGB" image. *)
Lemma channel_image_is_named_band_witness :
  exists out s' c,
    invoke example_library example_context
      (ImageChannelInvocation example_self example_field chan_G)
      (example_state rgb_2x1) = Ok (out, s') /\
    stored_image s' (image_name (output_field out)) = Some c /\
    pixels c = [[2]; [5]].
Proof.
  destruct (channel_image_is_named_band example_library example_context
              example_self 7 chan_G (example_state rgb_2x1)
              (mkRecord 7 0 EXTERNAL USER "upload" "session-0" false None) rgb_2x1)
    as (out & s' & c & i & Hrun & Hst & Hband & _ & _ & _ & Hpx & _);
    [reflexivity | reflexivity | cbn; auto |].
  exists out, s', c. repeat split; try assumption.
  destruct i as [|[|[|i]]]; cbn in Hband; try discriminate.
  exact Hpx.
Defined.

(** ** One write per invocation *)

(** C6: every invocation other than the two that only pass an image on,
    when it returns, has added exactly one record to the image storage
    service; the record carries the invocation's own [is_intermediate]
    flag; the output names that record, under a name no stored image had
    before the call (so never an input's); and every image object that
    existed before the call, the fetched inputs among them, is as it was. *)
Theorem derived_image_written_once lib ctx inv s out s' :
  derives inv = true ->
  invoke lib ctx inv s = Ok (out, s') ->
  wrote_once (base_fields inv) s out s'.
Proof.
  intros Hd H.
  enough (W : writes s (base_fields inv) (invoke lib ctx inv))
    by exact (W s out s' (quiet_refl s) H).
  clear H. destruct inv; try discriminate; cbn [invoke base_fields].
  - unfold ImageCrop_invoke. frame.
  - unfold ImagePaste_invoke. frame. frame_case; frame.
  - unfold MaskFromAlpha_invoke. frame. frame_case; frame.
    eapply reads_any. frame.
  - unfold ImageMultiply_invoke. frame.
  - unfold ImageChannel_invoke. frame.
  - unfold ImageConvert_invoke. frame.
  - unfold ImageBlur_invoke. frame.
  - unfold ImageResize_invoke. frame.
  - unfold ImageScale_invoke. frame.
  - unfold ImageLerp_invoke. frame.
  - unfold ImageInverseLerp_invoke. frame.
  - unfold ImageNSFWBlur_invoke. frame. frame_case; [|frame]. frame.
    frame_case; [|frame]. unfold _get_caution_img. frame.
  - unfold ImageWatermark_invoke. frame. frame_case; [|frame]. frame.
    eapply reads_any. frame.
Qed.

(** The paste of the gray image onto itself, which changes its canvas in
    place twice, writes once and leaves the gray image alone. *)
Lemma derived_image_written_once_witness :
  exists out s',
    invoke example_library example_context
      (ImagePasteInvocation example_self example_field example_field None (-1) 1)
      (example_state gray_2x2) = Ok (out, s') /\
    wrote_once example_self (example_state gray_2x2) out s'.
Proof.
  destruct (invoke example_library example_context
              (ImagePasteInvocation example_self example_field example_field None (-1) 1)
              (example_state gray_2x2)) as [[out s']|e] eqn:Hrun.
  - exists out, s'. split; [reflexivity|].
    exact (derived_image_written_once example_library example_context
             (ImagePasteInvocation example_self example_field example_field None (-1) 1)
             (example_state gray_2x2) out s' eq_refl Hrun).
  - vm_compute in Hrun. discriminate.
Defined.

(** ** The mask is the last band *)

Lemma last_band_ok im : exists m, last_band im = Ok m /\ last_item (split im) = Some m.
Proof.
  unfold last_band. destruct im as [md w h px].
  destruct md; cbn; eauto.
Qed.

Lemma last_band_of_mode im m :
  last_band im = Ok m ->
  (In (mode im) [ModeRGBA; ModeLA; ModePA] -> getchannel im "A" = Ok m) /\
  (mode im = ModeRGB ->
   getchannel im "B" = Ok m /\ getchannel im "A" = Raise ValueError) /\
  (length (getbands (mode im)) <> 1%nat ->
   m = getband im (length (getbands (mode im)) - 1)) /\
  (index_of "A" (getbands (mode im)) = Some (length (getbands (mode im)) - 1)%nat
   <-> last_item (getbands (mode im)) = Some "A"%string).
Proof.
  unfold last_band. destruct im as [md w h px].
  destruct md; cbn; intros [= <-];
    (split; [intros H; repeat (destruct H as [H|H]; try discriminate H); try reflexivity;
             try contradiction
            |split; [intros H; try discriminate H; split; reflexivity
                    |split; [intros H; try reflexivity; try (now contradiction H)
                            |split; intros H; try discriminate H; reflexivity]]]).
Qed.

(** C7: the mask MaskFromAlphaInvocation stores is the last band of the
    image's split.  That is the band named "A" for the modes whose last
    band is "A" ("RGBA", "LA", "PA"), and for no other mode is the band
    taken the one named "A"; for an "RGB" image, which has no band "A", the
    mask is the blue band. *)
Theorem mask_is_last_band lib ctx self name s r im :
  find_record name (images s) = Some r ->
  heap s !! record_object r = Some im ->
  exists out s' m,
    invoke lib ctx (MaskFromAlphaInvocation self (Some (mkImageField name)) false) s
      = Ok (out, s') /\
    stored_image s' (image_name (output_field out)) = Some m /\
    last_item (split im) = Some m /\
    (In (mode im) [ModeRGBA; ModeLA; ModePA] -> getchannel im "A" = Ok m) /\
    (mode im = ModeRGB ->
     getchannel im "B" = Ok m /\ getchannel im "A" = Raise ValueError) /\
    (length (getbands (mode im)) <> 1%nat ->
     m = getband im (length (getbands (mode im)) - 1)) /\
    (index_of "A" (getbands (mode im)) = Some (length (getbands (mode im)) - 1)%nat
     <-> last_item (getbands (mode im)) = Some "A"%string).
Proof.
  intros Hf Him.
  destruct (last_band_ok im) as (m & Hm & Hlast).
  destruct (mask_from_alpha_run lib ctx self name false s r im m m Hf Him Hm eq_refl)
    as (out & s' & Hrun).
  destruct (mask_from_alpha_inv lib ctx self name false s r im out s' Hf Him Hrun)
    as (m1 & m' & Hm1 & Hinv & Hst & _).
  rewrite Hm in Hm1. injection Hm1 as <-. cbn in Hinv. injection Hinv as <-.
  exists out, s', m. split; [exact Hrun|]. split; [exact Hst|]. split; [exact Hlast|].
  exact (last_band_of_mode im m Hm).
Qed.

Lemma invert_lut_spec v : 0 <= v <= 255 -> nth (Z.to_nat v) invert_lut 0 = 255 - v.
Proof.
  intros Hv.
  apply (forall_samples (fun v => nth (Z.to_nat v) invert_lut 0 =? 255 - v)) in Hv.
  - now apply Z.eqb_eq in Hv.
  - vm_compute. reflexivity.
Qed.

Lemma point_invert_twice im :
  samples_ok im -> point invert_lut (point invert_lut im) = im.
Proof.
  intros Hok. destruct im as [md w h px]. unfold point, samples_ok in *.
  cbn [pixels mode width height] in *. f_equal.
  rewrite map_map.
  induction Hok as [|p px Hp Hpx IH]; cbn [map]; [reflexivity|].
  f_equal; [|exact IH]. rewrite map_map.
  induction Hp as [|v p Hv Hp IHp]; cbn [map]; [reflexivity|].
  f_equal; [|exact IHp].
  rewrite (invert_lut_spec v Hv), invert_lut_spec by lia. lia.
Qed.

Lemma last_band_samples_ok im m :
  samples_ok im -> last_band im = Ok m -> samples_ok m.
Proof.
  intros Hok. unfold last_band.
  assert (Hband : forall i, samples_ok (getband im i)).
  { intros i. unfold samples_ok, getband. cbn [pixels].
    apply Forall_fmap. eapply Forall_impl; [exact Hok|].
    intros p Hp. cbn. constructor; [|constructor].
    destruct (nth_in_or_default i p 0) as [Hin| ->]; [|lia].
    rewrite List.Forall_forall in Hp. now apply Hp. }
  destruct im as [md w h px]. destruct md; cbn; intros [= <-];
    first [exact Hok | apply Hband].
Qed.

Lemma invert_twice m m1 :
  samples_ok m -> ImageOps_invert m = Ok m1 -> ImageOps_invert m1 = Ok m.
Proof.
  intros Hok. unfold ImageOps_invert.
  destruct (mode m) eqn:Hmode; try discriminate; intros [= <-];
    cbn [point mode]; rewrite Hmode;
    change (Ok (point invert_lut (point invert_lut m)) = Ok m);
    now rewrite point_invert_twice.
Qed.

(** C8: for an image of 8-bit samples, whenever MaskFromAlphaInvocation
    with [invert = true] returns, inverting the mask it stored once more
    gives, pixel for pixel, the mask the invocation stores with
    [invert = false]; and it returns for every mode but "P", "I" and "F",
    whose single band ImageOps.invert refuses. *)
Theorem mask_inverted_twice lib ctx self name s r im :
  find_record name (images s) = Some r ->
  heap s !! record_object r = Some im ->
  samples_ok im ->
  (forall out1 s1,
     invoke lib ctx (MaskFromAlphaInvocation self (Some (mkImageField name)) true) s
       = Ok (out1, s1) ->
     exists m1 out0 s0 m0,
       stored_image s1 (image_name (output_field out1)) = Some m1 /\
       invoke lib ctx (MaskFromAlphaInvocation self (Some (mkImageField name)) false) s
         = Ok (out0, s0) /\
       stored_image s0 (image_name (output_field out0)) = Some m0 /\
       ImageOps_invert m1 = Ok m0) /\
  (In (mode im) [Mode1; ModeL; ModeRGB; ModeRGBA; ModeLA; ModeCMYK; ModeYCbCr;
                 ModeLAB; ModeHSV; ModePA; ModeRGBX; ModeRGBa; ModeLa] ->
   exists out1 s1,
     invoke lib ctx (MaskFromAlphaInvocation self (Some (mkImageField name)) true) s
       = Ok (out1, s1)).
Proof.
  intros Hf Him Hok. split.
  - intros out1 s1 Hrun1.
    destruct (mask_from_alpha_inv lib ctx self name true s r im out1 s1 Hf Him Hrun1)
      as (m & m1 & Hm & Hinv & Hst1 & _).
    cbn in Hinv.
    destruct (mask_from_alpha_run lib ctx self name false s r im m m Hf Him Hm eq_refl)
      as (out0 & s0 & Hrun0).
    destruct (mask_from_alpha_inv lib ctx self name false s r im out0 s0 Hf Him Hrun0)
      as (m' & m0 & Hm' & Hinv0 & Hst0 & _).
    rewrite Hm in Hm'. injection Hm' as <-. cbn in Hinv0. injection Hinv0 as <-.
    exists m1, out0, s0, m. repeat split; try assumption.
    apply invert_twice; [|exact Hinv].
    exact (last_band_samples_ok im m Hok Hm).
  - intros Hmode.
    destruct (last_band_ok im) as (m & Hm & _).
    assert (Hinv : exists m1, ImageOps_invert m = Ok m1).
    { unfold last_band in Hm. unfold ImageOps_invert.
      destruct im as [md w h px]. cbn in Hmode.
      destruct md; cbn in Hm; injection Hm as <-; cbn; eauto;
        exfalso; repeat (destruct Hmode as [Hmode|Hmode]; try discriminate Hmode);
        contradiction. }
    destruct Hinv as (m1 & Hinv).
    exact (mask_from_alpha_run lib ctx self name true s r im m m1 Hf Him Hm Hinv).
Qed.

(** The mask of a two-pixel "RGB" image is its blue band. *)
Lemma mask_is_last_band_witness :
  exists out s' m,
    invoke example_library example_context
      (MaskFromAlphaInvocation example_self example_field false)
      (example_state rgb_2x1) = Ok (out, s') /\
    stored_image s' (image_name (output_field out)) = Some m /\
    getchannel rgb_2x1 "B" = Ok m /\
    pixels m = [[3]; [6]].
Proof.
  destruct (mask_is_last_band example_library example_context example_self 7
              (example_state rgb_2x1)
              (mkRecord 7 0 EXTERNAL USER "upload" "session-0" false None) rgb_2x1)
    as (out & s' & m & Hrun & Hst & _ & _ & Hrgb & _); [reflexivity | reflexivity |].
  exists out, s', m. destruct (Hrgb eq_refl) as [Hblue _].
  repeat split; try assumption.
  vm_compute in Hblue. now injection Hblue as <-.
Defined.

(** The inverted mask of the same image, inverted again. *)
Lemma mask_inverted_twice_witness :
  exists out1 s1 m1,
    invoke example_library example_context
      (MaskFromAlphaInvocation example_self example_field true)
      (example_state rgb_2x1) = Ok (out1, s1) /\
    stored_image s1 (image_name (output_field out1)) = Some m1 /\
    ImageOps_invert m1 = Ok (mkImage ModeL 2 1 [[3]; [6]]).
Proof.
  destruct (mask_inverted_twice example_library example_context example_self 7
              (example_state rgb_2x1)
              (mkRecord 7 0 EXTERNAL USER "upload" "session-0" false None) rgb_2x1)
    as [Htwice Hreturns]; [reflexivity | reflexivity | |].
  { repeat constructor; lia. }
  destruct Hreturns as (out1 & s1 & Hrun1); [cbn; auto 20|].
  destruct (Htwice out1 s1 Hrun1) as (m1 & out0 & s0 & m0 & Hst1 & Hrun0 & Hst0 & Hinv).
  exists out1, s1, m1. repeat split; try assumption.
  vm_compute in Hrun0. injection Hrun0 as <- <-.
  vm_compute in Hst0. injection Hst0 as <-.
  exact Hinv.
Defined.

(** ** Resize and scale *)

Lemma resize_shape lib im w h rs res :
  resize lib im (w, h) rs = Ok res -> width res = w /\ height res = h.
Proof.
  unfold resize.
  destruct (Z.eqb_spec w (width im)) as [->|Hw];
    [destruct (Z.eqb_spec h (height im)) as [->|Hh]|]; cbn [andb].
  - now intros [= <-].
  - destruct (negb _); [discriminate|]. destruct (_ || _); [discriminate|].
    destruct (resample_pixels _ _ _ _); [|discriminate]. now intros [= <-].
  - destruct (negb _); [discriminate|]. destruct (_ || _); [discriminate|].
    destruct (resample_pixels _ _ _ _); [|discriminate]. now intros [= <-].
Qed.

(** [Image.resize] returns a copy of the image or an image of a size
    between 1 and [INT_MAX]. *)
Lemma resize_inv lib im w h rs res :
  resize lib im (w, h) rs = Ok res ->
  (w = width im /\ h = height im) \/ (1 <= w <= INT_MAX /\ 1 <= h <= INT_MAX).
Proof.
  unfold resize.
  destruct ((w =? width im) && (h =? height im)) eqn:Hsame.
  - apply andb_true_iff in Hsame as [Hw Hh].
    apply Z.eqb_eq in Hw, Hh. auto.
  - destruct (c_int w && c_int h) eqn:Hc; cbn [negb]; [|discriminate].
    apply andb_true_iff in Hc as [Hcw Hch].
    apply c_int_spec in Hcw, Hch.
    destruct (Z.ltb_spec w 1); [discriminate|].
    destruct (Z.ltb_spec h 1); [discriminate|]. intros _. right. lia.
Qed.

Lemma resize_ok lib im w h rs px :
  1 <= w <= INT_MAX -> 1 <= h <= INT_MAX ->
  resample_pixels lib (resample_filter im rs) im (w, h) = Ok px ->
  exists res, resize lib im (w, h) rs = Ok res.
Proof.
  intros Hw Hh Hpx. unfold resize.
  destruct ((w =? width im) && (h =? height im)); [eauto|].
  rewrite !c_int_nonneg by lia. cbn [andb negb].
  destruct (Z.ltb_spec w 1); [lia|]. destruct (Z.ltb_spec h 1); [lia|].
  cbn [orb]. rewrite Hpx. eauto.
Qed.

(** *** The binary64 product *)

Lemma round_half_even_nonneg a b : 0 <= a -> 0 < b -> 0 <= Float.round_half_even a b.
Proof.
  intros Ha Hb. unfold Float.round_half_even.
  pose proof (Z.div_pos a b Ha Hb).
  destruct (_ ?= _); [destruct (Z.even _)| |]; lia.
Qed.

Lemma round_half_even_floor a b : 0 < b -> a / b <= Float.round_half_even a b.
Proof.
  intros Hb. unfold Float.round_half_even.
  destruct (2 * (a mod b) ?= b); [destruct (Z.even (a / b))| |]; lia.
Qed.

Lemma round_half_even_ceil a b : 0 < b -> Float.round_half_even a b <= a / b + 1.
Proof.
  intros Hb. unfold Float.round_half_even.
  destruct (2 * (a mod b) ?= b); [destruct (Z.even (a / b))| |]; lia.
Qed.

Lemma round_half_even_exact a : Float.round_half_even a 1 = a.
Proof.
  unfold Float.round_half_even. rewrite Z.mod_1_r, Z.div_1_r. reflexivity.
Qed.

Lemma Qnum_nonneg (q : Q) : 0 <= Qnum q <-> (0 <= q)%Q.
Proof. unfold Qle. cbn. lia. Qed.

Lemma Qred_inject_Z z : Qred (inject_Z z) = inject_Z z.
Proof.
  unfold Qred, inject_Z. cbn [Qnum Qden].
  pose proof (Z.ggcd_gcd z 1) as Hg.
  pose proof (Z.ggcd_correct_divisors z 1) as Hc.
  destruct (Z.ggcd z 1) as (g & a & b). cbn [fst snd] in *.
  rewrite Z.gcd_1_r in Hg. subst g. destruct Hc as [Ha Hb].
  rewrite Z.mul_1_l in Ha, Hb. subst a b. reflexivity.
Qed.

Lemma trunc_floor q : 0 <= Qnum q -> Float.trunc q = Qfloor q.
Proof.
  intros Hq. unfold Float.trunc. destruct q as [n d]. cbn in *.
  apply Z.quot_div_nonneg; lia.
Qed.

(** [ilog2 n d] is the exponent of [n / d], on both sides as far as the
    rounding needs it. *)
Lemma ilog2_upper n d k :
  0 <= k -> Zpos n < 2 ^ k * Zpos d -> Float.ilog2 n d < k.
Proof.
  intros Hk Hlt. unfold Float.ilog2.
  pose proof (Z.log2_nonneg (Zpos n)) as Ha.
  pose proof (Z.log2_nonneg (Zpos d)) as Hb.
  destruct (Z.log2_spec (Zpos n) ltac:(lia)) as [Hn _].
  destruct (Z.log2_spec (Zpos d) ltac:(lia)) as [_ Hd].
  set (a := Z.log2 (Zpos n)) in *. set (b := Z.log2 (Zpos d)) in *.
  assert (Hab : a - b <= k).
  { destruct (Z.le_gt_cases (a - b) k) as [|Hgt]; [assumption|exfalso].
    assert (2 ^ (k + Z.succ b) <= 2 ^ a) by (apply Z.pow_le_mono_r; lia).
    rewrite Z.pow_add_r in * by lia.
    assert (0 < 2 ^ k) by (apply Z.pow_pos_nonneg; lia).
    nia. }
  destruct (Z.leb_spec 0 (a - b)).
  - destruct (Z.ltb_spec (Zpos n) (2 ^ (a - b) * Zpos d)) as [|Hge]; [lia|].
    destruct (Z.eq_dec (a - b) k) as [E|]; [|lia].
    rewrite E in Hge. lia.
  - destruct (_ <? _); lia.
Qed.

Lemma ilog2_lower n d :
  0 <= Float.ilog2 n d -> 2 ^ Float.ilog2 n d * Zpos d <= Zpos n.
Proof.
  unfold Float.ilog2.
  pose proof (Z.log2_nonneg (Zpos n)) as Ha.
  pose proof (Z.log2_nonneg (Zpos d)) as Hb.
  destruct (Z.log2_spec (Zpos n) ltac:(lia)) as [Hn _].
  destruct (Z.log2_spec (Zpos d) ltac:(lia)) as [_ Hd].
  set (a := Z.log2 (Zpos n)) in *. set (b := Z.log2 (Zpos d)) in *.
  destruct (Z.leb_spec 0 (a - b)).
  - destruct (Z.ltb_spec (Zpos n) (2 ^ (a - b) * Zpos d)) as [Hlt|Hge]; [|intros _; lia].
    intros He.
    assert (E : 2 ^ (a - b - 1) * 2 ^ Z.succ b = 2 ^ a)
      by (rewrite <- Z.pow_add_r by lia; f_equal; lia).
    assert (0 < 2 ^ (a - b - 1)) by (apply Z.pow_pos_nonneg; lia).
    nia.
  - destruct (_ <? _); lia.
Qed.

Lemma round_pos64_nonneg n d : 0 <= Qnum (Float.round_pos64 n d).
Proof.
  unfold Float.round_pos64.
  destruct (0 <=? Z.min (Float.binary64 - 1 - Float.ilog2 n d) 1074) eqn:Hs.
  - apply Qnum_nonneg. rewrite Qred_correct. apply Qnum_nonneg. cbn [Qnum].
    apply round_half_even_nonneg; [|lia].
    apply Z.mul_nonneg_nonneg; [lia|]. apply Z.pow_nonneg. lia.
  - cbn [inject_Z Qnum]. apply Z.mul_nonneg_nonneg; [|apply Z.pow_nonneg; lia].
    apply round_half_even_nonneg; [lia|].
    apply Z.mul_pos_pos; [lia|]. apply Z.pow_pos_nonneg; [lia|].
    apply Z.leb_gt in Hs. lia.
Qed.

(** A product that is not negative is a float that is not negative, or
    the positive infinity. *)
Lemma round64_nonneg q :
  0 <= Qnum q ->
  Float.round64 q = Float.Inf false \/
  exists r, Float.round64 q = Float.Fin r /\ 0 <= Qnum r.
Proof.
  intros Hq. unfold Float.round64.
  set (r := match Qnum q with
            | 0 => 0%Q
            | Z.pos n => Float.round_pos64 n (Qden q)
            | Z.neg n => (- Float.round_pos64 n (Qden q))%Q
            end).
  assert (Hr : 0 <= Qnum r).
  { unfold r. destruct (Qnum q) as [|n|n]; [cbn; lia| |lia].
    apply round_pos64_nonneg. }
  destruct (Float.overflows64 r).
  - left. unfold Float.is_neg. destruct (Z.ltb_spec (Qnum r) 0); [lia|reflexivity].
  - right. eauto.
Qed.

(** Below 2^53 the product is rounded to a float between the two integers
    around it. *)
Lemma round64_small q :
  0 <= Qnum q -> Qnum q < 2 ^ 53 * Zpos (Qden q) ->
  exists r, Float.round64 q = Float.Fin r /\
            (inject_Z (Qfloor q) <= r)%Q /\ (r <= inject_Z (Qfloor q + 1))%Q.
Proof.
  intros Hq Hlt. destruct q as [n d]. cbn [Qnum Qden] in *.
  unfold Float.round64. cbn [Qnum Qden].
  destruct n as [|n|n]; [|clear Hq|lia].
  { exists 0%Q. split; [reflexivity|].
    change (Qfloor (0 # d)) with (0 / Zpos d). rewrite Zdiv_0_l.
    split; unfold Qle; cbn; lia. }
  pose proof (ilog2_upper n d 53 ltac:(lia) Hlt) as He.
  assert (Hfl : Qfloor (Zpos n # d) = Zpos n / Zpos d) by reflexivity.
  rewrite Hfl. set (N := Zpos n / Zpos d).
  assert (HN : N * Zpos d <= Zpos n < (N + 1) * Zpos d).
  { unfold N. pose proof (Z.mul_div_le (Zpos n) (Zpos d) ltac:(lia)).
    pose proof (Z.mul_succ_div_gt (Zpos n) (Zpos d) ltac:(lia)). lia. }
  assert (HN53 : N + 1 <= 2 ^ 53).
  { assert (N < 2 ^ 53); [|lia]. apply Z.div_lt_upper_bound; lia. }
  assert (HN0 : 0 <= N) by (apply Z.div_pos; lia).
  assert (Hr : (inject_Z N <= Float.round_pos64 n d)%Q /\
               (Float.round_pos64 n d <= inject_Z (N + 1))%Q).
  { unfold Float.round_pos64.
    set (s := Z.min (Float.binary64 - 1 - Float.ilog2 n d) 1074).
    assert (Hs : 0 <= s) by (unfold s, Float.binary64; lia).
    destruct (Z.leb_spec 0 s); [|lia].
    assert (Hpow : 0 < 2 ^ s) by (apply Z.pow_pos_nonneg; lia).
    pose proof (round_half_even_floor (Zpos n * 2 ^ s) (Zpos d) ltac:(lia)) as Hlo.
    pose proof (round_half_even_ceil (Zpos n * 2 ^ s) (Zpos d) ltac:(lia)) as Hhi.
    assert (N * 2 ^ s <= Zpos n * 2 ^ s / Zpos d)
      by (apply Z.div_le_lower_bound; nia).
    assert (Zpos n * 2 ^ s / Zpos d < (N + 1) * 2 ^ s)
      by (apply Z.div_lt_upper_bound; nia).
    rewrite Qred_correct. unfold Qle, inject_Z. cbn [Qnum Qden].
    rewrite Z2Pos.id by assumption. lia. }
  destruct Hr as [Hlo Hhi].
  exists (Float.round_pos64 n d). split; [|auto].
  assert (Hov : Float.overflows64 (Float.round_pos64 n d) = false).
  { unfold Float.overflows64. apply Z.leb_gt.
    pose proof (round_pos64_nonneg n d) as H0.
    rewrite Z.abs_eq by assumption.
    unfold Qle, inject_Z in Hhi. cbn [Qnum Qden] in Hhi.
    assert (2 ^ 53 < 2 ^ 1024) by (apply Z.pow_lt_mono_r; lia).
    nia. }
  now rewrite Hov.
Qed.

(** From 2^53 on the product is rounded to a float of at least 2^53, or
    to the infinity. *)
Lemma round64_large q :
  2 ^ 53 * Zpos (Qden q) <= Qnum q ->
  Float.round64 q = Float.Inf false \/
  exists r, Float.round64 q = Float.Fin r /\ (inject_Z (2 ^ 53) <= r)%Q.
Proof.
  intros Hge. destruct q as [n d]. cbn [Qnum Qden] in *.
  assert (H53 : 0 < 2 ^ 53) by (apply Z.pow_pos_nonneg; lia).
  destruct n as [|n|n]; [lia| |lia].
  destruct (round64_nonneg (Zpos n # d)) as [Hinf|(r & Hr & _)];
    [cbn; lia | now left | right].
  exists r. split; [exact Hr|].
  unfold Float.round64 in Hr. cbn [Qnum Qden] in Hr.
  destruct (Float.overflows64 _); [discriminate|]. injection Hr as <-.
  unfold Float.round_pos64.
  set (e := Float.ilog2 n d).
  set (s := Z.min (Float.binary64 - 1 - e) 1074).
  destruct (Z.leb_spec 0 s) as [Hs|Hs].
  - assert (Hpow : 0 < 2 ^ s) by (apply Z.pow_pos_nonneg; lia).
    pose proof (round_half_even_floor (Zpos n * 2 ^ s) (Zpos d) ltac:(lia)) as Hlo.
    assert (2 ^ 53 * 2 ^ s <= Zpos n * 2 ^ s / Zpos d)
      by (apply Z.div_le_lower_bound; nia).
    rewrite Qred_correct. unfold Qle, inject_Z. cbn [Qnum Qden].
    rewrite Z2Pos.id by assumption. lia.
  - assert (Hs' : - s = e - 52) by (unfold s, Float.binary64 in *; lia).
    rewrite Hs'. assert (He : 53 <= e) by lia.
    pose proof (ilog2_lower n d ltac:(fold e; lia)) as Hlow. fold e in Hlow.
    assert (E : 2 ^ e = 2 ^ 52 * 2 ^ (e - 52))
      by (rewrite <- Z.pow_add_r by lia; f_equal; lia).
    assert (Hpow : 0 < 2 ^ (e - 52)) by (apply Z.pow_pos_nonneg; lia).
    pose proof (round_half_even_floor (Zpos n) (Zpos d * 2 ^ (e - 52)) ltac:(nia)) as Hlo.
    assert (2 ^ 52 <= Zpos n / (Zpos d * 2 ^ (e - 52)))
      by (apply Z.div_le_lower_bound; nia).
    assert (E1 : 2 ^ 53 = 2 ^ 52 * 2) by reflexivity.
    assert (2 <= 2 ^ (e - 52)).
    { change 2 with (2 ^ 1) at 1. apply Z.pow_le_mono_r; lia. }
    unfold Qle, inject_Z. cbn [Qnum Qden]. nia.
Qed.

(** A float that truncates into a C int is within one of the product it
    rounds: its integer part is the product's, or it is the next integer
    itself. *)
Lemma round64_bracket q r :
  0 <= Qnum q -> Float.round64 q = Float.Fin r -> Qfloor r <= INT_MAX ->
  Qfloor r = Qfloor q \/ (r == inject_Z (Qfloor q + 1))%Q.
Proof.
  intros Hq Hr Hmax.
  destruct (Z.lt_ge_cases (Qnum q) (2 ^ 53 * Zpos (Qden q))) as [Hlt|Hge].
  - destruct (round64_small q Hq Hlt) as (r' & Hr' & Hlo & Hhi).
    rewrite Hr in Hr'. injection Hr' as <-.
    pose proof (Qfloor_resp_le _ _ Hlo) as H1. rewrite Qfloor_Z in H1.
    pose proof (Qfloor_resp_le _ _ Hhi) as H2. rewrite Qfloor_Z in H2.
    destruct (Z.eq_dec (Qfloor r) (Qfloor q)) as [|Hne]; [now left|right].
    apply Qle_antisym; [exact Hhi|].
    replace (Qfloor q + 1) with (Qfloor r) by lia. apply Qfloor_le.
  - exfalso. destruct (round64_large q Hge) as [Hinf|(r' & Hr' & Hlo)].
    + rewrite Hr in Hinf. discriminate.
    + rewrite Hr in Hr'. injection Hr' as <-.
      pose proof (Qfloor_resp_le _ _ Hlo) as H1. rewrite Qfloor_Z in H1.
      assert (INT_MAX < 2 ^ 53) by (vm_compute; reflexivity). lia.
Qed.

Lemma ilog2_int p : Float.ilog2 p 1 = Z.log2 (Zpos p).
Proof.
  unfold Float.ilog2. change (Z.log2 1) with 0. rewrite Z.sub_0_r.
  pose proof (Z.log2_nonneg (Zpos p)).
  destruct (Z.log2_spec (Zpos p) ltac:(lia)) as [Hlo _].
  destruct (Z.leb_spec 0 (Z.log2 (Zpos p))); [|lia].
  destruct (Z.ltb_spec (Zpos p) (2 ^ Z.log2 (Zpos p) * 1)); lia.
Qed.

(** The size of an image is a float as it is. *)
Lemma float_of_int_exact n :
  0 <= n <= INT_MAX -> float_of_int n = Ok (Float.of_Z n).
Proof.
  intros Hn. unfold float_of_int, Float.of_Z.
  assert (Hr : Float.round64 (inject_Z n) = Float.Fin (inject_Z n));
    [|now rewrite Hr].
  destruct n as [|p|p]; [reflexivity| |lia].
  unfold Float.round64. cbn [inject_Z Qnum Qden].
  assert (Hp : Float.round_pos64 p 1 = inject_Z (Zpos p)).
  { unfold Float.round_pos64. rewrite ilog2_int.
    assert (Hlog : Z.log2 (Zpos p) <= 30).
    { change 30 with (Z.log2 INT_MAX). apply Z.log2_le_mono. lia. }
    pose proof (Z.log2_nonneg (Zpos p)).
    set (s := Z.min (Float.binary64 - 1 - Z.log2 (Zpos p)) 1074).
    assert (Hs : 0 <= s) by (unfold s, Float.binary64; lia).
    destruct (Z.leb_spec 0 s); [|lia].
    rewrite round_half_even_exact, <- Qred_inject_Z. apply Qred_complete.
    unfold Qeq, inject_Z. cbn [Qnum Qden].
    rewrite Z2Pos.id by (apply Z.pow_pos_nonneg; lia). lia. }
  rewrite Hp. unfold Float.overflows64, inject_Z. cbn [Qnum Qden].
  assert (Hbig : INT_MAX < 2 ^ 1024 * 1) by (vm_compute; reflexivity).
  destruct (Z.leb_spec (2 ^ 1024 * 1) (Z.abs (Zpos p))); [lia|reflexivity].
Qed.

(** For a dimension [n] of an image and a factor [f > 0], [int(n * f)]
    raises when the product is an infinity and is otherwise the floor of
    the product, the float nearest to [n * f]. *)
Lemma scaled_floor n f :
  0 <= n <= INT_MAX -> (0 < f)%Q ->
  (Float.round64 (inject_Z n * f) = Float.Inf false /\
   scaled n (Some (Float.Fin f)) = Raise OverflowError) \/
  (exists p, Float.round64 (inject_Z n * f) = Float.Fin p /\ 0 <= Qnum p /\
             scaled n (Some (Float.Fin f)) = Ok (Qfloor p)).
Proof.
  intros Hn Hf. unfold scaled, int_times_float.
  rewrite float_of_int_exact by exact Hn. cbn [Float.of_Z Float.mul64].
  destruct (round64_nonneg (inject_Z n * f)) as [Hinf|(p & Hp & Hp0)].
  - cbn [Qnum Qmult inject_Z]. apply Z.mul_nonneg_nonneg; [lia|].
    unfold Qlt in Hf. cbn in Hf. lia.
  - left. rewrite Hinf. auto.
  - right. exists p. rewrite Hp. cbn [py_int]. rewrite trunc_floor by exact Hp0. auto.
Qed.

Lemma scale_run lib ctx self name sf rs s r im w h res :
  find_record name (images s) = Some r ->
  heap s !! record_object r = Some im ->
  scaled (width im) sf = Ok w -> scaled (height im) sf = Ok h ->
  resize lib im (w, h) (PIL_RESAMPLING_MAP rs) = Ok res ->
  invoke lib ctx (ImageScaleInvocation self (Some (mkImageField name)) sf rs) s
  = Ok (ImageOutput (mkImageField (new_name (images s))) (width res) (height res),
        after_create ctx self GENERAL None s res).
Proof.
  intros Hf Him Hw Hh Hres. unfold invoke, ImageScale_invoke.
  cbn [field_image_name image_name]. unfold ret at 1. unfold bind at 1.
  erewrite bind_run by (unfold get_pil_image; rewrite Hf; reflexivity).
  cbv zeta.
  erewrite bind_run by (unfold deref; rewrite Him; reflexivity).
  erewrite bind_run by (unfold lift; rewrite Hw; reflexivity).
  erewrite bind_run by (unfold lift; rewrite Hh; reflexivity).
  erewrite bind_run.
  2:{ unfold call1.
      erewrite bind_run by (unfold deref; rewrite Him; reflexivity).
      erewrite bind_run by (unfold lift; rewrite Hres; reflexivity).
      reflexivity. }
  erewrite bind_run.
  2:{ unfold create_general, create. cbn [heap images logged].
      rewrite lookup_snoc_new. reflexivity. }
  reflexivity.
Qed.

Lemma scale_inv lib ctx self name sf rs s r im out s' :
  find_record name (images s) = Some r ->
  heap s !! record_object r = Some im ->
  invoke lib ctx (ImageScaleInvocation self (Some (mkImageField name)) sf rs) s
    = Ok (out, s') ->
  exists w h res,
    scaled (width im) sf = Ok w /\ scaled (height im) sf = Ok h /\
    resize lib im (w, h) (PIL_RESAMPLING_MAP rs) = Ok res /\
    out = ImageOutput (mkImageField (new_name (images s))) (width res) (height res) /\
    s' = after_create ctx self GENERAL None s res.
Proof.
  intros Hf Him H.
  assert (Hsteps : exists w h res,
             scaled (width im) sf = Ok w /\ scaled (height im) sf = Ok h /\
             resize lib im (w, h) (PIL_RESAMPLING_MAP rs) = Ok res).
  { unfold invoke, ImageScale_invoke in H.
    invert_bind H n0 s0 H0. apply field_image_name_inv in H0 as [[= <-] ->].
    invert_bind H o s1 H1. apply get_pil_image_inv in H1 as [-> (r' & Hf' & ->)].
    rewrite Hf in Hf'. injection Hf' as <-. cbv zeta in H.
    invert_bind H im' s2 H2. apply deref_inv in H2 as [H2 ->].
    rewrite Him in H2. injection H2 as <-.
    invert_bind H w s3 H3. apply lift_inv in H3 as [Hw ->].
    invert_bind H h s4 H4. apply lift_inv in H4 as [Hh ->].
    invert_bind H o' s5 H5. apply call1_inv in H5 as (im' & res & Him' & Hres & _).
    rewrite Him in Him'. injection Him' as <-. eauto 6. }
  destruct Hsteps as (w & h & res & Hw & Hh & Hres).
  rewrite (scale_run lib ctx self name sf rs s r im w h res Hf Him Hw Hh Hres) in H.
  injection H as <- <-. eauto 8.
Qed.

(** C10: the image ImageResizeInvocation stores has exactly the requested
    width and height, and the invocation returns for every size from 1 x 1
    up to the C core's [INT_MAX] that the core resamples to; for a
    [scale_factor > 0] the image ImageScaleInvocation stores is
    [floor(width * scale_factor)] wide and [floor(height * scale_factor)]
    high, the products being the binary64 ones Python computes: the float
    nearest to the exact product, whose integer part is the exact
    product's or, when the float is the next integer itself, one more.
    It returns whenever both products are finite and truncate to sizes
    the core takes.  The outputs report the same sizes. *)
Theorem resize_and_scale_dimensions lib ctx self name s r im :
  find_record name (images s) = Some r ->
  heap s !! record_object r = Some im ->
  0 <= width im <= INT_MAX -> 0 <= height im <= INT_MAX ->
  (forall w h rs out s',
     invoke lib ctx
       (ImageResizeInvocation self (Some (mkImageField name)) (Some w) (Some h) rs) s
       = Ok (out, s') ->
     exists res,
       stored_image s' (image_name (output_field out)) = Some res /\
       width res = w /\ height res = h /\
       output_width out = w /\ output_height out = h) /\
  (forall w h rs px,
     1 <= w <= INT_MAX -> 1 <= h <= INT_MAX ->
     resample_pixels lib (resample_filter im (PIL_RESAMPLING_MAP rs)) im (w, h) = Ok px ->
     exists out s',
       invoke lib ctx
         (ImageResizeInvocation self (Some (mkImageField name)) (Some w) (Some h) rs) s
         = Ok (out, s')) /\
  (forall f rs, Float.is_binary64 f = true -> (0 < f)%Q ->
     (forall out s',
        invoke lib ctx
          (ImageScaleInvocation self (Some (mkImageField name))
             (Some (Float.Fin f)) rs) s = Ok (out, s') ->
        exists pw ph res,
          Float.round64 (inject_Z (width im) * f) = Float.Fin pw /\
          Float.round64 (inject_Z (height im) * f) = Float.Fin ph /\
          stored_image s' (image_name (output_field out)) = Some res /\
          width res = Qfloor pw /\ height res = Qfloor ph /\
          output_width out = Qfloor pw /\ output_height out = Qfloor ph /\
          (Qfloor pw = Qfloor (inject_Z (width im) * f) \/
           (pw == inject_Z (Qfloor (inject_Z (width im) * f) + 1))%Q) /\
          (Qfloor ph = Qfloor (inject_Z (height im) * f) \/
           (ph == inject_Z (Qfloor (inject_Z (height im) * f) + 1))%Q)) /\
     (forall pw ph px,
        Float.round64 (inject_Z (width im) * f) = Float.Fin pw ->
        Float.round64 (inject_Z (height im) * f) = Float.Fin ph ->
        1 <= Qfloor pw <= INT_MAX -> 1 <= Qfloor ph <= INT_MAX ->
        resample_pixels lib (resample_filter im (PIL_RESAMPLING_MAP rs)) im
          (Qfloor pw, Qfloor ph) = Ok px ->
        exists out s',
          invoke lib ctx
            (ImageScaleInvocation self (Some (mkImageField name))
               (Some (Float.Fin f)) rs) s = Ok (out, s'))).
Proof.
  intros Hf Him Hw0 Hh0. split; [|split].
  - intros w h rs out s' H.
    destruct (derived_inv ctx self _ GENERAL None name s r im out s' Hf Him H)
      as (res & Hres & -> & ->).
    cbn [requested_size] in Hres. apply resize_shape in Hres as [Hw Hh].
    exists res. split; [apply stored_after_new|]. cbn. auto.
  - intros w h rs px Hw Hh Hpx.
    destruct (resize_ok lib im w h (PIL_RESAMPLING_MAP rs) px Hw Hh Hpx) as (res & Hres).
    eexists _, _.
    exact (derived_run ctx self
             (fun im => match requested_size (Some w) (Some h) with
                        | Ok sz => resize lib im sz (PIL_RESAMPLING_MAP rs)
                        | Raise e => Raise e
                        end)
             GENERAL None name s r im res Hf Him Hres).
  - intros f rs _ Hpos.
    assert (Hq : forall n, 0 <= n -> 0 <= Qnum (inject_Z n * f)).
    { intros n Hn. cbn [Qnum Qmult inject_Z]. apply Z.mul_nonneg_nonneg; [lia|].
      unfold Qlt in Hpos. cbn in Hpos. lia. }
    split.
    + intros out s' H.
      destruct (scale_inv lib ctx self name _ rs s r im out s' Hf Him H)
        as (w & h & res & Hw & Hh & Hres & -> & ->).
      destruct (scaled_floor (width im) f Hw0 Hpos) as [[_ Hsw]|(pw & Hpw & Hpw0 & Hsw)];
        [rewrite Hsw in Hw; discriminate|].
      destruct (scaled_floor (height im) f Hh0 Hpos) as [[_ Hsh]|(ph & Hph & Hph0 & Hsh)];
        [rewrite Hsh in Hh; discriminate|].
      rewrite Hsw in Hw. injection Hw as <-. rewrite Hsh in Hh. injection Hh as <-.
      pose proof (resize_inv _ _ _ _ _ _ Hres) as Hsize.
      apply resize_shape in Hres as [Hw Hh].
      exists pw, ph, res. split; [exact Hpw|]. split; [exact Hph|].
      split; [apply stored_after_new|]. cbn [output_width output_height].
      repeat (split; [assumption|]).
      split; (eapply round64_bracket; [apply Hq; lia | eassumption | lia]).
    + intros pw ph px Hpw Hph H1 H2 Hpx.
      destruct (scaled_floor (width im) f Hw0 Hpos) as [[Hinf _]|(pw' & Hpw' & _ & Hsw)];
        [rewrite Hpw in Hinf; discriminate|].
      destruct (scaled_floor (height im) f Hh0 Hpos) as [[Hinf _]|(ph' & Hph' & _ & Hsh)];
        [rewrite Hph in Hinf; discriminate|].
      rewrite Hpw in Hpw'. injection Hpw' as <-.
      rewrite Hph in Hph'. injection Hph' as <-.
      destruct (resize_ok lib im _ _ (PIL_RESAMPLING_MAP rs) px H1 H2 Hpx) as (res & Hres).
      eexists _, _.
      exact (scale_run lib ctx self name _ rs s r im _ _ res Hf Him Hsw Hsh Hres).
Qed.

(** The product is Python's: [10 * 0.7] is [7.0] in binary64, although the
    factor, a binary64 number, lies below 7/10 and the exact product
    below 7. *)
Lemma ten_times_seven_tenths :
  Float.is_binary64 seven_tenths = true /\
  int_times_float 10 (Float.Fin seven_tenths) = Ok (Float.Fin 7) /\
  Qfloor (10 * seven_tenths) = 6.
Proof. split; [|split]; vm_compute; reflexivity. Qed.

(** A 10 x 10 image scaled by 0.7 is stored 7 x 7. *)
Lemma resize_and_scale_dimensions_witness :
  exists out s',
    invoke example_library example_context
      (ImageScaleInvocation example_self example_field
         (Some (Float.Fin seven_tenths)) bicubic)
      (example_state gray_10x10) = Ok (out, s') /\
    output_width out = 7 /\ output_height out = 7.
Proof.
  destruct (resize_and_scale_dimensions example_library example_context
              example_self 7 (example_state gray_10x10)
              (mkRecord 7 0 EXTERNAL USER "upload" "session-0" false None) gray_10x10)
    as (_ & _ & Hscale);
    [reflexivity | reflexivity
     | split; vm_compute; discriminate | split; vm_compute; discriminate |].
  destruct (Hscale seven_tenths bicubic) as (Hdims & Hreturns);
    [vm_compute; reflexivity | reflexivity |].
  destruct (Hreturns 7%Q 7%Q (nearest_pixels gray_10x10 (7, 7))) as (out & s' & Hrun);
    [vm_compute; reflexivity | vm_compute; reflexivity
     | split; vm_compute; discriminate | split; vm_compute; discriminate
     | reflexivity |].
  exists out, s'. split; [exact Hrun|].
  destruct (Hdims out s' Hrun) as (pw & ph & res & Hpw & Hph & _ & _ & _ & Hw & Hh & _).
  vm_compute in Hpw. injection Hpw as <-.
  vm_compute in Hph. injection Hph as <-.
  split; assumption.
Defined.

(** ** NSFW blur *)

Lemma nsfw_disabled_run lib ctx self name meta s r im :
  find_record name (images s) = Some r ->
  heap s !! record_object r = Some im ->
  invoke lib ctx (ImageNSFWBlurInvocation self (Some (mkImageField name)) false meta) s
  = Ok (ImageOutput (mkImageField (new_name (images s))) (width im) (height im),
        mkState (heap s)
          (images s ++ [mkRecord (new_name (images s)) (record_object r) INTERNAL GENERAL
                          (id self) (graph_execution_state_id ctx)
                          (is_intermediate self) meta])
          (logged s)).
Proof.
  intros Hf Him. unfold invoke, ImageNSFWBlur_invoke.
  cbn [field_image_name image_name]. unfold ret at 1. unfold bind at 1.
  erewrite bind_run by (unfold get_pil_image; rewrite Hf; reflexivity).
  unfold ret at 1. unfold bind at 1.
  erewrite bind_run.
  2:{ unfold create_general, create. rewrite Him. reflexivity. }
  reflexivity.
Qed.

Lemma nsfw_flagged_run lib ctx self name meta s r im blurry c0 caution redacted :
  find_record name (images s) = Some r ->
  heap s !! record_object r = Some im ->
  from_pretrained lib (models_path ctx) = Ok tt ->
  array_ndim im = 3%nat ->
  has_nsfw_concept lib im = Ok true ->
  filter lib im (GaussianBlur 32) = Ok blurry ->
  open_caution_png lib = Ok c0 ->
  resize lib c0 (width c0 / 2, height c0 / 2) BICUBIC = Ok caution ->
  paste lib blurry caution (0, 0) (Some caution) = Ok redacted ->
  invoke lib ctx (ImageNSFWBlurInvocation self (Some (mkImageField name)) true meta) s
  = Ok (ImageOutput (mkImageField (new_name (images s))) (width redacted) (height redacted),
        mkState (<[length (heap s) := redacted]> (heap s ++ [blurry; c0; caution]))
          (images s ++ [mkRecord (new_name (images s)) (length (heap s)) INTERNAL GENERAL
                          (id self) (graph_execution_state_id ctx)
                          (is_intermediate self) meta])
          (logged s ++ ["Running NSFW checker"; "NSFW scan result: True"]%string)).
Proof.
  intros Hf Him Hload Hdim Hnsfw Hblur Hopen Hhalf Hpaste.
  assert (Hdst : (((heap s ++ [blurry]) ++ [c0]) ++ [caution]) !! length (heap s)
                 = Some blurry).
  { rewrite <- !app_assoc. cbn [app]. now rewrite list_lookup_middle. }
  unfold invoke, ImageNSFWBlur_invoke.
  cbn [field_image_name image_name]. unfold ret at 1. unfold bind at 1.
  erewrite bind_run by (unfold get_pil_image; rewrite Hf; reflexivity).
  erewrite bind_run.
  2:{ erewrite bind_run by reflexivity.
      erewrite bind_run by (unfold lift; rewrite Hload; reflexivity).
      erewrite bind_run by (unfold deref; cbn [heap]; rewrite Him; reflexivity).
      erewrite bind_run by (unfold lift, transpose_0312; rewrite Hdim; reflexivity).
      erewrite bind_run by (unfold lift; rewrite Hnsfw; reflexivity).
      erewrite bind_run by reflexivity.
      erewrite bind_run.
      2:{ unfold call1.
          erewrite bind_run by (unfold deref; cbn [heap]; rewrite Him; reflexivity).
          erewrite bind_run by (unfold lift; rewrite Hblur; reflexivity).
          reflexivity. }
      erewrite bind_run.
      2:{ unfold _get_caution_img.
          erewrite bind_run.
          2:{ erewrite bind_run by (unfold lift; rewrite Hopen; reflexivity).
              reflexivity. }
          unfold call1.
          erewrite bind_run
            by (unfold deref; cbn [heap]; rewrite lookup_snoc_new; reflexivity).
          erewrite bind_run by (unfold lift; rewrite Hhalf; reflexivity).
          reflexivity. }
      erewrite bind_run.
      2:{ unfold paste_in_place.
          erewrite bind_run.
          2:{ unfold deref. cbn [heap]. rewrite Hdst. reflexivity. }
          erewrite bind_run.
          2:{ unfold deref. cbn [heap]. rewrite lookup_snoc_new. reflexivity. }
          erewrite bind_run.
          2:{ erewrite bind_run.
              2:{ unfold deref. cbn [heap]. rewrite lookup_snoc_new. reflexivity. }
              reflexivity. }
          erewrite bind_run by (unfold lift; rewrite Hpaste; reflexivity).
          reflexivity. }
      reflexivity. }
  erewrite bind_run.
  2:{ unfold create_general, create. cbn [heap images logged].
      rewrite list_lookup_insert_eq by (rewrite !length_app; cbn; lia).
      reflexivity. }
  cbn [nsfw_line]. rewrite <- !app_assoc. cbn [app]. reflexivity.
Qed.

Lemma nsfw_flagged_stored lib ctx self name meta s r im blurry c0 caution redacted :
  find_record name (images s) = Some r ->
  heap s !! record_object r = Some im ->
  from_pretrained lib (models_path ctx) = Ok tt ->
  array_ndim im = 3%nat ->
  has_nsfw_concept lib im = Ok true ->
  filter lib im (GaussianBlur 32) = Ok blurry ->
  open_caution_png lib = Ok c0 ->
  resize lib c0 (width c0 / 2, height c0 / 2) BICUBIC = Ok caution ->
  paste lib blurry caution (0, 0) (Some caution) = Ok redacted ->
  exists out s',
    invoke lib ctx
      (ImageNSFWBlurInvocation self (Some (mkImageField name)) true meta) s
      = Ok (out, s') /\
    stored_image s' (image_name (output_field out)) = Some redacted /\
    stored_image s' name = Some im.
Proof.
  intros Hf Him Hload Hdim Hnsfw Hblur Hopen Hhalf Hpaste.
  pose proof (lookup_lt_heap _ _ _ Him) as Hlt.
  eexists _, _. split.
  { exact (nsfw_flagged_run lib ctx self name meta s r im blurry c0 caution redacted
             Hf Him Hload Hdim Hnsfw Hblur Hopen Hhalf Hpaste). }
  unfold stored_image. cbn [output_field image_name images heap]. split.
  - rewrite find_record_new by reflexivity. cbn [record_object].
    apply list_lookup_insert_eq. rewrite length_app. cbn. lia.
  - rewrite (find_record_old _ _ _ _ Hf).
    rewrite list_lookup_insert_ne by lia. now apply lookup_app_l_Some.
Qed.

(** C5, as the code has it: with [enabled = false] the image
    ImageNSFWBlurInvocation stores is the input image itself, unchanged;
    with [enabled = true] and an NSFW concept reported it stores a new
    image, the copy of the input blurred with a Gaussian of radius 32 with
    the half-size caution image pasted at [(0, 0)] through its own alpha,
    and leaves the input as it was.  (Nothing makes that image differ from
    the input.) *)
Theorem nsfw_stored_image lib ctx self name s r im :
  find_record name (images s) = Some r ->
  heap s !! record_object r = Some im ->
  (forall meta,
     exists out s',
       invoke lib ctx
         (ImageNSFWBlurInvocation self (Some (mkImageField name)) false meta) s
         = Ok (out, s') /\
       stored_image s' (image_name (output_field out)) = Some im /\
       stored_image s' name = Some im) /\
  (forall meta blurry c0 caution redacted,
     from_pretrained lib (models_path ctx) = Ok tt ->
     array_ndim im = 3%nat ->
     has_nsfw_concept lib im = Ok true ->
     filter lib im (GaussianBlur 32) = Ok blurry ->
     open_caution_png lib = Ok c0 ->
     resize lib c0 (width c0 / 2, height c0 / 2) BICUBIC = Ok caution ->
     paste lib blurry caution (0, 0) (Some caution) = Ok redacted ->
     exists out s',
       invoke lib ctx
         (ImageNSFWBlurInvocation self (Some (mkImageField name)) true meta) s
         = Ok (out, s') /\
       stored_image s' (image_name (output_field out)) = Some redacted /\
       stored_image s' name = Some im).
Proof.
  intros Hf Him. pose proof (lookup_lt_heap _ _ _ Him) as Hlt. split.
  - intros meta. eexists _, _. split; [exact (nsfw_disabled_run lib ctx self name meta s r im Hf Him)|].
    unfold stored_image. cbn [output_field image_name images heap]. split.
    + rewrite find_record_new by reflexivity. exact Him.
    + now rewrite (find_record_old _ _ _ _ Hf).
  - intros meta blurry c0 caution redacted.
    now apply (nsfw_flagged_stored lib ctx self name meta s r).
Qed.

(** C5, the claim as stated fails: an image that already shows the caution
    sign (here one amber pixel) is flagged, blurred, overlaid, and stored
    equal to the input. *)
Lemma nsfw_output_equals_input :
  exists out s',
    invoke example_library example_context
      (ImageNSFWBlurInvocation example_self example_field true None)
      (example_state (rgba_1x1 amber)) = Ok (out, s') /\
    stored_image s' (image_name (output_field out)) = Some (rgba_1x1 amber) /\
    stored_image (example_state (rgba_1x1 amber)) 7 = Some (rgba_1x1 amber).
Proof.
  eexists _, _.
  split; [vm_compute; reflexivity|].
  split; vm_compute; reflexivity.
Qed.

Lemma nsfw_stored_image_witness :
  exists out s',
    invoke example_library example_context
      (ImageNSFWBlurInvocation example_self example_field true None)
      (example_state (rgba_1x1 [10; 20; 30; 255])) = Ok (out, s') /\
    stored_image s' (image_name (output_field out)) = Some (rgba_1x1 amber) /\
    stored_image s' 7 = Some (rgba_1x1 [10; 20; 30; 255]).
Proof.
  destruct (nsfw_stored_image example_library example_context example_self 7
              (example_state (rgba_1x1 [10; 20; 30; 255]))
              (mkRecord 7 0 EXTERNAL USER "upload" "session-0" false None)
              (rgba_1x1 [10; 20; 30; 255]))
    as [_ Hflagged]; [reflexivity | reflexivity |].
  apply (Hflagged None (rgba_1x1 [10; 20; 30; 255]) example_caution
           (rgba_1x1 amber) (rgba_1x1 amber)); reflexivity.
Defined.

(** The box of the half-size caution image at the origin is one the C
    core takes. *)
Lemma half_size_box lib c0 caution rs :
  resize lib c0 (width c0 / 2, height c0 / 2) rs = Ok caution ->
  box_ok (0, 0) caution = true.
Proof.
  intros H. pose proof (resize_inv _ _ _ _ _ _ H) as Hsize.
  apply resize_shape in H as [Hw Hh].
  apply box_ok_spec. rewrite !Z.add_0_l, Hw, Hh.
  repeat split; apply c_int_spec; unfold INT_MAX in *;
    Z.div_mod_to_equations; lia.
Qed.

Lemma BLEND_same a v : 0 <= v <= 255 -> BLEND a v v = v.
Proof.
  intros Hv. unfold BLEND.
  replace (v * (255 - a) + v * a) with (255 * v) by ring.
  apply (forall_samples (fun v => div255 (255 * v) =? v)) in Hv.
  - now apply Z.eqb_eq in Hv.
  - vm_compute. reflexivity.
Qed.

Lemma blend_samples_same f p :
  Forall (fun v => f v v = v) p -> blend_samples f p p = p.
Proof. induction 1 as [|v p Hv Hp IH]; cbn; [reflexivity|]. now rewrite Hv, IH. Qed.

(** Whatever the caution image shows in its corner, the one-pixel image of
    that colour comes back as it went in, once flagged: a blur leaves a
    single pixel alone and blending a colour with itself gives the
    colour. *)
Lemma nsfw_fixed_point lib ctx self meta name s r c0 caution p :
  find_record name (images s) = Some r ->
  heap s !! record_object r = Some (rgba_1x1 p) ->
  Forall (fun v => 0 <= v <= 255) p ->
  from_pretrained lib (models_path ctx) = Ok tt ->
  has_nsfw_concept lib (rgba_1x1 p) = Ok true ->
  filter lib (rgba_1x1 p) (GaussianBlur 32) = Ok (rgba_1x1 p) ->
  open_caution_png lib = Ok c0 ->
  resize lib c0 (width c0 / 2, height c0 / 2) BICUBIC = Ok caution ->
  mode caution = ModeRGBA ->
  getpixel caution 0 0 = Some p ->
  exists out s',
    invoke lib ctx (ImageNSFWBlurInvocation self (Some (mkImageField name)) true meta) s
      = Ok (out, s') /\
    stored_image s' (image_name (output_field out)) = Some (rgba_1x1 p).
Proof.
  intros Hf Him Hp Hload Hnsfw Hblur Hopen Hhalf Hmode Hpx.
  assert (Hpaste : paste lib (rgba_1x1 p) caution (0, 0) (Some caution)
                   = Ok (rgba_1x1 p)).
  { unfold paste, paste_source. cbn [mode rgba_1x1]. rewrite Hmode. cbn [pil_mode_eqb].
    rewrite (half_size_box _ _ _ _ Hhalf).
    unfold paste_core. rewrite !Z.eqb_refl, Hmode. cbn [andb negb mask_mode_ok].
    unfold rgba_1x1. cbn [mode width height pixels imap]. do 2 f_equal.
    change (Z.of_nat 0 mod 1) with 0. change (Z.of_nat 0 / 1) with 0.
    unfold pasted_pixel. change (0 - 0) with 0. rewrite Hpx, Hmode.
    cbn [mask_pixel default]. f_equal. apply blend_samples_same.
    eapply Forall_impl; [exact Hp|]. intros v Hv. now apply BLEND_same. }
  destruct (nsfw_flagged_stored lib ctx self name meta s r (rgba_1x1 p) (rgba_1x1 p)
              c0 caution (rgba_1x1 p)
              Hf Him Hload eq_refl Hnsfw Hblur Hopen Hhalf Hpaste)
    as (out & s' & Hrun & Hst & _).
  eauto.
Qed.

(** * Further properties of the invocations *)

(** ** The record an invocation files *)

Section Filing.

Variable context : InvocationContext.
Variable s0 : state.

Lemma files_bind {A : Type} self cat meta (c : M A) (k : A -> M output) (P : A -> Prop) :
  reads s0 c P -> (forall a, P a -> files s0 context self cat meta (k a)) ->
  files s0 context self cat meta (bind c k).
Proof.
  intros Hc Hk s b s' Hq H.
  apply bind_inv in H as (a & s1 & H1 & H).
  destruct (Hc s a s1 Hq H1) as [Hq1 Ha].
  exact (Hk a Ha s1 b s' Hq1 H).
Qed.

Lemma files_create self o cat meta (wrap : image_dto -> output) :
  (forall dto,
     output_field (wrap dto) = mkImageField (dto_image_name dto) /\
     output_width (wrap dto) = dto_width dto /\
     output_height (wrap dto) = dto_height dto /\
     is_mask_output (wrap dto) = match cat with MASK => true | _ => false end) ->
  files s0 context self cat meta
    (let* image_dto := create_general context self o cat meta in
     ret (wrap image_dto)).
Proof.
  intros Hwrap s out s' [Hi Hh] H.
  apply bind_inv in H as (dto & s1 & H1 & H). unfold create_general in H1.
  apply create_inv in H1 as (im & Him & -> & ->).
  apply ret_inv in H as [-> ->].
  destruct (Hwrap (mkDto (new_name (images s)) (width im) (height im)))
    as (Hf & Hw & Hht & Hm).
  exists o, im. cbn [images heap]. rewrite Hi in *.
  repeat split; assumption.
Qed.

End Filing.

Ltac filing_step :=
  first
    [ eapply files_create; intros; repeat split; reflexivity
    | frame_prim
    | eapply files_bind; [|intros ? ?]
    | eapply reads_bind; [|intros ? ?] ].

Ltac filing := repeat filing_step.

Lemma invoke_files lib ctx inv s :
  derives inv = true ->
  files s ctx (base_fields inv) (category_of inv) (metadata_of inv) (invoke lib ctx inv).
Proof.
  intros Hd.
  destruct inv; try discriminate; cbn [invoke base_fields category_of metadata_of].
  - unfold ImageCrop_invoke. filing.
  - unfold ImagePaste_invoke. filing. frame_case; filing.
  - unfold MaskFromAlpha_invoke. filing. frame_case; filing.
    eapply reads_any. filing.
  - unfold ImageMultiply_invoke. filing.
  - unfold ImageChannel_invoke. filing.
  - unfold ImageConvert_invoke. filing.
  - unfold ImageBlur_invoke. filing.
  - unfold ImageResize_invoke. filing.
  - unfold ImageScale_invoke. filing.
  - unfold ImageLerp_invoke. filing.
  - unfold ImageInverseLerp_invoke. filing.
  - unfold ImageNSFWBlur_invoke. filing. frame_case; [|filing]. filing.
    frame_case; [|filing]. unfold _get_caution_img. filing.
  - unfold ImageWatermark_invoke. filing. frame_case; [|filing]. filing.
    eapply reads_any. filing.
Qed.

(** X1: the record a deriving invocation files is tagged from the call
    alone: origin INTERNAL, the invocation's own node id and
    [is_intermediate] flag, the session id of the context, category MASK
    for MaskFromAlphaInvocation (whose output is the one MaskOutput) and
    GENERAL for every other, and a metadata payload only from the NSFW and
    watermark invocations. *)
Theorem stored_record_tags lib ctx inv s out s' :
  derives inv = true ->
  invoke lib ctx inv s = Ok (out, s') ->
  exists r,
    images s' = images s ++ [r] /\
    record_origin r = INTERNAL /\
    record_category r = category_of inv /\
    record_node_id r = id (base_fields inv) /\
    record_session_id r = graph_execution_state_id ctx /\
    record_is_intermediate r = is_intermediate (base_fields inv) /\
    record_metadata r = metadata_of inv /\
    is_mask_output out = match inv with MaskFromAlphaInvocation _ _ _ => true | _ => false end.
Proof.
  intros Hd H.
  destruct (invoke_files lib ctx inv s Hd s out s' (quiet_refl s) H)
    as (obj & im & Himg & _ & _ & _ & _ & Hmask).
  eexists. split; [exact Himg|]. cbn.
  repeat split; try reflexivity.
  rewrite Hmask. destruct inv; reflexivity.
Qed.

Lemma stored_record_tags_witness :
  exists out s' r,
    invoke example_library example_context
      (MaskFromAlphaInvocation example_self example_field true)
      (example_state rgb_2x1) = Ok (out, s') /\
    images s' = images (example_state rgb_2x1) ++ [r] /\
    record_category r = MASK /\ record_node_id r = "node-1"%string /\
    record_is_intermediate r = true /\ record_metadata r = None.
Proof.
  destruct (invoke example_library example_context
              (MaskFromAlphaInvocation example_self example_field true)
              (example_state rgb_2x1)) as [[out s']|e] eqn:Hrun.
  - destruct (stored_record_tags example_library example_context
                (MaskFromAlphaInvocation example_self example_field true)
                (example_state rgb_2x1) out s' eq_refl Hrun)
      as (r & Himg & _ & Hcat & Hnode & _ & Hflag & Hmeta & _).
    exists out, s', r. repeat split; assumption.
  - vm_compute in Hrun. discriminate.
Defined.

(** X2: the width and height an invocation reports are those of the image
    stored under the name it returns: the new image for a deriving
    invocation, the input for the load and show invocations. *)
Theorem output_size_is_stored_size lib ctx inv s out s' :
  invoke lib ctx inv s = Ok (out, s') ->
  exists im,
    stored_image s' (image_name (output_field out)) = Some im /\
    output_width out = width im /\ output_height out = height im.
Proof.
  intros H. destruct (derives inv) eqn:Hd.
  - destruct (invoke_files lib ctx inv s Hd s out s' (quiet_refl s) H)
      as (obj & im & Himg & Hobj & Hf & Hw & Hh & _).
    exists im. rewrite Hf. cbn [image_name]. unfold stored_image. rewrite Himg.
    rewrite find_record_new by reflexivity. cbn [record_object]. auto.
  - destruct inv; try discriminate; cbn [invoke] in H.
    + unfold LoadImage_invoke in H.
      invert_bind H n s1 H1. apply field_image_name_inv in H1 as [_ ->].
      invert_bind H o s2 H2. apply get_pil_image_inv in H2 as [-> (r & Hf & ->)].
      invert_bind H im s3 H3. apply deref_inv in H3 as [Him ->].
      apply ret_inv in H as [-> ->]. exists im. cbn. unfold stored_image.
      now rewrite Hf.
    + unfold ShowImage_invoke in H.
      invert_bind H n s1 H1. apply field_image_name_inv in H1 as [_ ->].
      invert_bind H o s2 H2. apply get_pil_image_inv in H2 as [-> (r & Hf & ->)].
      invert_bind H im s3 H3. apply deref_inv in H3 as [Him ->].
      apply ret_inv in H as [-> ->]. exists im. cbn. unfold stored_image.
      now rewrite Hf.
Qed.

Lemma output_size_is_stored_size_witness :
  exists out s' im,
    invoke example_library example_context
      (ImageCropInvocation example_self example_field (-1) 0 3 2)
      (example_state gray_2x2) = Ok (out, s') /\
    stored_image s' (image_name (output_field out)) = Some im /\
    output_width out = width im /\ output_height out = height im.
Proof.
  destruct (invoke example_library example_context
              (ImageCropInvocation example_self example_field (-1) 0 3 2)
              (example_state gray_2x2)) as [[out s']|e] eqn:Hrun.
  - destruct (output_size_is_stored_size example_library example_context
                (ImageCropInvocation example_self example_field (-1) 0 3 2)
                (example_state gray_2x2) out s' Hrun) as (im & Hst & Hw & Hh).
    exists out, s', im. repeat split; assumption.
  - vm_compute in Hrun. discriminate.
Defined.

(** ** Inputs *)

Ltac head_of t :=
  lazymatch t with
  | ?f _ => head_of f
  | _ => t
  end.

Ltac invert_fetch H :=
  let n := fresh "n" in let s1 := fresh "s" in let H1 := fresh "Hfield" in
  let o := fresh "o" in let s2 := fresh "s" in let H2 := fresh "Hget" in
  let r := fresh "r" in let Hf := fresh "Hfind" in
  apply bind_inv in H as (n & s1 & H1 & H);
  apply field_image_name_inv in H1 as [-> ->];
  apply bind_inv in H as (o & s2 & H2 & H);
  apply get_pil_image_inv in H2 as [-> (r & Hf & ->)];
  cbn [image_name] in Hf.

(** X3: an invocation returns only if every image field it reads is set
    and names a stored image (the mask of a paste, when given, included);
    with its first field unset it raises AttributeError, and with its first
    field naming no stored image the storage service's error comes out of
    [invoke] as it is. *)
Theorem inputs_must_be_stored lib ctx inv s :
  (forall out s',
     invoke lib ctx inv s = Ok (out, s') ->
     Forall (fun f => exists fld r,
               f = Some fld /\ find_record (image_name fld) (images s) = Some r)
       (input_fields inv ++
        match inv with
        | ImagePasteInvocation _ _ _ (Some m) _ _ => [Some m]
        | _ => []
        end)) /\
  (forall f rest, input_fields inv = f :: rest ->
     (f = None -> invoke lib ctx inv s = Raise AttributeError) /\
     (forall fld, f = Some fld ->
        find_record (image_name fld) (images s) = None ->
        invoke lib ctx inv s = Raise ImageFileNotFound)).
Proof.
  split.
  - intros out s' H.
    destruct inv; cbn [invoke input_fields app] in *;
      match type of H with ?c _ = _ => let h := head_of c in unfold h in H end;
      invert_fetch H;
      try (repeat constructor; eauto; fail).
    + (* paste *)
      invert_fetch H.
      invert_bind H om s4 H4.
      match type of H4 with
      | match ?m with _ => _ end _ = _ => destruct m as [[mn]|]
      end.
      * invert_bind H4 mo s5 H5. apply get_pil_image_inv in H5 as [-> (rm & Hfm & _)].
        repeat constructor; eauto.
      * repeat constructor; eauto.
    + (* multiply *)
      invert_fetch H. repeat constructor; eauto.
  - intros f rest Hfields. split.
    + intros ->.
      destruct inv; cbn [input_fields] in Hfields; injection Hfields as -> _; reflexivity.
    + intros [n] -> Hnone. cbn [image_name] in Hnone.
      destruct inv; cbn [input_fields] in Hfields; injection Hfields as -> _;
        cbn [invoke];
        match goal with |- ?c _ = _ => let h := head_of c in unfold h end;
        unfold bind, field_image_name, ret, get_pil_image; cbn [image_name];
        rewrite Hnone; reflexivity.
Qed.

(** X4: the load and show invocations change nothing: the state they end
    in is the state they started in, and the output names the input
    itself. *)
Theorem load_show_change_nothing lib ctx inv s out s' :
  derives inv = false ->
  invoke lib ctx inv s = Ok (out, s') ->
  s' = s /\ input_fields inv = [Some (output_field out)].
Proof.
  intros Hd H.
  destruct inv; try discriminate; cbn [invoke input_fields] in *;
    match type of H with ?c _ = _ => let h := head_of c in unfold h in H end;
    invert_fetch H;
    (invert_bind H im s3 H3; apply deref_inv in H3 as [_ ->];
     apply ret_inv in H as [-> ->]; split; reflexivity).
Qed.

Lemma load_show_change_nothing_witness :
  invoke example_library example_context
    (ShowImageInvocation example_self example_field) (example_state gray_2x2)
  = Ok (ImageOutput (mkImageField 7) 2 2, example_state gray_2x2).
Proof.
  destruct (invoke example_library example_context
              (ShowImageInvocation example_self example_field)
              (example_state gray_2x2)) as [[out s']|e] eqn:Hrun.
  - destruct (load_show_change_nothing example_library example_context
                (ShowImageInvocation example_self example_field)
                (example_state gray_2x2) out s' eq_refl Hrun) as [-> Hf].
    vm_compute in Hrun. injection Hrun as <-. reflexivity.
  - vm_compute in Hrun. discriminate.
Defined.

(** ** The layers of a paste *)

Lemma paste_no_mask_inv lib d src box r :
  mode d = ModeRGBA ->
  paste lib d src box None = Ok r ->
  exists src', convert lib src ModeRGBA = Ok src' /\ paste_core d src' None box = Ok r.
Proof.
  intros Hd. unfold paste. rewrite (paste_source_rgba lib d src Hd).
  destruct (convert lib src ModeRGBA) as [src'|e]; [|discriminate].
  destruct (box_ok box src); [eauto|discriminate].
Qed.

Lemma paste_masked_inv lib d src box m r :
  mode d = ModeRGBA ->
  paste lib d src box (Some m) = Ok r ->
  exists src', convert lib src ModeRGBA = Ok src' /\
    paste_core d src' (Some m) box = Ok r /\
    width m = width src' /\ height m = height src' /\ mask_mode_ok (mode m) = true.
Proof.
  intros Hd. unfold paste. rewrite (paste_source_rgba lib d src Hd).
  destruct (convert lib src ModeRGBA) as [src'|e]; [|discriminate].
  destruct (box_ok box src); [|discriminate].
  intros H. exists src'. split; [reflexivity|]. split; [exact H|].
  unfold paste_core in H. destruct box as [ox oy].
  destruct (Z.eqb_spec (width m) (width src')); [|discriminate].
  destruct (Z.eqb_spec (height m) (height src')); [|discriminate].
  cbn [andb negb] in H. destruct (mask_mode_ok (mode m)); [auto|discriminate].
Qed.

Lemma convert_shape lib im m im' :
  convert lib im m = Ok im' -> width im' = width im /\ height im' = height im.
Proof.
  unfold convert. destruct (pil_mode_eqb m (mode im)); [now intros [= <-]|].
  destruct (convert_pixels lib m im); [|discriminate]. now intros [= <-].
Qed.

(** What a run of ImagePasteInvocation went through: the blank canvas, the
    canvas with the base on it, and the stored canvas with the image on
    that, through the inverted mask when there is one. *)
Lemma paste_inv lib ctx self bname name mask x y s rb r b i out s' :
  find_record bname (images s) = Some rb ->
  heap s !! record_object rb = Some b ->
  find_record name (images s) = Some r ->
  heap s !! record_object r = Some i ->
  invoke lib ctx
    (ImagePasteInvocation self (Some (mkImageField bname))
       (Some (mkImageField name)) mask x y) s = Ok (out, s') ->
  exists blank r1 r2 m,
    Image_new lib ModeRGBA (Z.max (width b) (width i + x) - Z.min 0 x,
                            Z.max (height b) (height i + y) - Z.min 0 y) [0; 0; 0; 0]
      = Ok blank /\
    paste lib blank b (Z.abs (Z.min 0 x), Z.abs (Z.min 0 y)) None = Ok r1 /\
    paste lib r1 i (Z.max 0 x, Z.max 0 y) m = Ok r2 /\
    match mask with
    | None => m = None
    | Some f => exists rm mim minv,
        find_record (image_name f) (images s) = Some rm /\
        heap s !! record_object rm = Some mim /\
        ImageOps_invert mim = Ok minv /\ m = Some minv
    end /\
    stored_image s' (image_name (output_field out)) = Some r2.
Proof.
  intros Hfb Hb Hf Hi H.
  unfold invoke, ImagePaste_invoke in H.
  invert_bind H n0 s0 H0. apply field_image_name_inv in H0 as [[= <-] ->].
  invert_bind H ob s1 H1. apply get_pil_image_inv in H1 as [-> (rb' & Hfb' & ->)].
  rewrite Hfb in Hfb'. injection Hfb' as <-.
  invert_bind H n2 s2 H2. apply field_image_name_inv in H2 as [[= <-] ->].
  invert_bind H oi s3 H3. apply get_pil_image_inv in H3 as [-> (r' & Hf' & ->)].
  rewrite Hf in Hf'. injection Hf' as <-.
  invert_bind H om s4 H4.
  assert (Hmask : exists extra,
             s4 = mkState (heap s ++ extra) (images s) (logged s) /\
             match mask with
             | None => om = None
             | Some f => exists rm mim minv o,
                 find_record (image_name f) (images s) = Some rm /\
                 heap s !! record_object rm = Some mim /\
                 ImageOps_invert mim = Ok minv /\ om = Some o /\
                 (heap s ++ extra) !! o = Some minv /\ (o < length (heap s ++ extra))%nat
             end).
  { destruct mask as [f|].
    - invert_bind H4 mo s5 H5. apply get_pil_image_inv in H5 as [-> (rm & Hfm & ->)].
      invert_bind H4 inv s6 H6.
      apply call1_inv in H6 as (mim & minv & Hmim & Hinv & -> & ->).
      apply ret_inv in H4 as [-> ->].
      exists [minv]. split; [reflexivity|].
      exists rm, mim, minv, (length (heap s)).
      repeat split; try assumption; try reflexivity.
      + apply lookup_snoc_new.
      + rewrite length_app. cbn. lia.
    - apply ret_inv in H4 as [-> ->]. exists []. rewrite app_nil_r.
      destruct s; auto. }
  destruct Hmask as (extra & -> & Hmask).
  set (h := heap s ++ extra) in *.
  assert (Hold : forall o im, heap s !! o = Some im -> h !! o = Some im)
    by (intros o im Ho; now apply lookup_app_l_Some).
  invert_bind H b0 s5 H5. apply deref_inv in H5 as [H5 ->]. cbn [heap] in H5.
  rewrite (Hold _ _ Hb) in H5. injection H5 as <-.
  invert_bind H i0 s6 H6. apply deref_inv in H6 as [H6 ->]. cbn [heap] in H6.
  rewrite (Hold _ _ Hi) in H6. injection H6 as <-.
  invert_bind H oc s7 H7.
  invert_bind H7 blank s8 H8. apply lift_inv in H8 as [Hnew ->].
  apply alloc_inv in H7 as [-> ->]. cbn [heap images logged] in *.
  invert_bind H u1 s9 H9.
  apply paste_in_place_inv in H9 as (d1 & i1 & m1 & r1 & Hd1 & Hi1 & -> & Hp1 & ->).
  cbn [heap] in Hd1, Hi1. rewrite lookup_snoc_new in Hd1. injection Hd1 as <-.
  rewrite (lookup_snoc_old _ _ _ _ (Hold _ _ Hb)) in Hi1. injection Hi1 as <-.
  invert_bind H u2 s10 H10.
  apply paste_in_place_inv in H10 as (d2 & i2 & m2 & r2 & Hd2 & Hi2 & Hm2 & Hp2 & ->).
  cbn [heap] in Hd2, Hi2, Hm2.
  rewrite list_lookup_insert_eq in Hd2 by (rewrite length_app; cbn; lia).
  injection Hd2 as <-.
  rewrite list_lookup_insert_ne in Hi2
    by (apply Hold, lookup_lt_heap in Hi; lia).
  rewrite (lookup_snoc_old _ _ _ _ (Hold _ _ Hi)) in Hi2. injection Hi2 as <-.
  invert_bind H dto s11 H11. unfold create_general in H11.
  apply create_inv in H11 as (im & Him & -> & ->).
  cbn [heap images logged] in *.
  rewrite list_lookup_insert_eq in Him
    by (rewrite length_insert, length_app; cbn; lia).
  injection Him as <-.
  apply ret_inv in H as [-> ->].
  exists blank, r1, r2, m2. split; [exact Hnew|]. split; [exact Hp1|].
  split; [exact Hp2|]. split.
  - destruct mask as [f|].
    + destruct Hmask as (rm & mim & minv & o & Hfm & Hmim & Hinv & -> & Ho & Hlt).
      destruct Hm2 as (mi & Hmi & ->).
      rewrite list_lookup_insert_ne in Hmi by lia.
      rewrite (lookup_snoc_old _ _ _ _ Ho) in Hmi. injection Hmi as <-.
      eauto 8.
    + subst om. exact Hm2.
  - unfold stored_image.
    cbn [image_output output_field image_name dto_image_name images heap].
    rewrite find_record_new by reflexivity. cbn [record_object].
    apply list_lookup_insert_eq. rewrite length_insert, length_app. cbn. lia.
Qed.

Lemma inside_true w h u v : 0 <= u < w -> 0 <= v < h -> inside w h u v = true.
Proof.
  intros Hu Hv. unfold inside.
  apply andb_true_iff; split; [apply andb_true_iff; split;
    [apply andb_true_iff; split|]|]; first [apply Z.leb_le|apply Z.ltb_lt]; lia.
Qed.

(** X5: without a mask the canvas ImagePasteInvocation stores shows, at
    every position, the pasted image where its box (at
    [(max(0, x), max(0, y))]) covers the position, else the base image
    where its box (at [(|min(0, x)|, |min(0, y)|)]) covers it, else the
    transparent [(0, 0, 0, 0)]: the pasted image lies over the base. *)
Theorem paste_layers lib ctx self bname name x y s rb r b i b' i' :
  find_record bname (images s) = Some rb ->
  heap s !! record_object rb = Some b ->
  find_record name (images s) = Some r ->
  heap s !! record_object r = Some i ->
  convert lib b ModeRGBA = Ok b' ->
  convert lib i ModeRGBA = Ok i' ->
  forall out s',
    invoke lib ctx
      (ImagePasteInvocation self (Some (mkImageField bname))
         (Some (mkImageField name)) None x y) s = Ok (out, s') ->
    exists canvas,
      stored_image s' (image_name (output_field out)) = Some canvas /\
      forall u v, 0 <= u < width canvas -> 0 <= v < height canvas ->
        getpixel canvas u v =
          Some (default (under b' x y u v)
                  (getpixel i' (u - Z.max 0 x) (v - Z.max 0 y))).
Proof.
  intros Hfb Hb Hf Hi Hcb Hci out s' H.
  destruct (paste_inv lib ctx self bname name None x y s rb r b i out s'
              Hfb Hb Hf Hi H) as (blank & r1 & r2 & m & Hnew & Hp1 & Hp2 & -> & Hst).
  pose proof (Image_new_shape _ _ _ _ _ _ Hnew) as (Hbm & Hbw & Hbh & _).
  pose proof (paste_shape _ _ _ _ _ _ Hp1) as (Hm1 & Hw1 & Hh1).
  pose proof (paste_shape _ _ _ _ _ _ Hp2) as (Hm2 & Hw2 & Hh2).
  apply (paste_no_mask_inv lib blank b _ r1 Hbm) in Hp1 as (b'' & Hcb' & Hp1).
  rewrite Hcb in Hcb'. injection Hcb' as <-.
  assert (Hr1m : mode r1 = ModeRGBA) by congruence.
  apply (paste_no_mask_inv lib r1 i _ r2 Hr1m) in Hp2 as (i'' & Hci' & Hp2).
  rewrite Hci in Hci'. injection Hci' as <-.
  exists r2. split; [exact Hst|]. intros u v Hu Hv.
  rewrite (getpixel_paste_core _ _ _ _ _ _ u v Hp2).
  rewrite (getpixel_paste_core _ _ _ _ _ _ u v Hp1).
  rewrite (getpixel_Image_new _ _ _ _ _ _ u v Hnew)
    by (apply inside_true; congruence).
  cbn [fmap option_fmap option_map]. unfold pasted_pixel, under.
  destruct (getpixel i' _ _); destruct (getpixel b' _ _); reflexivity.
Qed.

Lemma paste_layers_witness :
  exists out s' canvas,
    invoke example_library example_context
      (ImagePasteInvocation example_self example_field example_field None (-1) 1)
      (example_state gray_2x2) = Ok (out, s') /\
    stored_image s' (image_name (output_field out)) = Some canvas /\
    getpixel canvas 0 0 = Some [0; 0; 0; 0] /\
    getpixel canvas 1 0 = Some [10; 10; 10; 255] /\
    getpixel canvas 1 1 = Some [20; 20; 20; 255] /\
    getpixel canvas 2 1 = Some [40; 40; 40; 255].
Proof.
  destruct (invoke example_library example_context
              (ImagePasteInvocation example_self example_field example_field None (-1) 1)
              (example_state gray_2x2)) as [[out s']|e] eqn:Hrun.
  - destruct (paste_layers example_library example_context example_self 7 7 (-1) 1
                (example_state gray_2x2)
                (mkRecord 7 0 EXTERNAL USER "upload" "session-0" false None)
                (mkRecord 7 0 EXTERNAL USER "upload" "session-0" false None)
                gray_2x2 gray_2x2
                (mkImage ModeRGBA 2 2
                   [[10; 10; 10; 255]; [20; 20; 20; 255];
                    [30; 30; 30; 255]; [40; 40; 40; 255]])
                (mkImage ModeRGBA 2 2
                   [[10; 10; 10; 255]; [20; 20; 20; 255];
                    [30; 30; 30; 255]; [40; 40; 40; 255]])
                eq_refl eq_refl eq_refl eq_refl eq_refl eq_refl out s' Hrun)
      as (canvas & Hst & Hpx).
    exists out, s', canvas. split; [reflexivity|]. split; [exact Hst|].
    assert (Hsize : width canvas = 3 /\ height canvas = 3).
    { vm_compute in Hrun. injection Hrun as <- <-.
      vm_compute in Hst. injection Hst as <-. split; reflexivity. }
    destruct Hsize as [Hw Hh].
    repeat split; rewrite Hpx by (rewrite ?Hw, ?Hh; lia); reflexivity.
  - vm_compute in Hrun. discriminate.
Defined.

(** X6: ImagePasteInvocation returns with a mask only if the mask is a "1"
    or an "L" image of exactly the pasted image's size: ImageOps.invert
    refuses the other single-band modes and every multi-band mode but
    "RGB", which the paste refuses as a mask, and the paste refuses a mask
    of another size. *)
Theorem paste_mask_must_fit lib ctx self bname name mname x y s rb r rm b i mim :
  find_record bname (images s) = Some rb ->
  heap s !! record_object rb = Some b ->
  find_record name (images s) = Some r ->
  heap s !! record_object r = Some i ->
  find_record mname (images s) = Some rm ->
  heap s !! record_object rm = Some mim ->
  forall out s',
    invoke lib ctx
      (ImagePasteInvocation self (Some (mkImageField bname))
         (Some (mkImageField name)) (Some (mkImageField mname)) x y) s
      = Ok (out, s') ->
    (mode mim = Mode1 \/ mode mim = ModeL) /\
    width mim = width i /\ height mim = height i.
Proof.
  intros Hfb Hb Hf Hi Hfm Hmim out s' H.
  destruct (paste_inv lib ctx self bname name _ x y s rb r b i out s'
              Hfb Hb Hf Hi H)
    as (blank & r1 & r2 & m & Hnew & Hp1 & Hp2 & Hm & Hst).
  destruct Hm as (rm' & mim' & minv & Hfm' & Hmim' & Hinv & ->).
  cbn [image_name] in Hfm'. rewrite Hfm in Hfm'. injection Hfm' as <-.
  rewrite Hmim in Hmim'. injection Hmim' as <-.
  pose proof (Image_new_shape _ _ _ _ _ _ Hnew) as (Hbm & _).
  pose proof (paste_shape _ _ _ _ _ _ Hp1) as (Hm1 & _).
  assert (Hr1m : mode r1 = ModeRGBA) by congruence.
  apply (paste_masked_inv lib r1 i _ minv r2 Hr1m) in Hp2
    as (i' & Hci & _ & Hw & Hh & Hok).
  apply convert_shape in Hci as [Hiw Hih].
  unfold ImageOps_invert in Hinv.
  destruct (mode mim) eqn:Hmode; try discriminate; injection Hinv as <-;
    cbn [point mode width height] in *; rewrite ?Hmode in Hok;
    try discriminate Hok; (split; [auto|split; congruence]).
Qed.

Lemma paste_mask_must_fit_witness :
  exists out s',
    invoke example_library example_context
      (ImagePasteInvocation example_self example_field example_field
         (Some (mkImageField 8)) 0 0)
      (example_state2 gray_2x2 white_2x2) = Ok (out, s') /\
    mode white_2x2 = ModeL /\ width white_2x2 = width gray_2x2.
Proof.
  destruct (invoke example_library example_context
              (ImagePasteInvocation example_self example_field example_field
                 (Some (mkImageField 8)) 0 0)
              (example_state2 gray_2x2 white_2x2)) as [[out s']|e] eqn:Hrun.
  - destruct (paste_mask_must_fit example_library example_context example_self
                7 7 8 0 0 (example_state2 gray_2x2 white_2x2)
                (mkRecord 7 0 EXTERNAL USER "upload" "session-0" false None)
                (mkRecord 7 0 EXTERNAL USER "upload" "session-0" false None)
                (mkRecord 8 1 EXTERNAL USER "upload" "session-0" false None)
                gray_2x2 gray_2x2 white_2x2
                eq_refl eq_refl eq_refl eq_refl eq_refl eq_refl out s' Hrun)
      as ([Hm|Hm] & Hw & _); [discriminate Hm|].
    exists out, s'. repeat split; assumption.
  - vm_compute in Hrun. discriminate.
Defined.

Lemma getpixel_point lut im u v :
  getpixel (point lut im) u v
  = map (fun s => nth (Z.to_nat s) lut 0) <$> getpixel im u v.
Proof.
  unfold getpixel, point. cbn [width height pixels].
  destruct (inside _ _ _ _); [|reflexivity]. now rewrite list_lookup_fmap.
Qed.

Lemma getpixel_rgba_ok im u v p :
  rgba_ok im -> getpixel im u v = Some p ->
  length p = 4%nat /\ Forall (fun s => 0 <= s <= 255) p.
Proof.
  unfold rgba_ok, getpixel. intros Hok.
  destruct (inside _ _ _ _); [|discriminate].
  intros Hp. exact (Forall_lookup_1 _ _ _ _ Hok Hp).
Qed.

Lemma BLEND_0 o i : 0 <= o <= 255 -> BLEND 0 o i = o.
Proof.
  intros Ho. unfold BLEND.
  replace (o * (255 - 0) + i * 0) with (255 * o) by ring.
  apply (forall_samples (fun v => div255 (255 * v) =? v)) in Ho.
  - now apply Z.eqb_eq in Ho.
  - vm_compute. reflexivity.
Qed.

Lemma BLEND_255 o i : 0 <= i <= 255 -> BLEND 255 o i = i.
Proof.
  intros Hi. unfold BLEND.
  replace (o * (255 - 255) + i * 255) with (255 * i) by ring.
  apply (forall_samples (fun v => div255 (255 * v) =? v)) in Hi.
  - now apply Z.eqb_eq in Hi.
  - vm_compute. reflexivity.
Qed.

Lemma blend_samples_keep old inp :
  Forall (fun s => 0 <= s <= 255) old -> blend_samples (BLEND 0) old inp = old.
Proof.
  intros Hold. revert inp.
  induction Hold as [|o old Ho Hold IH]; intros [|i inp]; cbn; try reflexivity.
  now rewrite BLEND_0, IH.
Qed.

Lemma blend_samples_replace old inp :
  length old = length inp -> Forall (fun s => 0 <= s <= 255) inp ->
  blend_samples (BLEND 255) old inp = inp.
Proof.
  intros Hlen Hinp. revert old Hlen.
  induction Hinp as [|i inp Hi Hinp IH]; intros [|o old] Hlen; cbn in *;
    try discriminate; try reflexivity.
  rewrite BLEND_255 by assumption. f_equal. apply IH. lia.
Qed.

Lemma under_ok b' x y u v :
  rgba_ok b' ->
  length (under b' x y u v) = 4%nat /\ Forall (fun s => 0 <= s <= 255) (under b' x y u v).
Proof.
  intros Hok. unfold under.
  destruct (getpixel b' _ _) as [p|] eqn:Hp; cbn [default].
  - exact (getpixel_rgba_ok _ _ _ _ Hok Hp).
  - split; [reflexivity|]. repeat constructor; lia.
Qed.

(** X7: the mask of ImagePasteInvocation is inverted before use, so on an
    "L" mask white protects and black pastes: where the mask is 255 the
    canvas keeps what lies under the pasted image (the base, or
    transparency), where it is 0 the canvas shows the pasted image's
    pixel. *)
Theorem paste_mask_white_protects lib ctx self bname name mname x y s rb r rm b i mim b' i' :
  find_record bname (images s) = Some rb ->
  heap s !! record_object rb = Some b ->
  find_record name (images s) = Some r ->
  heap s !! record_object r = Some i ->
  find_record mname (images s) = Some rm ->
  heap s !! record_object rm = Some mim ->
  convert lib b ModeRGBA = Ok b' -> rgba_ok b' ->
  convert lib i ModeRGBA = Ok i' -> rgba_ok i' ->
  mode mim = ModeL ->
  forall out s',
    invoke lib ctx
      (ImagePasteInvocation self (Some (mkImageField bname))
         (Some (mkImageField name)) (Some (mkImageField mname)) x y) s
      = Ok (out, s') ->
    exists canvas,
      stored_image s' (image_name (output_field out)) = Some canvas /\
      forall u v p m,
        0 <= u < width canvas -> 0 <= v < height canvas ->
        getpixel i' (u - Z.max 0 x) (v - Z.max 0 y) = Some p ->
        getpixel mim (u - Z.max 0 x) (v - Z.max 0 y) = Some [m] ->
        (m = 255 -> getpixel canvas u v = Some (under b' x y u v)) /\
        (m = 0 -> getpixel canvas u v = Some p).
Proof.
  intros Hfb Hb Hf Hi Hfm Hmim Hcb Hbok Hci Hiok Hmode out s' H.
  destruct (paste_inv lib ctx self bname name _ x y s rb r b i out s'
              Hfb Hb Hf Hi H)
    as (blank & r1 & r2 & mk & Hnew & Hp1 & Hp2 & Hm & Hst).
  destruct Hm as (rm' & mim' & minv & Hfm' & Hmim' & Hinv & ->).
  cbn [image_name] in Hfm'. rewrite Hfm in Hfm'. injection Hfm' as <-.
  rewrite Hmim in Hmim'. injection Hmim' as <-.
  unfold ImageOps_invert in Hinv. rewrite Hmode in Hinv. injection Hinv as <-.
  pose proof (Image_new_shape _ _ _ _ _ _ Hnew) as (Hbm & Hbw & Hbh & _).
  pose proof (paste_shape _ _ _ _ _ _ Hp1) as (Hm1 & Hw1 & Hh1).
  pose proof (paste_shape _ _ _ _ _ _ Hp2) as (Hm2 & Hw2 & Hh2).
  apply (paste_no_mask_inv lib blank b _ r1 Hbm) in Hp1 as (b'' & Hcb' & Hp1).
  rewrite Hcb in Hcb'. injection Hcb' as <-.
  assert (Hr1m : mode r1 = ModeRGBA) by congruence.
  apply (paste_masked_inv lib r1 i _ _ r2 Hr1m) in Hp2 as (i'' & Hci' & Hp2 & _).
  rewrite Hci in Hci'. injection Hci' as <-.
  exists r2. split; [exact Hst|]. intros u v p m Hu Hv Hp Hmp.
  assert (Hunder : getpixel r1 u v = Some (under b' x y u v)).
  { rewrite (getpixel_paste_core _ _ _ _ _ _ u v Hp1).
    rewrite (getpixel_Image_new _ _ _ _ _ _ u v Hnew)
      by (apply inside_true; congruence).
    cbn [fmap option_fmap option_map]. unfold pasted_pixel, under.
    destruct (getpixel b' _ _); reflexivity. }
  destruct (under_ok b' x y u v Hbok) as [Hulen Hurange].
  destruct (getpixel_rgba_ok _ _ _ _ Hiok Hp) as [Hplen Hprange].
  rewrite (getpixel_paste_core _ _ _ _ _ _ u v Hp2), Hunder.
  cbn [fmap option_fmap option_map]. unfold pasted_pixel.
  rewrite Hp, getpixel_point, Hmp. cbn [fmap option_fmap option_map map point mode].
  rewrite Hmode. cbn [mask_pixel nth default]. split; intros ->.
  - rewrite (invert_lut_spec 255) by lia. change (255 - 255) with 0.
    now rewrite blend_samples_keep.
  - rewrite (invert_lut_spec 0) by lia. change (255 - 0) with 255.
    rewrite blend_samples_replace; [reflexivity | congruence | assumption].
Qed.

Lemma paste_mask_white_protects_witness :
  exists out s' canvas,
    invoke example_library example_context
      (ImagePasteInvocation example_self example_field example_field
         (Some (mkImageField 8)) 1 0)
      (example_state2 gray_2x2 white_2x2) = Ok (out, s') /\
    stored_image s' (image_name (output_field out)) = Some canvas /\
    getpixel canvas 1 0 = Some [20; 20; 20; 255] /\
    getpixel canvas 1 1 = Some [30; 30; 30; 255].
Proof.
  destruct (invoke example_library example_context
              (ImagePasteInvocation example_self example_field example_field
                 (Some (mkImageField 8)) 1 0)
              (example_state2 gray_2x2 white_2x2)) as [[out s']|e] eqn:Hrun.
  - destruct (paste_mask_white_protects example_library example_context example_self
                7 7 8 1 0 (example_state2 gray_2x2 white_2x2)
                (mkRecord 7 0 EXTERNAL USER "upload" "session-0" false None)
                (mkRecord 7 0 EXTERNAL USER "upload" "session-0" false None)
                (mkRecord 8 1 EXTERNAL USER "upload" "session-0" false None)
                gray_2x2 gray_2x2 white_2x2
                (mkImage ModeRGBA 2 2
                   [[10; 10; 10; 255]; [20; 20; 20; 255];
                    [30; 30; 30; 255]; [40; 40; 40; 255]])
                (mkImage ModeRGBA 2 2
                   [[10; 10; 10; 255]; [20; 20; 20; 255];
                    [30; 30; 30; 255]; [40; 40; 40; 255]])
                eq_refl eq_refl eq_refl eq_refl eq_refl eq_refl
                eq_refl (ltac:(repeat constructor; lia))
                eq_refl (ltac:(repeat constructor; lia))
                eq_refl out s' Hrun)
      as (canvas & Hst & Hpx).
    exists out, s', canvas. split; [reflexivity|]. split; [exact Hst|].
    assert (Hsize : width canvas = 3 /\ height canvas = 2).
    { vm_compute in Hrun. injection Hrun as <- <-.
      vm_compute in Hst. injection Hst as <-. split; reflexivity. }
    destruct Hsize as [Hw Hh]. split.
    + destruct (Hpx 1 0 [10; 10; 10; 255] 255) as [Hwhite _];
        [lia | lia | reflexivity | reflexivity |].
      rewrite Hwhite by reflexivity. reflexivity.
    + destruct (Hpx 1 1 [30; 30; 30; 255] 0) as [_ Hblack];
        [lia | lia | reflexivity | reflexivity |].
      now rewrite Hblack.
  - vm_compute in Hrun. discriminate.
Defined.

(** ** The mask and the alpha channel *)

(** X8: for an image whose last band is named "A" ("RGBA", "LA", "PA"),
    MaskFromAlphaInvocation without inversion and ImageChannelInvocation
    with channel "A" store the same image. *)
Theorem mask_is_alpha_channel lib ctx self name s r im :
  find_record name (images s) = Some r ->
  heap s !! record_object r = Some im ->
  In (mode im) [ModeRGBA; ModeLA; ModePA] ->
  exists out1 s1 out2 s2 m,
    invoke lib ctx (MaskFromAlphaInvocation self (Some (mkImageField name)) false) s
      = Ok (out1, s1) /\
    invoke lib ctx (ImageChannelInvocation self (Some (mkImageField name)) chan_A) s
      = Ok (out2, s2) /\
    stored_image s1 (image_name (output_field out1)) = Some m /\
    stored_image s2 (image_name (output_field out2)) = Some m.
Proof.
  intros Hf Him Hmode.
  destruct (last_band_ok im) as (m & Hm & _).
  destruct (last_band_of_mode im m Hm) as (Halpha & _).
  specialize (Halpha Hmode).
  destruct (mask_from_alpha_run lib ctx self name false s r im m m Hf Him Hm eq_refl)
    as (out1 & s1 & Hrun1).
  destruct (mask_from_alpha_inv lib ctx self name false s r im out1 s1 Hf Him Hrun1)
    as (m1 & m' & Hm1 & Hinv & Hst1 & _).
  rewrite Hm in Hm1. injection Hm1 as <-. cbn in Hinv. injection Hinv as <-.
  exists out1, s1. eexists _, _. exists m. split; [exact Hrun1|]. split.
  { exact (derived_run ctx self (fun im => getchannel im (channel_name chan_A))
             GENERAL None name s r im m Hf Him Halpha). }
  split; [exact Hst1|]. apply stored_after_new.
Qed.

Lemma mask_is_alpha_channel_witness :
  exists out1 s1 out2 s2,
    invoke example_library example_context
      (MaskFromAlphaInvocation example_self example_field false)
      (example_state (rgba_1x1 [10; 20; 30; 40])) = Ok (out1, s1) /\
    invoke example_library example_context
      (ImageChannelInvocation example_self example_field chan_A)
      (example_state (rgba_1x1 [10; 20; 30; 40])) = Ok (out2, s2) /\
    stored_image s1 (image_name (output_field out1))
    = stored_image s2 (image_name (output_field out2)).
Proof.
  destruct (mask_is_alpha_channel example_library example_context example_self 7
              (example_state (rgba_1x1 [10; 20; 30; 40]))
              (mkRecord 7 0 EXTERNAL USER "upload" "session-0" false None)
              (rgba_1x1 [10; 20; 30; 40]))
    as (out1 & s1 & out2 & s2 & m & H1 & H2 & Hst1 & Hst2);
    [reflexivity | reflexivity | cbn; auto |].
  exists out1, s1, out2, s2. repeat split; try assumption. congruence.
Defined.

(** ** Failures of the scale invocation *)

Lemma bind_raise {A B : Type} (c : M A) (k : A -> M B) s e :
  c s = Raise e -> bind c k s = Raise e.
Proof. unfold bind. now intros ->. Qed.

Lemma round_pos64_pos n d :
  Zpos d <= Zpos n -> 0 < Qnum (Float.round_pos64 n d).
Proof.
  intros Hdn. unfold Float.round_pos64.
  set (e := Float.ilog2 n d).
  set (s := Z.min (Float.binary64 - 1 - e) 1074).
  destruct (Z.leb_spec 0 s) as [Hs|Hs].
  - assert (Hpow : 0 < 2 ^ s) by (apply Z.pow_pos_nonneg; lia).
    pose proof (round_half_even_floor (Zpos n * 2 ^ s) (Zpos d) ltac:(lia)) as Hlo.
    assert (2 ^ s <= Zpos n * 2 ^ s / Zpos d)
      by (apply Z.div_le_lower_bound; nia).
    assert (Hq : (0 < Qred (Float.round_half_even (Zpos n * 2 ^ s) (Zpos d)
                          # Z.to_pos (2 ^ s)))%Q).
    { rewrite Qred_correct. unfold Qlt. cbn [Qnum Qden]. lia. }
    unfold Qlt in Hq. cbn [Qnum Qden] in Hq. lia.
  - assert (Hs' : - s = e - 52) by (unfold s, Float.binary64 in *; lia).
    rewrite Hs'. assert (He : 53 <= e) by lia.
    pose proof (ilog2_lower n d ltac:(fold e; lia)) as Hlow. fold e in Hlow.
    assert (E : 2 ^ e = 2 ^ 52 * 2 ^ (e - 52))
      by (rewrite <- Z.pow_add_r by lia; f_equal; lia).
    assert (Hpow : 0 < 2 ^ (e - 52)) by (apply Z.pow_pos_nonneg; lia).
    pose proof (round_half_even_floor (Zpos n) (Zpos d * 2 ^ (e - 52)) ltac:(nia)) as Hlo.
    assert (2 ^ 52 <= Zpos n / (Zpos d * 2 ^ (e - 52)))
      by (apply Z.div_le_lower_bound; nia).
    assert (0 < 2 ^ 52) by (apply Z.pow_pos_nonneg; lia).
    cbn [inject_Z Qnum]. nia.
Qed.

(** The float of a positive int is positive, when there is one. *)
Lemma float_of_int_pos n :
  1 <= n ->
  float_of_int n = Raise OverflowError \/
  exists q, float_of_int n = Ok (Float.Fin q) /\ 0 < Qnum q.
Proof.
  intros Hn. unfold float_of_int, Float.round64.
  destruct n as [|p|p]; [lia| |lia]. cbn [inject_Z Qnum Qden].
  destruct (Float.overflows64 _); [now left|right].
  eexists. split; [reflexivity|]. apply round_pos64_pos. lia.
Qed.

(** X9: [scale_factor > 0] does not make ImageScaleInvocation return: on
    an image of at least 1 x 1 an unset factor raises TypeError, an
    infinite one OverflowError, and a factor whose product with the width
    or the height truncates to 0, the other to a C int, raises the
    ValueError of [Image.resize]. *)
Theorem scale_failures lib ctx self name rs s r im :
  find_record name (images s) = Some r ->
  heap s !! record_object r = Some im ->
  1 <= width im -> 1 <= height im ->
  invoke lib ctx (ImageScaleInvocation self (Some (mkImageField name)) None rs) s
    = Raise TypeError /\
  invoke lib ctx
    (ImageScaleInvocation self (Some (mkImageField name)) (Some (Float.Inf false)) rs) s
    = Raise OverflowError /\
  (forall f w h,
     scaled (width im) (Some f) = Ok w -> scaled (height im) (Some f) = Ok h ->
     c_int w = true -> c_int h = true ->
     w < 1 \/ h < 1 ->
     invoke lib ctx (ImageScaleInvocation self (Some (mkImageField name)) (Some f) rs) s
       = Raise ValueError).
Proof.
  intros Hf Him Hw1 Hh1.
  assert (Hstart : forall sf,
            invoke lib ctx (ImageScaleInvocation self (Some (mkImageField name)) sf rs) s
            = (let* width := lift (scaled (width im) sf) in
               let* height := lift (scaled (height im) sf) in
               let* resize_image :=
                 call1 (fun im => resize lib im (width, height) (PIL_RESAMPLING_MAP rs))
                   (record_object r) in
               let* image_dto := create_general ctx self resize_image GENERAL None in
               ret (image_output image_dto)) s).
  { intros sf. unfold invoke, ImageScale_invoke.
    cbn [field_image_name image_name]. unfold ret at 1. unfold bind at 1.
    erewrite bind_run by (unfold get_pil_image; rewrite Hf; reflexivity).
    cbv zeta.
    erewrite bind_run by (unfold deref; rewrite Him; reflexivity).
    reflexivity. }
  split; [|split].
  - rewrite Hstart. apply bind_raise. reflexivity.
  - rewrite Hstart. apply bind_raise.
    unfold lift, scaled, int_times_float.
    destruct (float_of_int_pos (width im) Hw1) as [->|(q & -> & Hq)]; [reflexivity|].
    cbn [Float.mul64]. unfold Float.is_zero, Float.is_neg.
    destruct (Z.eqb_spec (Qnum q) 0); [lia|].
    destruct (Z.ltb_spec (Qnum q) 0); [lia|]. reflexivity.
  - intros f w h Hw Hh Hcw Hch Hsmall. rewrite Hstart.
    erewrite bind_run by (unfold lift; rewrite Hw; reflexivity).
    erewrite bind_run by (unfold lift; rewrite Hh; reflexivity).
    apply bind_raise. unfold call1.
    erewrite bind_run by (unfold deref; rewrite Him; reflexivity).
    apply bind_raise. unfold lift, resize.
    assert (Hne : (w =? width im) && (h =? height im) = false).
    { apply andb_false_iff. destruct Hsmall; [left|right]; apply Z.eqb_neq; lia. }
    rewrite Hne, Hcw, Hch. cbn [andb negb].
    assert (Hlt : (w <? 1) || (h <? 1) = true).
    { apply orb_true_iff. destruct Hsmall; [left|right]; apply Z.ltb_lt; lia. }
    now rewrite Hlt.
Qed.

(** A 2 x 2 image scaled by a quarter. *)
Lemma scale_failures_witness :
  invoke example_library example_context
    (ImageScaleInvocation example_self example_field (Some (Float.Fin (1 # 4))) bicubic)
    (example_state gray_2x2) = Raise ValueError.
Proof.
  destruct (scale_failures example_library example_context example_self 7 bicubic
              (example_state gray_2x2)
              (mkRecord 7 0 EXTERNAL USER "upload" "session-0" false None) gray_2x2)
    as (_ & _ & Hsmall); [reflexivity | reflexivity | cbn; lia | cbn; lia |].
  apply (Hsmall (Float.Fin (1 # 4)) 0 0);
    [vm_compute; reflexivity | vm_compute; reflexivity | reflexivity | reflexivity | lia].
Defined.

(** ** More of the NSFW and the watermark invocations *)

(** X10: when the safety checker is enabled and reports no NSFW concept,
    ImageNSFWBlurInvocation makes no new image: it files the input image
    itself under the new name, as it does when disabled, and logs the two
    lines of the scan. *)
Theorem nsfw_unflagged_keeps_image lib ctx self name meta s r im :
  find_record name (images s) = Some r ->
  heap s !! record_object r = Some im ->
  from_pretrained lib (models_path ctx) = Ok tt ->
  array_ndim im = 3%nat ->
  has_nsfw_concept lib im = Ok false ->
  exists out s',
    invoke lib ctx (ImageNSFWBlurInvocation self (Some (mkImageField name)) true meta) s
      = Ok (out, s') /\
    stored_image s' (image_name (output_field out)) = Some im /\
    heap s' = heap s /\
    logged s' = logged s ++ ["Running NSFW checker"; "NSFW scan result: False"]%string.
Proof.
  intros Hf Him Hload Hdim Hnsfw.
  eexists _, _. split.
  { unfold invoke, ImageNSFWBlur_invoke.
    cbn [field_image_name image_name]. unfold ret at 1. unfold bind at 1.
    erewrite bind_run by (unfold get_pil_image; rewrite Hf; reflexivity).
    erewrite bind_run.
    2:{ erewrite bind_run by reflexivity.
        erewrite bind_run by (unfold lift; rewrite Hload; reflexivity).
        erewrite bind_run by (unfold deref; cbn [heap]; rewrite Him; reflexivity).
        erewrite bind_run by (unfold lift, transpose_0312; rewrite Hdim; reflexivity).
        erewrite bind_run by (unfold lift; rewrite Hnsfw; reflexivity).
        erewrite bind_run by reflexivity.
        reflexivity. }
    erewrite bind_run.
    2:{ unfold create_general, create. cbn [heap images logged].
        rewrite Him. reflexivity. }
    reflexivity. }
  unfold stored_image. cbn [image_output output_field image_name dto_image_name images heap logged].
  rewrite find_record_new by reflexivity. cbn [record_object nsfw_line].
  rewrite <- app_assoc. auto.
Qed.

Lemma nsfw_unflagged_keeps_image_witness :
  exists out s',
    invoke calm_library
      example_context
      (ImageNSFWBlurInvocation example_self example_field true None)
      (example_state rgb_2x1) = Ok (out, s') /\
    stored_image s' (image_name (output_field out)) = Some rgb_2x1 /\
    heap s' = [rgb_2x1].
Proof.
  destruct (nsfw_unflagged_keeps_image
              calm_library
              example_context example_self 7 None (example_state rgb_2x1)
              (mkRecord 7 0 EXTERNAL USER "upload" "session-0" false None) rgb_2x1)
    as (out & s' & Hrun & Hst & Hheap & _);
    [reflexivity | reflexivity | reflexivity | reflexivity | reflexivity |].
  exists out, s'. repeat split; assumption.
Defined.

(** X11: with the checker enabled, ImageNSFWBlurInvocation never returns
    for a single-band image: the array of such an image has two axes and
    [x_image[None].transpose(0, 3, 1, 2)] raises ValueError (unless loading
    the checker has failed before). *)
Theorem nsfw_single_band_raises lib ctx self name meta s r im :
  find_record name (images s) = Some r ->
  heap s !! record_object r = Some im ->
  length (getbands (mode im)) = 1%nat ->
  exists e,
    invoke lib ctx (ImageNSFWBlurInvocation self (Some (mkImageField name)) true meta) s
      = Raise e /\
    (from_pretrained lib (models_path ctx) = Ok tt -> e = ValueError).
Proof.
  intros Hf Him Hband.
  assert (Hdim : transpose_0312 im = Raise ValueError).
  { unfold transpose_0312, array_ndim.
    destruct (getbands (mode im)) as [|c [|c' l]]; try discriminate. reflexivity. }
  unfold invoke, ImageNSFWBlur_invoke.
  cbn [field_image_name image_name]. unfold ret at 1. unfold bind at 1.
  erewrite bind_run by (unfold get_pil_image; rewrite Hf; reflexivity).
  destruct (from_pretrained lib (models_path ctx)) as [[]|e] eqn:Hload.
  - exists ValueError. split; [|reflexivity].
    apply bind_raise.
    erewrite bind_run by reflexivity.
    erewrite bind_run by reflexivity.
    erewrite bind_run by (unfold deref; cbn [heap]; rewrite Him; reflexivity).
    apply bind_raise. unfold lift. now rewrite Hdim.
  - exists e. split; [|discriminate].
    apply bind_raise.
    erewrite bind_run by reflexivity.
    apply bind_raise. reflexivity.
Qed.

Lemma nsfw_single_band_raises_witness :
  invoke example_library example_context
    (ImageNSFWBlurInvocation example_self example_field true None)
    (example_state gray_2x2) = Raise ValueError.
Proof.
  destruct (nsfw_single_band_raises example_library example_context example_self 7 None
              (example_state gray_2x2)
              (mkRecord 7 0 EXTERNAL USER "upload" "session-0" false None) gray_2x2)
    as (e & Hrun & He); [reflexivity | reflexivity | reflexivity |].
  unfold example_field. rewrite Hrun. f_equal. now apply He.
Defined.

(** X12: ImageWatermarkInvocation, when disabled, files the input image
    itself; when enabled and returning, it has given the codec the image's
    "RGB" pixels in B, G, R order, as an array of the image's height and
    width, and files an "RGBA" image that has the shape of the array the
    codec returned, made of that array's elements put back in R, G, B
    order; the output reports that size.  It returns for no empty image
    and for no array of the codec that is empty or has neither three nor
    four channels. *)
Theorem watermark_stored_image lib ctx self name text meta s r im :
  find_record name (images s) = Some r ->
  heap s !! record_object r = Some im ->
  (exists out s',
     invoke lib ctx
       (ImageWatermarkInvocation self (Some (mkImageField name)) text false meta) s
       = Ok (out, s') /\
     stored_image s' (image_name (output_field out)) = Some im /\
     heap s' = heap s) /\
  (forall out s',
     invoke lib ctx
       (ImageWatermarkInvocation self (Some (mkImageField name)) text true meta) s
       = Ok (out, s') ->
     exists rgb encoded res,
       convert lib im ModeRGB = Ok rgb /\
       watermark_encode lib text
         (mkArray (height im) (width im) (Some 3%nat)
            (map (fun p => rev (take 3 p)) (pixels rgb))) = Ok encoded /\
       convert lib
         (mkImage ModeRGB (cols encoded) (rows encoded)
            (map (fun p => rev (take 3 p)) (elements encoded))) ModeRGBA = Ok res /\
       stored_image s' (image_name (output_field out)) = Some res /\
       mode res = ModeRGBA /\ width res = cols encoded /\ height res = rows encoded /\
       output_width out = cols encoded /\ output_height out = rows encoded /\
       1 <= width im /\ 1 <= height im /\
       1 <= cols encoded /\ 1 <= rows encoded /\
       (channels encoded = Some 3%nat \/ channels encoded = Some 4%nat)).
Proof.
  intros Hf Him. split.
  - eexists _, _. split.
    { unfold invoke, ImageWatermark_invoke.
      cbn [field_image_name image_name]. unfold ret at 1. unfold bind at 1.
      erewrite bind_run by (unfold get_pil_image; rewrite Hf; reflexivity).
      unfold ret at 1. unfold bind at 1.
      erewrite bind_run.
      2:{ unfold create_general, create. rewrite Him. reflexivity. }
      reflexivity. }
    unfold stored_image. cbn [image_output output_field image_name dto_image_name images heap].
    rewrite find_record_new by reflexivity. auto.
  - intros out s' H. unfold invoke, ImageWatermark_invoke in H.
    invert_bind H n0 s0 H0. apply field_image_name_inv in H0 as [[= <-] ->].
    invert_bind H o0 s4 H4. apply get_pil_image_inv in H4 as [-> (r' & Hf' & ->)].
    rewrite Hf in Hf'. injection Hf' as <-.
    invert_bind H o s1 H1.
    invert_bind H1 u s2 H2. apply logger_info_inv in H2 as ->.
    apply call1_inv in H1 as (im' & res & Him' & Hres & -> & ->).
    cbn [heap] in Him'. rewrite Him in Him'. injection Him' as <-.
    invert_bind H dto s3 H3. unfold create_general in H3.
    apply create_inv in H3 as (im0 & Him0 & -> & ->).
    cbn [heap images logged] in *. rewrite lookup_snoc_new in Him0. injection Him0 as <-.
    apply ret_inv in H as [-> ->].
    unfold watermarked in Hres.
    destruct (convert lib im ModeRGB) as [rgb|e] eqn:Hrgb; [|discriminate].
    pose proof (convert_shape _ _ _ _ Hrgb) as [Hrw Hrh].
    assert (Hrm : mode rgb = ModeRGB).
    { unfold convert in Hrgb. destruct (pil_mode_eqb ModeRGB (mode im)) eqn:E.
      - injection Hrgb as <-. destruct (mode im); try discriminate E. reflexivity.
      - destruct (convert_pixels lib ModeRGB im); [|discriminate].
        now injection Hrgb as <-. }
    unfold cvtColor_swap at 1 in Hres.
    unfold numpy_array, array_channels, asarray in Hres.
    rewrite Hrm, Hrw, Hrh in Hres. cbn [getbands length rows cols channels elements] in Hres.
    destruct (Z.ltb_spec (height im) 1); [discriminate|].
    destruct (Z.ltb_spec (width im) 1); [discriminate|]. cbn [orb] in Hres.
    destruct (watermark_encode lib text _) as [encoded|e] eqn:Henc; [|discriminate].
    unfold cvtColor_swap in Hres.
    destruct (Z.ltb_spec (rows encoded) 1); [discriminate|].
    destruct (Z.ltb_spec (cols encoded) 1); [discriminate|]. cbn [orb] in Hres.
    assert (Hch : channels encoded = Some 3%nat \/ channels encoded = Some 4%nat).
    { destruct (channels encoded) as [[|[|[|[|[|n]]]]]|]; try discriminate Hres; auto. }
    assert (Hres' : convert lib
                      (mkImage ModeRGB (cols encoded) (rows encoded)
                         (map (fun p => rev (take 3 p)) (elements encoded))) ModeRGBA
                    = Ok res).
    { destruct Hch as [E|E]; rewrite E in Hres; exact Hres. }
    clear Hres.
    assert (Hshape : mode res = ModeRGBA /\ width res = cols encoded /\
                     height res = rows encoded).
    { pose proof (convert_shape _ _ _ _ Hres') as [Hw Hh].
      unfold convert in Hres'. cbn [mode pil_mode_eqb] in Hres'.
      destruct (convert_pixels lib ModeRGBA _); [|discriminate].
      injection Hres' as <-. cbn in *. auto. }
    destruct Hshape as (Hm & Hw & Hh).
    exists rgb, encoded, res.
    split; [reflexivity|]. split; [exact Henc|]. split; [exact Hres'|].
    split.
    { unfold stored_image.
      cbn [image_output output_field image_name dto_image_name images heap].
      rewrite find_record_new by reflexivity. apply lookup_snoc_new. }
    cbn [image_output output_width output_height dto_width dto_height].
    repeat split; try assumption; lia.
Qed.

(** A 256 x 256 image, the least the codec takes. *)
Lemma watermark_stored_image_witness :
  exists out s' res,
    invoke example_library example_context
      (ImageWatermarkInvocation example_self example_field "InvokeAI" true None)
      (example_state gray_256x256) = Ok (out, s') /\
    stored_image s' (image_name (output_field out)) = Some res /\
    mode res = ModeRGBA /\ output_width out = 256 /\ output_height out = 256.
Proof.
  assert (Hrun : exists out s',
            invoke example_library example_context
              (ImageWatermarkInvocation example_self example_field "InvokeAI" true None)
              (example_state gray_256x256) = Ok (out, s'))
    by (eexists _, _; reflexivity).
  destruct Hrun as (out & s' & Hrun).
  destruct (watermark_stored_image example_library example_context example_self 7
              "InvokeAI" None (example_state gray_256x256)
              (mkRecord 7 0 EXTERNAL USER "upload" "session-0" false None) gray_256x256
              eq_refl eq_refl) as [_ Henabled].
  destruct (Henabled out s' Hrun)
    as (rgb & encoded & res & _ & Henc & _ & Hst & Hm & _ & _ & Hw & Hh & _).
  assert (Hshape : cols encoded = 256 /\ rows encoded = 256).
  { unfold example_library, watermark_encode, example_encode in Henc.
    cbn [rows cols height width gray_256x256] in Henc.
    change (256 * 256 <? 256 * 256) with false in Henc.
    injection Henc as <-. split; reflexivity. }
  destruct Hshape as [Hc Hr]. rewrite Hc in Hw. rewrite Hr in Hh.
  exists out, s', res. repeat split; assumption.
Defined.

(** ** Sizes and factors out of range *)

Lemma round_pos64_lower n d k :
  0 <= k -> 2 ^ k * Zpos d <= Zpos n ->
  (inject_Z (2 ^ k) <= Float.round_pos64 n d)%Q.
Proof.
  intros Hk Hge. unfold Float.round_pos64.
  assert (Hk0 : 0 < 2 ^ k) by (apply Z.pow_pos_nonneg; lia).
  set (e := Float.ilog2 n d).
  set (s := Z.min (Float.binary64 - 1 - e) 1074).
  destruct (Z.leb_spec 0 s) as [Hs|Hs].
  - assert (Hpow : 0 < 2 ^ s) by (apply Z.pow_pos_nonneg; lia).
    pose proof (round_half_even_floor (Zpos n * 2 ^ s) (Zpos d) ltac:(lia)) as Hlo.
    assert (2 ^ k * 2 ^ s <= Zpos n * 2 ^ s / Zpos d)
      by (apply Z.div_le_lower_bound; nia).
    rewrite Qred_correct. unfold Qle, inject_Z. cbn [Qnum Qden].
    rewrite Z2Pos.id by assumption. lia.
  - assert (Hs' : - s = e - 52) by (unfold s, Float.binary64 in *; lia).
    rewrite Hs'. assert (He : 53 <= e) by lia.
    set (t := e - 52) in *.
    assert (Hpow : 0 < 2 ^ t) by (apply Z.pow_pos_nonneg; lia).
    pose proof (round_half_even_floor (Zpos n) (Zpos d * 2 ^ t) ltac:(nia)) as Hlo.
    unfold Qle, inject_Z. cbn [Qnum Qden]. rewrite !Z.mul_1_r.
    destruct (Z.le_gt_cases t k) as [Htk|Htk].
    + assert (E : 2 ^ k = 2 ^ (k - t) * 2 ^ t)
        by (rewrite <- Z.pow_add_r by lia; f_equal; lia).
      assert (0 < 2 ^ (k - t)) by (apply Z.pow_pos_nonneg; lia).
      assert (2 ^ (k - t) <= Zpos n / (Zpos d * 2 ^ t))
        by (apply Z.div_le_lower_bound; nia).
      rewrite E. apply Z.mul_le_mono_nonneg_r; lia.
    + pose proof (ilog2_lower n d ltac:(fold e; lia)) as Hlow. fold e in Hlow.
      assert (E : 2 ^ e = 2 ^ 52 * 2 ^ t)
        by (unfold t; rewrite <- Z.pow_add_r by lia; f_equal; lia).
      assert (2 ^ 52 <= Zpos n / (Zpos d * 2 ^ t))
        by (apply Z.div_le_lower_bound; nia).
      assert (2 ^ k <= 2 ^ t) by (apply Z.pow_le_mono_r; lia).
      assert (0 < 2 ^ 52) by (apply Z.pow_pos_nonneg; lia).
      nia.
Qed.

(** A product of 2^1024 or more is the infinity. *)
Lemma round64_overflow q :
  2 ^ 1024 * Zpos (Qden q) <= Qnum q -> Float.round64 q = Float.Inf false.
Proof.
  intros Hge. destruct q as [n d]. cbn [Qnum Qden] in *.
  pose proof (Z.pow_pos_nonneg 2 1024 ltac:(lia) ltac:(lia)) as Hpos.
  destruct n as [|n|n]; [lia| |lia].
  unfold Float.round64. cbn [Qnum Qden].
  pose proof (round_pos64_lower n d 1024 ltac:(lia) Hge) as Hlo.
  pose proof (round_pos64_nonneg n d) as H0.
  unfold Qle, inject_Z in Hlo. cbn [Qnum Qden] in Hlo. rewrite Z.mul_1_r in Hlo.
  unfold Float.overflows64, Float.is_neg.
  rewrite Z.abs_eq by assumption.
  destruct (Z.leb_spec (2 ^ 1024 * Zpos (Qden (Float.round_pos64 n d)))
              (Qnum (Float.round_pos64 n d))); [|lia].
  destruct (Z.ltb_spec (Qnum (Float.round_pos64 n d)) 0); [lia|reflexivity].
Qed.

Lemma scale_steps lib ctx self name sf rs s r im :
  find_record name (images s) = Some r ->
  heap s !! record_object r = Some im ->
  invoke lib ctx (ImageScaleInvocation self (Some (mkImageField name)) sf rs) s
  = (let* width := lift (scaled (width im) sf) in
     let* height := lift (scaled (height im) sf) in
     let* resize_image :=
       call1 (fun im => resize lib im (width, height) (PIL_RESAMPLING_MAP rs))
         (record_object r) in
     let* image_dto := create_general ctx self resize_image GENERAL None in
     ret (image_output image_dto)) s.
Proof.
  intros Hf Him. unfold invoke, ImageScale_invoke.
  cbn [field_image_name image_name]. unfold ret at 1. unfold bind at 1.
  erewrite bind_run by (unfold get_pil_image; rewrite Hf; reflexivity).
  cbv zeta.
  erewrite bind_run by (unfold deref; rewrite Him; reflexivity).
  reflexivity.
Qed.

Lemma resize_overflow lib im w h rs :
  width im <= INT_MAX -> height im <= INT_MAX ->
  INT_MAX < w \/ INT_MAX < h ->
  resize lib im (w, h) rs = Raise OverflowError.
Proof.
  intros Hw Hh Hbig. unfold resize.
  assert (Hne : (w =? width im) && (h =? height im) = false).
  { apply andb_false_iff. destruct Hbig; [left|right]; apply Z.eqb_neq; lia. }
  assert (Hc : c_int w && c_int h = false).
  { apply andb_false_iff.
    destruct Hbig; [left|right]; apply not_true_is_false; rewrite c_int_spec; lia. }
  now rewrite Hne, Hc.
Qed.

(** X18: what lies beyond a C int or beyond the floats raises
    OverflowError.  For a stored image: ImageCropInvocation with a width or
    a height above [INT_MAX]; ImageResizeInvocation with a width or a
    height above [INT_MAX]; ImageScaleInvocation with a factor whose
    product with the width is 2^1024 or more, where [int] of the infinite
    product raises, and with a factor whose finite products truncate to a
    width or a height above [INT_MAX], where [Image.resize] raises. *)
Theorem out_of_range_raises lib ctx self name s r im :
  find_record name (images s) = Some r ->
  heap s !! record_object r = Some im ->
  0 <= width im <= INT_MAX -> 0 <= height im <= INT_MAX ->
  (forall x y w h, 0 <= w -> 0 <= h -> INT_MAX < w \/ INT_MAX < h ->
     invoke lib ctx (ImageCropInvocation self (Some (mkImageField name)) x y w h) s
       = Raise OverflowError) /\
  (forall w h rs, INT_MAX < w \/ INT_MAX < h ->
     invoke lib ctx
       (ImageResizeInvocation self (Some (mkImageField name)) (Some w) (Some h) rs) s
       = Raise OverflowError) /\
  (forall f rs, (inject_Z (2 ^ 1024) <= inject_Z (width im) * f)%Q ->
     invoke lib ctx
       (ImageScaleInvocation self (Some (mkImageField name)) (Some (Float.Fin f)) rs) s
       = Raise OverflowError) /\
  (forall f rs pw ph, (0 < f)%Q ->
     Float.round64 (inject_Z (width im) * f) = Float.Fin pw ->
     Float.round64 (inject_Z (height im) * f) = Float.Fin ph ->
     INT_MAX < Qfloor pw \/ INT_MAX < Qfloor ph ->
     invoke lib ctx
       (ImageScaleInvocation self (Some (mkImageField name)) (Some (Float.Fin f)) rs) s
       = Raise OverflowError).
Proof.
  intros Hf Him Hw0 Hh0. split; [|split; [|split]].
  - intros x y w h Hw Hh Hbig. unfold invoke, ImageCrop_invoke.
    cbn [field_image_name image_name]. unfold ret at 1. unfold bind at 1.
    erewrite bind_run by (unfold get_pil_image; rewrite Hf; reflexivity).
    apply bind_raise. apply bind_raise. unfold lift, Image_new.
    destruct (Z.ltb_spec w 0); [lia|]. destruct (Z.ltb_spec h 0); [lia|]. cbn [orb].
    assert (Hc : c_int w && c_int h = false).
    { apply andb_false_iff.
      destruct Hbig; [left|right]; apply not_true_is_false; rewrite c_int_spec; lia. }
    now rewrite Hc.
  - intros w h rs Hbig. unfold invoke, ImageResize_invoke.
    cbn [field_image_name image_name]. unfold ret at 1. unfold bind at 1.
    erewrite bind_run by (unfold get_pil_image; rewrite Hf; reflexivity).
    cbv zeta. apply bind_raise. unfold call1.
    erewrite bind_run by (unfold deref; rewrite Him; reflexivity).
    apply bind_raise. unfold lift. cbn [requested_size].
    rewrite resize_overflow by lia. reflexivity.
  - intros f rs Hbig. rewrite (scale_steps lib ctx self name _ rs s r im Hf Him).
    apply bind_raise. unfold lift, scaled, int_times_float.
    rewrite float_of_int_exact by exact Hw0. cbn [Float.of_Z Float.mul64].
    rewrite round64_overflow; [reflexivity|].
    unfold Qle in Hbig. cbn [Qnum Qden inject_Z Qmult] in *. lia.
  - intros f rs pw ph Hpos Hpw Hph Hbig.
    rewrite (scale_steps lib ctx self name _ rs s r im Hf Him).
    destruct (scaled_floor (width im) f Hw0 Hpos) as [[Hinf _]|(pw' & Hpw' & _ & Hsw)];
      [rewrite Hpw in Hinf; discriminate|].
    destruct (scaled_floor (height im) f Hh0 Hpos) as [[Hinf _]|(ph' & Hph' & _ & Hsh)];
      [rewrite Hph in Hinf; discriminate|].
    rewrite Hpw in Hpw'. injection Hpw' as <-.
    rewrite Hph in Hph'. injection Hph' as <-.
    erewrite bind_run by (unfold lift; rewrite Hsw; reflexivity).
    erewrite bind_run by (unfold lift; rewrite Hsh; reflexivity).
    apply bind_raise. unfold call1.
    erewrite bind_run by (unfold deref; rewrite Him; reflexivity).
    apply bind_raise. unfold lift.
    rewrite resize_overflow by lia. reflexivity.
Qed.

(** A resize of the 10 x 10 image to a width of 2^31, and its scaling by
    2^1023. *)
Lemma out_of_range_raises_witness :
  invoke example_library example_context
    (ImageResizeInvocation example_self example_field (Some (2 ^ 31)) (Some 64) bicubic)
    (example_state gray_10x10) = Raise OverflowError /\
  invoke example_library example_context
    (ImageScaleInvocation example_self example_field
       (Some (Float.Fin (inject_Z (2 ^ 1023)))) bicubic)
    (example_state gray_10x10) = Raise OverflowError.
Proof.
  destruct (out_of_range_raises example_library example_context example_self 7
              (example_state gray_10x10)
              (mkRecord 7 0 EXTERNAL USER "upload" "session-0" false None) gray_10x10)
    as (_ & Hresize & Hscale & _);
    [reflexivity | reflexivity
     | split; vm_compute; discriminate | split; vm_compute; discriminate |].
  split.
  - apply Hresize. left. vm_compute. reflexivity.
  - apply Hscale. vm_compute. discriminate.
Defined.

(** ** What the interpolation nodes keep of an image *)

Lemma array_image_shape (f : Z -> Z) im :
  exists res,
    fromarray (array_channels im) (width im) (height im) (map (map f) (asarray im))
      = Ok res /\
    mode res = array_mode (mode im) /\
    width res = width im /\ height res = height im /\
    length (pixels res) = length (pixels im).
Proof.
  assert (Hlen : length (map (map f) (asarray im)) = length (pixels im)).
  { rewrite length_map. unfold asarray. destruct (mode im); rewrite ?length_map; reflexivity. }
  unfold array_channels, array_mode.
  destruct (mode im); cbn; eexists; (split; [reflexivity|]); cbn; auto.
Qed.

(** X13: ImageLerpInvocation and ImageInverseLerpInvocation return for
    every stored image and keep its size and its number of pixels, but not
    its mode: the stored image's mode follows from the number of bands
    alone, so only "L", "LA", "RGB" and "RGBA" images keep theirs (a "CMYK"
    image comes back labelled "RGBA", a "P" image "L"). *)
Theorem lerp_keeps_size_not_mode lib ctx self name mn mx s r im :
  find_record name (images s) = Some r ->
  heap s !! record_object r = Some im ->
  (exists out s' res,
     invoke lib ctx (ImageLerpInvocation self (Some (mkImageField name)) mn mx) s
       = Ok (out, s') /\
     stored_image s' (image_name (output_field out)) = Some res /\
     mode res = array_mode (mode im) /\
     width res = width im /\ height res = height im /\
     length (pixels res) = length (pixels im)) /\
  (exists out s' res,
     invoke lib ctx (ImageInverseLerpInvocation self (Some (mkImageField name)) mn mx) s
       = Ok (out, s') /\
     stored_image s' (image_name (output_field out)) = Some res /\
     mode res = array_mode (mode im) /\
     width res = width im /\ height res = height im /\
     length (pixels res) = length (pixels im)) /\
  (array_mode (mode im) = mode im <-> In (mode im) [ModeL; ModeLA; ModeRGB; ModeRGBA]).
Proof.
  intros Hf Him. split; [|split].
  - destruct (array_image_shape (lerp_pixel mn mx) im) as (res & Hres & Hshape).
    eexists _, _, res. split.
    { exact (derived_run ctx self (lerp_image mn mx) GENERAL None name s r im res
               Hf Him Hres). }
    split; [apply stored_after_new|exact Hshape].
  - destruct (array_image_shape (ilerp_pixel mn mx) im) as (res & Hres & Hshape).
    eexists _, _, res. split.
    { exact (derived_run ctx self (ilerp_image mn mx) GENERAL None name s r im res
               Hf Him Hres). }
    split; [apply stored_after_new|exact Hshape].
  - destruct (mode im); cbn; split; intros H; try discriminate; auto;
      repeat (destruct H as [H|H]; try discriminate H); try contradiction.
Qed.

Lemma lerp_keeps_size_not_mode_witness :
  exists out s' res,
    invoke example_library example_context
      (ImageLerpInvocation example_self example_field 0 255)
      (example_state cmyk_1x1) = Ok (out, s') /\
    stored_image s' (image_name (output_field out)) = Some res /\
    mode res = ModeRGBA /\ width res = 1 /\ height res = 1.
Proof.
  destruct (lerp_keeps_size_not_mode example_library example_context example_self 7
              0 255 (example_state cmyk_1x1)
              (mkRecord 7 0 EXTERNAL USER "upload" "session-0" false None) cmyk_1x1)
    as ((out & s' & res & Hrun & Hst & Hm & Hw & Hh & _) & _);
    [reflexivity | reflexivity |].
  exists out, s', res. repeat split; assumption.
Defined.

(** ** The arithmetic of the interpolation nodes *)

Lemma float_eqb_eq x y : float_eqb x y = true -> x = y.
Proof.
  destruct x as [[a b]| |], y as [[c d]| |]; cbn; try discriminate; try reflexivity.
  - intros H. apply andb_true_iff in H as [H1 H2].
    apply Z.eqb_eq in H1. apply Pos.eqb_eq in H2. now subst.
  - intros H. apply Bool.eqb_prop in H. now subst.
Qed.

Lemma forall_samples2 (f : Z -> Z -> bool) :
  forallb (fun a => forallb (f a) samples) samples = true ->
  forall a b, 0 <= a <= 255 -> 0 <= b <= 255 -> f a b = true.
Proof.
  intros Hall a b Ha Hb.
  apply (forall_samples (fun a => forallb (f a) samples) Hall) in Ha.
  now apply (forall_samples (f a) Ha).
Qed.

(** The difference of two 8-bit samples is formed exactly. *)
Lemma sub_exact v mn :
  0 <= v <= 255 -> 0 <= mn <= 255 ->
  Float.sub f32 (Float.of_Z v) (Float.of_Z mn) =
  Float.Fin (Float.round f32 (inject_Z (v - mn))).
Proof.
  intros Hv Hmn. unfold Float.sub.
  assert (Hopp : Float.opp (Float.of_Z mn) = Float.of_Z (- mn)).
  { apply float_eqb_eq.
    apply (forall_samples
             (fun mn => float_eqb (Float.opp (Float.of_Z mn)) (Float.of_Z (- mn))));
      [vm_compute; reflexivity | assumption]. }
  rewrite Hopp. unfold Float.add, Float.of_Z, inject_Z, Qplus. cbn [Qnum Qden].
  do 3 f_equal. lia.
Qed.

Lemma ilerp_numerator_exact mn v :
  0 <= mn <= 255 -> 0 <= v <= 255 ->
  ilerp_numerator mn v = Float.of_Z (Z.max (v - mn) 0).
Proof.
  intros Hmn Hv. unfold ilerp_numerator. rewrite sub_exact by assumption.
  apply float_eqb_eq.
  destruct (Z.le_gt_cases 0 (v - mn)) as [Hk|Hk].
  - apply (forall_samples
             (fun k => float_eqb
                         (Float.maximum (Float.Fin (Float.round f32 (inject_Z k)))
                            (Float.of_Z 0))
                         (Float.of_Z (Z.max k 0))));
      [vm_compute; reflexivity | lia].
  - replace (v - mn) with (- (mn - v)) by lia.
    apply (forall_samples
             (fun k => float_eqb
                         (Float.maximum (Float.Fin (Float.round f32 (inject_Z (- k))))
                            (Float.of_Z 0))
                         (Float.of_Z (Z.max (- k) 0))));
      [vm_compute; reflexivity | lia].
Qed.

Lemma ilerp_value_from mn mx v :
  0 <= mn <= 255 -> 0 <= v <= 255 ->
  ilerp_value mn mx v = ilerp_from (Z.max (v - mn) 0) (mx - mn).
Proof.
  intros Hmn Hv. unfold ilerp_value, ilerp_from, ilerp_divisor.
  now rewrite ilerp_numerator_exact.
Qed.

Lemma ilog2_le n d : Float.ilog2 n d <= Z.log2 (Zpos n).
Proof.
  unfold Float.ilog2.
  pose proof (Z.log2_nonneg (Zpos d)).
  destruct (0 <=? _);
    match goal with |- (if ?b then _ else _) <= _ => destruct b end; lia.
Qed.

(** A quotient that is at least 1 is rounded to at least 1. *)
Lemma round_pos_ge_1 n d :
  (d <= n)%positive -> Zpos n <= 255 -> (1 <= Float.round_pos f32 n d)%Q.
Proof.
  intros Hdn Hn. unfold Float.round_pos.
  pose proof (ilog2_le n d) as He.
  assert (Hlog : Z.log2 (Zpos n) <= 7).
  { change 7 with (Z.log2 255). now apply Z.log2_le_mono. }
  set (s := f32 - 1 - Float.ilog2 n d).
  assert (Hs : 0 <= s) by (unfold s, f32, Float.binary32; lia).
  destruct (Z.leb_spec 0 s) as [_|]; [|lia].
  rewrite Qred_correct. unfold Qle. cbn [Qnum Qden].
  assert (Hpow : 0 < 2 ^ s) by (apply Z.pow_pos_nonneg; lia).
  rewrite Z2Pos.id by assumption. rewrite Z.mul_1_l, Z.mul_1_r.
  etransitivity; [|apply round_half_even_floor; lia].
  apply Z.div_le_lower_bound; [lia|].
  apply Z.mul_le_mono_nonneg_r; lia.
Qed.

(** A sample at or above [max]: the quotient is at least 1, the minimum
    with 1 is 1, and the product is 255. *)
Lemma ilerp_from_full n d :
  1 <= d -> d <= n -> n <= 255 -> ilerp_from n d = Float.of_Z 255.
Proof.
  intros Hd Hdn Hn. unfold ilerp_from.
  destruct n as [|n|n]; [lia| |lia]. destruct d as [|d|d]; [lia| |lia].
  unfold Float.div, Float.of_Z, Float.is_zero, inject_Z, Qdiv, Qinv, Qmult, Float.round.
  cbn [Qnum Qden Z.eqb Z.mul Pos.mul].
  rewrite Z.mul_1_r. change (1 * d)%positive with d.
  pose proof (round_pos_ge_1 n d ltac:(lia) Hn) as Hge.
  assert (Hred : exists y, Float.round_pos f32 n d = Qred y).
  { unfold Float.round_pos. destruct (0 <=? _); [eexists; reflexivity|].
    eexists. symmetry. apply Qred_inject_Z. }
  destruct Hred as [y Hy]. rewrite Hy in *.
  assert (Hmin : Float.minimum (Float.Fin (Qred y)) (Float.Fin (1 # 1)) = Float.Fin 1).
  { unfold Float.minimum, Float.ltb.
    destruct (Qle_bool (Qred y) (1 # 1)) eqn:E; cbn [negb]; [|reflexivity].
    apply Qle_bool_iff in E.
    f_equal. change 1%Q with (Qred 1). apply Qred_complete.
    rewrite Qred_correct in *. now apply Qle_antisym. }
  rewrite Hmin. vm_compute. reflexivity.
Qed.

Lemma ilerp_checked_all n d :
  0 <= n -> n < d -> d <= 255 -> ilerp_checked n d = true.
Proof.
  intros Hn Hnd Hd.
  assert (H : (d <=? n) || ilerp_checked n d = true).
  { apply (forall_samples2 (fun n d => (d <=? n) || ilerp_checked n d));
      [vm_cast_no_check (eq_refl true) | lia | lia]. }
  apply orb_true_iff in H as [H|H]; [apply Z.leb_le in H; lia|exact H].
Qed.

(** float32 loses nothing here: the value cast to uint8 truncates to the
    integer quotient of [255 * n] by [d], capped at 255. *)
Lemma ilerp_from_spec n d :
  0 <= n <= 255 -> 1 <= d <= 255 ->
  exists q,
    ilerp_from n d = Float.Fin q /\ 0 <= Qnum q /\
    Float.trunc q = Z.min 255 (255 * n / d).
Proof.
  intros Hn Hd. destruct (Z.le_gt_cases d n) as [Hdn|Hnd].
  - rewrite ilerp_from_full by lia. eexists. split; [reflexivity|].
    split; [cbn; lia|]. change (Float.trunc (inject_Z 255)) with 255.
    assert (255 <= 255 * n / d); [|lia].
    apply Z.div_le_lower_bound; nia.
  - pose proof (ilerp_checked_all n d ltac:(lia) ltac:(lia) ltac:(lia)) as H.
    unfold ilerp_checked in H.
    destruct (ilerp_from n d) as [q| |]; try discriminate.
    apply andb_true_iff in H as [Hq Ht]. apply Z.leb_le in Hq. apply Z.eqb_eq in Ht.
    exists q. split; [reflexivity|]. split; [assumption|].
    assert (255 * n / d < 255); [|lia].
    apply Z.div_lt_upper_bound; nia.
Qed.

Lemma ilerp_from_uint8 n d :
  0 <= n <= 255 -> 1 <= d <= 255 ->
  uint8 (ilerp_from n d) = Z.min 255 (255 * n / d).
Proof.
  intros Hn Hd.
  destruct (ilerp_from_spec n d Hn Hd) as (q & -> & _ & Ht).
  cbn [uint8]. rewrite Ht. apply Z.mod_small.
  assert (0 <= 255 * n / d); [|lia].
  apply Z.div_pos; lia.
Qed.

(** X14: for bounds [0 <= min < max <= 255] the inverse lerp of an 8-bit
    sample is computed without leaving the range of uint8 (the value cast
    is finite and in [0, 256)), is 0 for a sample at or below [min], 255
    for a sample at or above [max], and does not decrease when the sample
    grows. *)
Theorem ilerp_clamps_in_order mn mx v :
  0 <= mn -> mn < mx -> mx <= 255 -> 0 <= v <= 255 ->
  (exists q, ilerp_value mn mx v = Float.Fin q /\ 0 <= Qnum q /\
             ilerp_pixel mn mx v = Float.trunc q /\ 0 <= Float.trunc q <= 255) /\
  (v <= mn -> ilerp_pixel mn mx v = 0) /\
  (mx <= v -> ilerp_pixel mn mx v = 255) /\
  (forall v', v <= v' <= 255 -> ilerp_pixel mn mx v <= ilerp_pixel mn mx v').
Proof.
  intros Hmn Hlt Hmx Hv. unfold ilerp_pixel.
  rewrite ilerp_value_from by lia.
  pose proof (ilerp_from_uint8 (Z.max (v - mn) 0) (mx - mn)) as Hcast.
  destruct (ilerp_from_spec (Z.max (v - mn) 0) (mx - mn)) as (q & Hq & Hnum & Ht);
    [lia | lia |].
  rewrite Hcast by lia.
  assert (Hpos : 0 <= 255 * Z.max (v - mn) 0 / (mx - mn)) by (apply Z.div_pos; lia).
  split; [|split; [|split]].
  - exists q. rewrite Ht. repeat split; try assumption; lia.
  - intros Hle. replace (Z.max (v - mn) 0) with 0 by lia.
    rewrite Z.mul_0_r, Zdiv_0_l. reflexivity.
  - intros Hge. assert (255 <= 255 * Z.max (v - mn) 0 / (mx - mn)); [|lia].
    apply Z.div_le_lower_bound; nia.
  - intros v' Hv'. rewrite (ilerp_value_from mn mx v') by lia.
    rewrite ilerp_from_uint8 by lia.
    apply Z.min_le_compat_l. apply Z.div_le_mono; lia.
Qed.

Lemma ilerp_clamps_in_order_witness :
  ilerp_pixel 10 20 5 = 0 /\ ilerp_pixel 10 20 15 = 127 /\ ilerp_pixel 10 20 200 = 255.
Proof.
  destruct (ilerp_clamps_in_order 10 20 5) as (_ & Hlow & _); [lia | lia | lia | lia |].
  split; [apply Hlow; lia|]. split; vm_compute; reflexivity.
Defined.

(** X15: with its default bounds, [min = 0] and [max = 255], the inverse
    lerp changes no 8-bit sample. *)
Theorem ilerp_default_is_identity v :
  0 <= v <= 255 -> ilerp_pixel 0 255 v = v.
Proof.
  intros Hv. apply (forall_samples (fun v => ilerp_pixel 0 255 v =? v)) in Hv.
  - now apply Z.eqb_eq in Hv.
  - vm_compute. reflexivity.
Qed.

Lemma ilerp_default_is_identity_witness : ilerp_pixel 0 255 100 = 100.
Proof. apply (ilerp_default_is_identity 100). lia. Defined.

Lemma mul_zero a : Float.mul f32 (Float.Fin a) (Float.of_Z 0) = Float.of_Z 0.
Proof.
  unfold Float.mul, Float.of_Z, Float.round. cbn [Qnum Qmult inject_Z].
  rewrite Z.mul_0_r. reflexivity.
Qed.

(** X16: with [min = max] the lerp gives every sample that one value: the
    scale [max - min] is 0 and the offset is [max]. *)
Theorem lerp_equal_bounds_is_constant m v :
  0 <= m <= 255 -> 0 <= v <= 255 -> lerp_pixel m m v = m.
Proof.
  intros Hm Hv. unfold lerp_pixel, lerp_value. rewrite Z.sub_diag.
  assert (Hdiv : exists a, Float.div f32 (Float.of_Z v) (Float.of_Z 255) = Float.Fin a)
    by (eexists; reflexivity).
  destruct Hdiv as [a ->]. rewrite mul_zero.
  apply Z.eqb_eq.
  apply (forall_samples (fun m => uint8 (Float.add f32 (Float.of_Z 0) (Float.of_Z m)) =? m));
    [vm_compute; reflexivity | assumption].
Qed.

Lemma lerp_equal_bounds_is_constant_witness : lerp_pixel 42 42 200 = 42.
Proof. apply (lerp_equal_bounds_is_constant 42 200); lia. Defined.

(** X17: for bounds [0 <= min < max <= 255] the float32 arithmetic of the
    inverse lerp loses nothing: the stored sample is the integer quotient
    of [255 * max(v - min, 0)] by [max - min], capped at 255. *)
Theorem ilerp_is_exact_floor mn mx v :
  0 <= mn -> mn < mx -> mx <= 255 -> 0 <= v <= 255 ->
  ilerp_pixel mn mx v = Z.min 255 (255 * Z.max (v - mn) 0 / (mx - mn)).
Proof.
  intros Hmn Hlt Hmx Hv. unfold ilerp_pixel.
  rewrite ilerp_value_from by lia.
  apply ilerp_from_uint8; lia.
Qed.

Lemma ilerp_is_exact_floor_witness : ilerp_pixel 10 20 15 = 127.
Proof. apply (ilerp_is_exact_floor 10 20 15); lia. Defined.
